(** * The LED-panel protocol engine of panel_emu.c

    A shallow embedding of the emulator back end of the panel HAL
    (emulator/src/panel_emu.c): the 192-cell circular shift register, the
    multiplexed row address, the latch flags and the decoder that commits
    the shift register into the 32x32 latched framebuffer.

    C [int] values are modelled as [Z].  The two static arrays are lists of
    [Z] (one element per [uint8_t] cell) read and written by index; the
    process-wide mutable state of the C file is one record that every
    operation takes and returns.  Calls into JavaScript are recorded in a
    chronological log, since they are the only output of the module. *)

From Stdlib Require Import ZArith List Lia Bool Ascii.
From stdpp Require Import base numbers list.
Import ListNotations.

Local Open Scope Z_scope.

(** ** Panel geometry and protocol constants *)

Definition PANEL_PIXEL_WIDTH : Z := 32.
Definition PANEL_PIXEL_HEIGHT : Z := 32.
Definition PANEL_ROW_PAIRS : Z := 16.
Definition PANEL_SHIFT_BITS : Z := 192.

(** ** C arrays

    [a[i]] and [a[i] = v] on a static array.  The code never leaves the
    array (lemmas [commit_indices_in_range] and [shift_indices_in_range]
    below); outside it C gives no meaning to the access, and the model reads
    0 and writes nothing there. *)

Definition arr_get (a : list Z) (i : Z) : Z :=
  if 0 <=? i then default 0 (a !! Z.to_nat i) else 0.

Definition arr_set (a : list Z) (i v : Z) : list Z :=
  if 0 <=? i then <[Z.to_nat i := v]> a else a.

(** [for (int x = lo; x < hi; x++) a = body x a;] *)

Fixpoint for_loop {A : Type} (fuel : nat) (x hi : Z) (body : Z -> A -> A) (a : A) : A :=
  match fuel with
  | O => a
  | S fuel' => if x <? hi then for_loop fuel' (x + 1) hi body (body x a) else a
  end.

Definition for_range {A : Type} (lo hi : Z) (body : Z -> A -> A) (a : A) : A :=
  for_loop (Z.to_nat (hi - lo)) lo hi body a.

(** ** JavaScript interop: the calls the module makes, in order.

    [js_render_frame] receives a pointer to the framebuffer and draws from
    it before returning, so the log keeps the contents at the time of the
    call. *)

Inductive JsCall : Type :=
  | js_set_display_state (on : Z)
  | js_render_frame (framebuffer : list Z) (active_row_pair : Z) (display_on : Z).

(** ** Emulated panel internal state *)

Record Panel : Type := mkPanel {
  latchedFramebufferRgb : list Z;
  shiftRegisterBits : list Z;
  shiftRegisterOldestIndex : Z;
  shiftRegisterBitCount : Z;
  selectedRowPairIndex : Z;
  latchLineIsLow : bool;
  displayIsEnabled : bool;
  jsLog : list JsCall
}.

Definition set_latchedFramebufferRgb (fb : list Z) (st : Panel) : Panel :=
  mkPanel fb (shiftRegisterBits st) (shiftRegisterOldestIndex st)
          (shiftRegisterBitCount st) (selectedRowPairIndex st)
          (latchLineIsLow st) (displayIsEnabled st) (jsLog st).

Definition set_shiftRegister (bits : list Z) (oldest count : Z) (st : Panel) : Panel :=
  mkPanel (latchedFramebufferRgb st) bits oldest count (selectedRowPairIndex st)
          (latchLineIsLow st) (displayIsEnabled st) (jsLog st).

Definition set_selectedRowPairIndex (r : Z) (st : Panel) : Panel :=
  mkPanel (latchedFramebufferRgb st) (shiftRegisterBits st)
          (shiftRegisterOldestIndex st) (shiftRegisterBitCount st) r
          (latchLineIsLow st) (displayIsEnabled st) (jsLog st).

Definition set_latch (low enabled : bool) (st : Panel) : Panel :=
  mkPanel (latchedFramebufferRgb st) (shiftRegisterBits st)
          (shiftRegisterOldestIndex st) (shiftRegisterBitCount st)
          (selectedRowPairIndex st) low enabled (jsLog st).

Definition js_call (c : JsCall) (st : Panel) : Panel :=
  mkPanel (latchedFramebufferRgb st) (shiftRegisterBits st)
          (shiftRegisterOldestIndex st) (shiftRegisterBitCount st)
          (selectedRowPairIndex st) (latchLineIsLow st) (displayIsEnabled st)
          (jsLog st ++ [c]).

(** The state the C file is loaded with: static storage is zeroed, the three
    scalars carry their initialisers. *)

Definition staticPanel : Panel :=
  mkPanel (replicate (Z.to_nat (PANEL_PIXEL_WIDTH * PANEL_PIXEL_HEIGHT * 3)) 0)
          (replicate (Z.to_nat PANEL_SHIFT_BITS) 0)
          0 0 0 false true [].

(** ** The shift register *)

Definition shiftRegisterPushBit (bitValue : Z) (st : Panel) : Panel :=
  let bitValue := if bitValue =? 0 then 0 else 1 in
  if shiftRegisterBitCount st <? PANEL_SHIFT_BITS then
    let writeIndex :=
      Z.rem (shiftRegisterOldestIndex st + shiftRegisterBitCount st) PANEL_SHIFT_BITS in
    set_shiftRegister (arr_set (shiftRegisterBits st) writeIndex bitValue)
                      (shiftRegisterOldestIndex st)
                      (shiftRegisterBitCount st + 1) st
  else
    let oldest := Z.rem (shiftRegisterOldestIndex st + 1) PANEL_SHIFT_BITS in
    let writeIndex := Z.rem (oldest + PANEL_SHIFT_BITS - 1) PANEL_SHIFT_BITS in
    set_shiftRegister (arr_set (shiftRegisterBits st) writeIndex bitValue)
                      oldest (shiftRegisterBitCount st) st.

Definition shiftRegisterGetBit (st : Panel) (logicalIndex : Z) : Z :=
  let physicalIndex :=
    Z.rem (shiftRegisterOldestIndex st + logicalIndex) PANEL_SHIFT_BITS in
  Z.land (arr_get (shiftRegisterBits st) physicalIndex) 1.

(** ** The frame commit decoder *)

(** One turn of the loop of [commitShiftRegisterToFramebufferForSelectedRow]:
    six reads of the shift register, six writes to the framebuffer. *)

Definition commitColumn (st : Panel) (topRowY bottomRowY x : Z) (fb : list Z) : list Z :=
  let topR := shiftRegisterGetBit st (0 * PANEL_PIXEL_WIDTH + x) in
  let topG := shiftRegisterGetBit st (1 * PANEL_PIXEL_WIDTH + x) in
  let topB := shiftRegisterGetBit st (2 * PANEL_PIXEL_WIDTH + x) in
  let bottomR := shiftRegisterGetBit st (3 * PANEL_PIXEL_WIDTH + x) in
  let bottomG := shiftRegisterGetBit st (4 * PANEL_PIXEL_WIDTH + x) in
  let bottomB := shiftRegisterGetBit st (5 * PANEL_PIXEL_WIDTH + x) in
  let topPixelIndex := (topRowY * PANEL_PIXEL_WIDTH + x) * 3 in
  let bottomPixelIndex := (bottomRowY * PANEL_PIXEL_WIDTH + x) * 3 in
  let fb := arr_set fb (topPixelIndex + 0) topR in
  let fb := arr_set fb (topPixelIndex + 1) topG in
  let fb := arr_set fb (topPixelIndex + 2) topB in
  let fb := arr_set fb (bottomPixelIndex + 0) bottomR in
  let fb := arr_set fb (bottomPixelIndex + 1) bottomG in
  let fb := arr_set fb (bottomPixelIndex + 2) bottomB in
  fb.

Definition commitShiftRegisterToFramebufferForSelectedRow (st : Panel) : Panel :=
  let rowPair := Z.land (selectedRowPairIndex st) 15 in
  let topRowY := rowPair in
  let bottomRowY := rowPair + 16 in
  set_latchedFramebufferRgb
    (for_range 0 PANEL_PIXEL_WIDTH (commitColumn st topRowY bottomRowY)
               (latchedFramebufferRgb st))
    st.

(** ** The panel.h operations *)

Definition setupPanel (st : Panel) : Panel :=
  js_call (js_set_display_state 1)
    (mkPanel (replicate (Z.to_nat (PANEL_PIXEL_WIDTH * PANEL_PIXEL_HEIGHT * 3)) 0)
             (replicate (Z.to_nat PANEL_SHIFT_BITS) 0)
             0 PANEL_SHIFT_BITS 0 false true (jsLog st)).

Definition PrepareLatch (st : Panel) : Panel :=
  js_call (js_set_display_state 0) (set_latch true false st).

Definition LatchRegister (st : Panel) : Panel :=
  let st := set_latch false true st in
  let st := js_call (js_set_display_state 1) st in
  let st := commitShiftRegisterToFramebufferForSelectedRow st in
  js_call (js_render_frame (latchedFramebufferRgb st)
                           (Z.land (selectedRowPairIndex st) 15)
                           (if displayIsEnabled st then 1 else 0)) st.

Definition SelectRow (row : Z) (st : Panel) : Panel :=
  set_selectedRowPairIndex (Z.land (row - 1) 15) st.

Definition PushBit (onoff : Z) (st : Panel) : Panel :=
  shiftRegisterPushBit (if onoff =? 0 then 0 else 1) st.

Definition ClearRow (row : Z) (st : Panel) : Panel :=
  let st := SelectRow row st in
  for_range 0 PANEL_SHIFT_BITS (fun _ st => PushBit 0 st) st.

(** ** Driver call sequences *)

Inductive DriverCall : Type :=
  | CallSelectRow (row : Z)
  | CallPushBit (onoff : Z)
  | CallPrepareLatch
  | CallLatchRegister
  | CallClearRow (row : Z).

Definition call (c : DriverCall) (st : Panel) : Panel :=
  match c with
  | CallSelectRow row => SelectRow row st
  | CallPushBit onoff => PushBit onoff st
  | CallPrepareLatch => PrepareLatch st
  | CallLatchRegister => LatchRegister st
  | CallClearRow row => ClearRow row st
  end.

Definition run (calls : list DriverCall) (st : Panel) : Panel :=
  fold_left (fun st c => call c st) calls st.

(** A run of [PushBit] calls, one per element. *)
Definition pushBits (bits : list Z) (st : Panel) : Panel :=
  fold_left (fun st b => PushBit b st) bits st.

(** The bit that [PushBit onoff] shifts in. *)
Definition bitOf (onoff : Z) : Z := if onoff =? 0 then 0 else 1.

(** ** Views of the state used by the statements *)

(** [FrameBuffer[y][x]], channel 0, 1, 2 for R, G, B: the byte layout that
    the decoder writes and the renderer reads. *)
Definition pixel (fb : list Z) (y x ch : Z) : Z :=
  arr_get fb ((y * PANEL_PIXEL_WIDTH + x) * 3 + ch).

(** The 192 logical bits, oldest first. *)
Definition logicalBits (st : Panel) : list Z :=
  map (fun i => shiftRegisterGetBit st (Z.of_nat i)) (seq 0 (Z.to_nat PANEL_SHIFT_BITS)).

(** The cells that hold valid bits, oldest first, as stored. *)
Definition storedBits (st : Panel) : list Z :=
  map (fun i => arr_get (shiftRegisterBits st)
                  ((shiftRegisterOldestIndex st + Z.of_nat i) `mod` PANEL_SHIFT_BITS))
      (seq 0 (Z.to_nat (shiftRegisterBitCount st))).

(** Plane [p] of a 192-bit payload: 32 consecutive bits from [32 * p]. *)
Definition plane (p : nat) (payload : list Z) : list Z :=
  take 32 (drop (32 * p) payload).

(** The last [n] elements of a list (all of it when it is shorter). *)
Definition lastn {A : Type} (n : nat) (l : list A) : list A :=
  drop (length l - n) l.

(** The decode rule in the words of the design (section 4.3), for a row
    address [r] and a 192-bit payload: row [r] takes its R, G, B channels at
    column [x] from planes 0, 1, 2 at offset [x], row [r + 16] from planes
    3, 4, 5, and every other row keeps what it had. *)
Definition spec_decodePixel (r : Z) (payload : list Z) (old : Z) (y x ch : Z) : Z :=
  if y =? r then arr_get (plane (Z.to_nat ch) payload) x
  else if y =? r + 16 then arr_get (plane (Z.to_nat (3 + ch)) payload) x
  else old.

Definition spec_decodeRowPair (r : Z) (payload fb : list Z) : list Z :=
  imap (fun j old =>
          let j := Z.of_nat j in
          spec_decodePixel r payload old (j / 96) ((j / 3) `mod` 32) (j `mod` 3))
       fb.

(** The cells of the framebuffer after the decoder has handled the columns
    below [n]. *)
Definition committedUpTo (st : Panel) (r n : Z) (fb0 fb : list Z) : Prop :=
  length fb = 3072%nat /\
  forall y x ch, 0 <= y < 32 -> 0 <= x < 32 -> 0 <= ch < 3 ->
    pixel fb y x ch =
      if (x <? n) && (y =? r) then shiftRegisterGetBit st (ch * 32 + x)
      else if (x <? n) && (y =? r + 16) then shiftRegisterGetBit st ((3 + ch) * 32 + x)
      else pixel fb0 y x ch.

(** A 32-bit [int] after wrap-around, used only to show that the
    unbounded [row - 1] of [SelectRow] selects the same row address. *)
Definition wrap_int32 (z : Z) : Z := (z + 2147483648) `mod` 4294967296 - 2147483648.

(** The shift register alone: the cells and the two ring indices. *)
Definition shiftRegister (st : Panel) : list Z * Z * Z :=
  (shiftRegisterBits st, shiftRegisterOldestIndex st, shiftRegisterBitCount st).

(** Calls that load a payload: everything but a commit or a clear. *)
Definition isLoadCall (c : DriverCall) : bool :=
  match c with
  | CallSelectRow _ | CallPushBit _ | CallPrepareLatch => true
  | CallLatchRegister | CallClearRow _ => false
  end.

(** The arguments of the [PushBit] calls of a sequence, in order. *)
Fixpoint pushedBits (calls : list DriverCall) : list Z :=
  match calls with
  | [] => []
  | CallPushBit onoff :: calls' => onoff :: pushedBits calls'
  | _ :: calls' => pushedBits calls'
  end.

(** A clean 1-bit channel value. *)
Definition isBit (v : Z) : Prop := v = 0 \/ v = 1.

(** Well-formed states: the two arrays have their declared sizes and the
    ring indices are in range.  [staticPanel] is well formed and every
    operation keeps a state well formed. *)
Definition wf (st : Panel) : Prop :=
  length (latchedFramebufferRgb st) = 3072%nat /\
  length (shiftRegisterBits st) = 192%nat /\
  0 <= shiftRegisterOldestIndex st < 192 /\
  0 <= shiftRegisterBitCount st <= 192.

(** ** A worked scan step

    The round trip of the design's test list: on a fresh panel select row
    address 5 (the caller's row 6) and push a payload whose topR plane is
    all ones and whose other five planes are zero. *)

Definition examplePayload : list Z := replicate 32 1 ++ replicate 160 0.

Definition examplePanel : Panel :=
  pushBits examplePayload (SelectRow 6 (setupPanel staticPanel)).

(** The load phase of one scan step of the driver for row pair 3: latch
    low, select the row, push 192 bits. *)
Definition exampleLoad : list DriverCall :=
  CallPrepareLatch :: CallSelectRow 4 :: map CallPushBit (replicate 192 7).

(** ** The rest of panel_emu.c *)

(** [getRawInput]: the reading comes from JavaScript ([js_get_adc], 0 in a
    build without a browser); a negative one is replaced by 0 before the
    conversion to [uint32_t], which then changes nothing. *)
Definition getRawInput (js_get_adc : Z -> Z) (channelValue : Z) : Z :=
  let raw := js_get_adc channelValue in
  let raw := if raw <? 0 then 0 else raw in
  raw.

(** [delay_ms] waits (a busy loop, or [emscripten_sleep] while the page is
    paused) and touches none of the panel state.  The waiting itself is not
    modelled. *)
Definition delay_ms (ms : Z) (st : Panel) : Panel := st.

(** ** The HAL boundary of panel.h

    game.c calls only the functions declared in panel.h; the build links
    one implementation.  The driver code below is written once over this
    interface, as in the source. *)

Record PanelHAL (S : Type) : Type := mkHAL {
  hal_PrepareLatch : S -> S;
  hal_LatchRegister : S -> S;
  hal_SelectRow : Z -> S -> S;
  hal_PushBit : Z -> S -> S;
  hal_ClearRow : Z -> S -> S;
  hal_delay_ms : Z -> S -> S
}.

Arguments mkHAL {S}.
Arguments hal_PrepareLatch {S}.
Arguments hal_LatchRegister {S}.
Arguments hal_SelectRow {S}.
Arguments hal_PushBit {S}.
Arguments hal_ClearRow {S}.
Arguments hal_delay_ms {S}.

Definition emulatorHAL : PanelHAL Panel :=
  mkHAL PrepareLatch LatchRegister SelectRow PushBit ClearRow delay_ms.

(** A call sequence on any implementation. *)
Definition callHAL {S : Type} (H : PanelHAL S) (c : DriverCall) (st : S) : S :=
  match c with
  | CallSelectRow row => hal_SelectRow H row st
  | CallPushBit onoff => hal_PushBit H onoff st
  | CallPrepareLatch => hal_PrepareLatch H st
  | CallLatchRegister => hal_LatchRegister H st
  | CallClearRow row => hal_ClearRow H row st
  end.

Definition runHAL {S : Type} (H : PanelHAL S) (calls : list DriverCall) (st : S) : S :=
  fold_left (fun st c => callHAL H c st) calls st.

(** Every bit a call sequence shifts out, the 192 zeros of each [ClearRow]
    included. *)
Fixpoint shiftedBits (calls : list DriverCall) : list Z :=
  match calls with
  | [] => []
  | CallPushBit onoff :: calls' => bitOf onoff :: shiftedBits calls'
  | CallClearRow _ :: calls' => replicate 192 0 ++ shiftedBits calls'
  | _ :: calls' => shiftedBits calls'
  end.

(** ** panel_hw.c: the STM32 implementation

    Every function of the file is a sequence of [gpio_set] and
    [gpio_clear] calls on [LEDPANEL_PORT]; the state is the log of those
    calls in order.  Pin levels are read back from the log. *)

Module Hw.

Inductive Pin : Type :=
  | A_PIN | B_PIN | C_PIN | D_PIN | INP_PIN | CLK_PIN | LAT_PIN.

Inductive GpioCall : Type :=
  | gpio_set (pin : Pin)
  | gpio_clear (pin : Pin).

Definition pin_eqb (p q : Pin) : bool :=
  match p, q with
  | A_PIN, A_PIN | B_PIN, B_PIN | C_PIN, C_PIN | D_PIN, D_PIN
  | INP_PIN, INP_PIN | CLK_PIN, CLK_PIN | LAT_PIN, LAT_PIN => true
  | _, _ => false
  end.

Definition PrepareLatch (log : list GpioCall) : list GpioCall :=
  log ++ [gpio_clear LAT_PIN].

Definition LatchRegister (log : list GpioCall) : list GpioCall :=
  log ++ [gpio_set LAT_PIN].

Definition SelectRow (row : Z) (log : list GpioCall) : list GpioCall :=
  let log := if Z.rem row 2 =? 1 then log ++ [gpio_set A_PIN]
             else log ++ [gpio_clear A_PIN] in
  let row := Z.quot row 2 in
  let log := if Z.rem row 2 =? 1 then log ++ [gpio_set B_PIN]
             else log ++ [gpio_clear B_PIN] in
  let row := Z.quot row 2 in
  let log := if Z.rem row 2 =? 1 then log ++ [gpio_set C_PIN]
             else log ++ [gpio_clear C_PIN] in
  let row := Z.quot row 2 in
  let log := if Z.rem row 2 =? 1 then log ++ [gpio_set D_PIN]
             else log ++ [gpio_clear D_PIN] in
  log.

Definition PushBit (onoff : Z) (log : list GpioCall) : list GpioCall :=
  let log := log ++ [gpio_clear CLK_PIN] in
  let log := if onoff =? 0 then log ++ [gpio_clear INP_PIN]
             else log ++ [gpio_set INP_PIN] in
  log ++ [gpio_set CLK_PIN].

Definition ClearRow (row : Z) (log : list GpioCall) : list GpioCall :=
  let log := SelectRow row log in
  for_range 0 192 (fun _ log => PushBit 0 log) log.

Definition delay_ms (ms : Z) (log : list GpioCall) : list GpioCall := log.

(** The level of a pin after the calls of a log, from its level before. *)
Definition level (before : bool) (pin : Pin) (log : list GpioCall) : bool :=
  fold_left (fun lv c =>
               match c with
               | gpio_set q => if pin_eqb q pin then true else lv
               | gpio_clear q => if pin_eqb q pin then false else lv
               end) log before.

(** The row address on the lines D C B A, A the least significant. *)
Definition address (log : list GpioCall) : Z :=
  8 * Z.b2z (level false D_PIN log) + 4 * Z.b2z (level false C_PIN log) +
  2 * Z.b2z (level false B_PIN log) + Z.b2z (level false A_PIN log).

(** The level of [INP_PIN] at each rising edge of [CLK_PIN], in order:
    [clk] and [inp] are the two levels before the log. *)
Fixpoint clockedBits (clk inp : bool) (log : list GpioCall) : list Z :=
  match log with
  | [] => []
  | gpio_set CLK_PIN :: log' =>
      (if clk then [] else [Z.b2z inp]) ++ clockedBits true inp log'
  | gpio_clear CLK_PIN :: log' => clockedBits false inp log'
  | gpio_set INP_PIN :: log' => clockedBits clk true log'
  | gpio_clear INP_PIN :: log' => clockedBits clk false log'
  | _ :: log' => clockedBits clk inp log'
  end.

End Hw.

Definition hardwareHAL : PanelHAL (list Hw.GpioCall) :=
  mkHAL Hw.PrepareLatch Hw.LatchRegister Hw.SelectRow Hw.PushBit Hw.ClearRow
        Hw.delay_ms.

(** ** A panel read off the pin log

    What a panel shows is not code of the repository.  To compare the two
    implementations, the pin log of panel_hw.c is replayed on a panel that
    does what the emulator assumes of one: it shifts the data line into a
    chain of 192 cells at each rising clock edge, commits the chain at each
    call that sets the latch line, and shows address [a] of the lines
    D C B A on the row pair [(a - 1) mod 16]. *)










(** ** game.c: the scan of the logical framebuffer

    A [char] is its code.  [gameMatrix] is the 32 by 32 array in row-major
    order, [gameMatrix[y][x]] at index [y * 32 + x]. *)

Definition chr (c : ascii) : Z := Z.of_N (N_of_ascii c).

Definition panelWidth : Z := 32.
Definition panelHeight : Z := 32.
Definition refreshDelay : Z := 1.

Definition colours : list (list Z) :=
  [[0; 0; 0]; [1; 0; 0]; [0; 1; 0]; [0; 0; 1];
   [1; 1; 0]; [0; 1; 1]; [1; 0; 1]; [1; 1; 1]].

(** [t[i][j]] on a two-dimensional table. *)
Definition table2 (t : list (list Z)) (i j : Z) : Z :=
  if 0 <=? i then arr_get (nth (Z.to_nat i) t []) j else 0.

(** The [switch] of [displayRow]: it has no [default], so any other
    character leaves [colourIndex] as it was. *)
Definition colourSwitch (c colourIndex : Z) : Z :=
  if c =? chr "X" then 0
  else if c =? chr "W" then 7
  else if c =? chr "R" then 1
  else if c =? chr "B" then 3
  else if c =? chr "C" then 5
  else if c =? chr "M" then 6
  else if c =? chr "Y" then 4
  else if c =? chr "G" then 2
  else colourIndex.

(** [displayRow]: [colourIndex] is a local without initialiser; its value
    on entry is the parameter [colourIndex0]. *)
Definition displayRow {S : Type} (H : PanelHAL S)
    (colourIndex0 : Z) (matrixRow : list Z) (st : S) : S :=
  snd (for_range 0 3
         (fun j s =>
            for_range 0 panelWidth
              (fun i '(colourIndex, st) =>
                 let colourIndex := colourSwitch (arr_get matrixRow i) colourIndex in
                 (colourIndex, hal_PushBit H (table2 colours colourIndex j) st))
              s)
         (colourIndex0, st)).

(** [gameMatrix[y]], the row handed to [displayRow]. *)
Definition matrixRowAt (gameMatrix : list Z) (y : Z) : list Z :=
  take 32 (drop (Z.to_nat (y * 32)) gameMatrix).

(** One turn of the loop of [updateDisplay]. *)
Definition scanRowPair {S : Type} (H : PanelHAL S)
    (uninit : Z -> Z) (gameMatrix : list Z) (i : Z) (st : S) : S :=
  let st := hal_ClearRow H i st in
  let st := hal_PrepareLatch H st in
  let st := hal_SelectRow H (i + 1) st in
  let st := displayRow H (uninit i) (matrixRowAt gameMatrix i) st in
  let st := displayRow H (uninit (i + 16)) (matrixRowAt gameMatrix (i + 16)) st in
  let st := hal_LatchRegister H st in
  hal_delay_ms H refreshDelay st.

(** [updateDisplay]; [uninit y] is what the uninitialised local of
    [displayRow] holds when row [y] is displayed. *)
Definition updateDisplay {S : Type} (H : PanelHAL S)
    (uninit : Z -> Z) (gameMatrix : list Z) (st : S) : S :=
  for_range 0 (Z.quot panelHeight 2) (scanRowPair H uninit gameMatrix) st.

(** The eight colour codes. *)
Definition isColourCode (c : Z) : bool :=
  (c =? chr "X") || (c =? chr "W") || (c =? chr "R") || (c =? chr "B") ||
  (c =? chr "C") || (c =? chr "M") || (c =? chr "Y") || (c =? chr "G").

(** Channel [ch] of the colour a code stands for. *)
Definition colourBit (c ch : Z) : Z := table2 colours (colourSwitch c 0) ch.

(** The 96 bits of one row, plane by plane. *)
Definition rowBits (matrixRow : list Z) : list Z :=
  flat_map (fun j => map (fun i => colourBit (arr_get matrixRow (Z.of_nat i)) (Z.of_nat j))
                         (seq 0 32))
           (seq 0 3).

(** The calls of one scan step, for a framebuffer of colour codes: clear,
    latch low, select, the 96 bits of row [i] and the 96 bits of row
    [i + 16], latch. *)
Definition rowPairCalls (gameMatrix : list Z) (i : Z) : list DriverCall :=
  [CallClearRow i; CallPrepareLatch; CallSelectRow (i + 1)] ++
  map CallPushBit (rowBits (matrixRowAt gameMatrix i) ++
                   rowBits (matrixRowAt gameMatrix (i + 16))) ++
  [CallLatchRegister].

(** The calls of the first [n] scan steps, and of a whole pass. *)
Definition scanCallsUpTo (gameMatrix : list Z) (n : nat) : list DriverCall :=
  flat_map (fun i => rowPairCalls gameMatrix (Z.of_nat i)) (seq 0 n).

Definition scanCalls (gameMatrix : list Z) : list DriverCall :=
  scanCallsUpTo gameMatrix 16.

(** The row pairs of the frames handed to the renderer, in order. *)
Fixpoint renderedRowPairs (log : list JsCall) : list Z :=
  match log with
  | [] => []
  | js_render_frame _ active_row_pair _ :: log' => active_row_pair :: renderedRowPairs log'
  | _ :: log' => renderedRowPairs log'
  end.

(** A framebuffer that is red everywhere, for the worked examples. *)
Definition exampleMatrix : list Z := replicate 1024 (chr "R").

(** ** game.c: drawing into the logical framebuffer

    The globals these functions read and write.  The ball, its velocity
    and the joystick mapping are [float] code and are left out, with the
    functions that use them. *)

Definition paddleWidth : Z := 1.
Definition paddleHeight : Z := 4.
Definition netWidth : Z := 2.
Definition borderWidth : Z := 1.

Record Game : Type := mkGame {
  gameMatrix : list Z;
  lPaddleColour : Z;
  rPaddleColour : Z;
  netColour : Z;
  borderColour : Z;
  scoreColour : Z;
  textColour : Z;
  textBackgroundColour : Z;
  lPaddleX : Z;
  rPaddleX : Z;
  lPaddleY : Z;
  rPaddleY : Z;
  oldLPaddleY : Z;
  oldRPaddleY : Z;
  lScore : Z;
  rScore : Z
}.

Definition set_gameMatrix (m : list Z) (g : Game) : Game :=
  mkGame m (lPaddleColour g) (rPaddleColour g) (netColour g) (borderColour g)
         (scoreColour g) (textColour g) (textBackgroundColour g)
         (lPaddleX g) (rPaddleX g) (lPaddleY g) (rPaddleY g)
         (oldLPaddleY g) (oldRPaddleY g) (lScore g) (rScore g).

Definition set_oldPaddles (oldL oldR : Z) (g : Game) : Game :=
  mkGame (gameMatrix g) (lPaddleColour g) (rPaddleColour g) (netColour g)
         (borderColour g) (scoreColour g) (textColour g) (textBackgroundColour g)
         (lPaddleX g) (rPaddleX g) (lPaddleY g) (rPaddleY g)
         oldL oldR (lScore g) (rScore g).

(** [gameMatrix[y][x]] and [gameMatrix[y][x] = c]. *)
Definition matrix_get (m : list Z) (y x : Z) : Z := arr_get m (y * panelWidth + x).
Definition matrix_set (m : list Z) (y x c : Z) : list Z := arr_set m (y * panelWidth + x) c.

(** [t[a][b][c]] on a three-dimensional table. *)
Definition table3 (t : list (list (list Z))) (a b c : Z) : Z :=
  if 0 <=? a then table2 (nth (Z.to_nat a) t []) b c else 0.

Definition displayDigits : list (list (list Z)) :=
  [ [[1;1;1;0]; [1;0;0;1]; [1;0;0;1]; [1;1;1;0]; [1;0;0;0]; [1;0;0;0]];
    [[0;1;0;0]; [1;1;0;0]; [0;1;0;0]; [0;1;0;0]; [0;1;0;0]; [1;1;1;0]];
    [[0;1;1;0]; [1;0;0;1]; [0;0;0;1]; [0;1;1;0]; [1;0;0;0]; [1;1;1;1]];
    [[1;0;0;1]; [1;0;0;1]; [1;0;0;1]; [1;1;1;1]; [1;1;1;1]; [1;0;0;1]];
    [[1;1;1;0]; [0;1;0;0]; [0;1;0;0]; [0;1;0;0]; [0;1;0;0]; [1;1;1;0]];
    [[1;0;0;1]; [1;1;0;1]; [1;0;1;1]; [1;0;0;1]; [1;0;0;1]; [1;0;0;1]];
    [[0;1;1;1]; [1;0;0;0]; [0;1;1;0]; [0;0;0;1]; [0;0;0;1]; [1;1;1;0]];
    [[0;0;0;0]; [0;0;0;0]; [0;0;0;0]; [0;0;0;0]; [0;0;0;0]; [0;0;0;0]];
    [[1;1;1;1]; [0;1;0;0]; [0;1;0;0]; [0;1;0;0]; [0;1;0;0]; [0;1;0;0]];
    [[0;1;1;0]; [1;0;0;1]; [1;0;0;1]; [1;1;1;1]; [1;0;0;1]; [1;0;0;1]];
    [[1;1;1;0]; [1;0;0;1]; [1;0;0;1]; [1;1;1;0]; [1;0;0;1]; [1;0;0;1]] ].

Definition digits : list (list (list Z)) :=
  [ [[0;1;1;0]; [1;1;0;1]; [1;1;1;1]; [1;0;1;1]; [0;1;1;0]];
    [[0;1;0;0]; [1;1;0;0]; [0;1;0;0]; [0;1;0;0]; [1;1;1;1]];
    [[0;1;1;0]; [1;0;0;1]; [0;0;1;0]; [0;1;0;0]; [1;1;1;1]];
    [[1;1;1;0]; [0;0;0;1]; [0;1;1;0]; [0;0;0;1]; [1;1;1;0]];
    [[0;0;1;0]; [0;1;0;0]; [1;0;0;1]; [1;1;1;1]; [0;0;0;1]];
    [[1;1;1;1]; [1;0;0;0]; [1;1;1;1]; [0;0;0;1]; [1;1;1;0]];
    [[0;1;1;1]; [1;0;0;0]; [1;1;1;1]; [1;0;0;1]; [0;1;1;0]];
    [[1;1;1;1]; [0;0;0;1]; [0;0;1;0]; [0;1;0;0]; [0;1;0;0]];
    [[0;1;1;0]; [1;0;0;1]; [0;1;1;0]; [1;0;0;1]; [1;1;1;1]];
    [[1;1;1;1]; [1;0;0;1]; [0;1;1;1]; [0;0;0;1]; [1;1;1;0]] ].

Definition initGameMatrix (g : Game) : Game :=
  set_gameMatrix
    (for_range 0 panelHeight
       (fun i m => for_range 0 panelWidth (fun j m => matrix_set m i j (chr "X")) m)
       (gameMatrix g))
    g.

Definition eraseOldPaddles (paddleX oldPaddleY : Z) (g : Game) : Game :=
  set_gameMatrix
    (for_range 0 paddleWidth
       (fun i m =>
          let x := paddleX + i in
          for_range 0 paddleHeight
            (fun j m => let y := oldPaddleY + j in matrix_set m y x (chr "X")) m)
       (gameMatrix g))
    g.

Definition drawPaddle (paddleX paddleY oldPaddleY paddleColour : Z) (g : Game) : Game :=
  let g := eraseOldPaddles paddleX oldPaddleY g in
  set_gameMatrix
    (for_range 0 paddleWidth
       (fun i m =>
          let x := paddleX + i in
          for_range 0 paddleHeight
            (fun j m => let y := paddleY + j in matrix_set m y x paddleColour) m)
       (gameMatrix g))
    g.

Definition drawPaddles (g : Game) : Game :=
  let g := drawPaddle (lPaddleX g) (lPaddleY g) (oldLPaddleY g) (lPaddleColour g) g in
  let g := drawPaddle (rPaddleX g) (rPaddleY g) (oldRPaddleY g) (rPaddleColour g) g in
  set_oldPaddles (lPaddleY g) (rPaddleY g) g.

Definition drawNet (g : Game) : Game :=
  set_gameMatrix
    (for_range 0 netWidth
       (fun i m =>
          let x := Z.quot panelWidth 2 + i - Z.quot netWidth 2 in
          for_range 0 panelHeight
            (fun j m =>
               let y := j in
               if Z.rem y (netWidth * 2) <? netWidth
               then matrix_set m y x (netColour g) else m) m)
       (gameMatrix g))
    g.

Definition drawBorders (g : Game) : Game :=
  set_gameMatrix
    (for_range 0 borderWidth
       (fun j m =>
          for_range 0 panelWidth
            (fun i m =>
               let m := matrix_set m j i (borderColour g) in
               matrix_set m (panelHeight - 1 - j) i (borderColour g)) m)
       (gameMatrix g))
    g.

Definition drawDigit (digit startingX startingY : Z) (g : Game) : Game :=
  set_gameMatrix
    (for_range 0 5
       (fun i m =>
          let y := startingY + i in
          for_range 0 4
            (fun j m =>
               let x := startingX + j in
               if (0 <=? y) && (y <? panelHeight) && (0 <=? x) && (x <? panelWidth)
               then if table3 digits digit i j =? 1
                    then matrix_set m y x (scoreColour g)
                    else matrix_set m y x (chr "X")
               else m) m)
       (gameMatrix g))
    g.

Definition displayScores (g : Game) : Game :=
  let g := drawDigit (lScore g) (Z.quot panelWidth 2 - 3 * netWidth) 2 g in
  drawDigit (rScore g) (Z.quot panelWidth 2 + netWidth) 2 g.

(** The [switch] of [drawCharacter]; it has no [default] either. *)
Definition glyphSwitch (character index : Z) : Z :=
  if character =? chr "P" then 0
  else if character =? chr "1" then 1
  else if character =? chr "2" then 2
  else if character =? chr "W" then 3
  else if character =? chr "I" then 4
  else if character =? chr "N" then 5
  else if character =? chr "S" then 6
  else if character =? chr " " then 7
  else if character =? chr "T" then 8
  else if character =? chr "A" then 9
  else if character =? chr "R" then 10
  else index.

(** [drawCharacter]; [index0] is what the local [index] holds before the
    [switch]. *)
Definition drawCharacter (index0 : Z) (character startingX startingY : Z) (g : Game) : Game :=
  let index := glyphSwitch character index0 in
  set_gameMatrix
    (for_range 0 6
       (fun i m =>
          let y := startingY + i in
          for_range 0 4
            (fun j m =>
               let x := startingX + j in
               if (0 <=? y) && (y <? panelHeight) && (0 <=? x) && (x <? panelWidth)
               then if table3 displayDigits index i j =? 1
                    then matrix_set m y x (textColour g)
                    else matrix_set m y x (textBackgroundColour g)
               else m) m)
       (gameMatrix g))
    g.

Definition displayStart (index0 : Z) (g : Game) : Game :=
  let spacing := 1 in
  let startOffsetX := Z.quot ((panelWidth - 20) - (spacing * 6)) 2 in
  let characterLength := 4 in
  let g := drawCharacter index0 (chr "S")
             (startOffsetX + (characterLength * 0) + (spacing * 1))
             (Z.quot panelHeight 2 - 3) g in
  let g := drawCharacter index0 (chr "T")
             ((startOffsetX + (characterLength * 1)) + (spacing * 2))
             (Z.quot panelHeight 2 - 3) g in
  let g := drawCharacter index0 (chr "A")
             ((startOffsetX + (characterLength * 2)) + (spacing * 3))
             (Z.quot panelHeight 2 - 3) g in
  let g := drawCharacter index0 (chr "R")
             ((startOffsetX + (characterLength * 3)) + (spacing * 4))
             (Z.quot panelHeight 2 - 3) g in
  drawCharacter index0 (chr "T")
    ((startOffsetX + (characterLength * 4)) + (spacing * 5))
    (Z.quot panelHeight 2 - 3) g.

Definition drawWinBorders (g : Game) : Game :=
  set_gameMatrix
    (for_range 0 borderWidth
       (fun j m =>
          for_range 0 panelWidth
            (fun i m =>
               let m := matrix_set m j i (borderColour g) in
               let m := matrix_set m i j (borderColour g) in
               let m := matrix_set m (panelHeight - 1 - j) i (borderColour g) in
               matrix_set m i (panelWidth - 1 - j) (borderColour g)) m)
       (gameMatrix g))
    g.

Definition displayWinner (index0 : Z) (winner : Z) (g : Game) : Game :=
  let startOffsetX := 2 in
  let characterLength := 4 in
  let g := drawCharacter index0 (chr "P")
             (startOffsetX + (characterLength * 0))
             (Z.quot panelHeight 2 - 3) g in
  let g := if winner =? 0
           then drawCharacter index0 (chr "1")
                  (startOffsetX + (characterLength * 1) + 1)
                  (Z.quot panelHeight 2 - 3) g
           else drawCharacter index0 (chr "2")
                  (startOffsetX + (characterLength * 1) + 1)
                  (Z.quot panelHeight 2 - 3) g in
  let g := drawCharacter index0 (chr "W")
             (startOffsetX + (characterLength * 2) + 3)
             (Z.quot panelHeight 2 - 3) g in
  let g := drawCharacter index0 (chr "I")
             (startOffsetX + (characterLength * 3) + 3)
             (Z.quot panelHeight 2 - 3) g in
  let g := drawCharacter index0 (chr "N")
             (startOffsetX + (characterLength * 4) + 3)
             (Z.quot panelHeight 2 - 3) g in
  let g := drawCharacter index0 (chr "S")
             (startOffsetX + (characterLength * 5) + 4)
             (Z.quot panelHeight 2 - 3) g in
  drawWinBorders g.

(** [handleWin]: the winner it returns and the globals it leaves. *)
Definition handleWin (index0 : Z) (g : Game) : Z * Game :=
  let winner := if rScore g <? lScore g then 0 else 1 in
  (winner, displayWinner index0 winner g).

(** The characters [drawCharacter] has a glyph for. *)
Definition isGlyphCharacter (c : Z) : bool :=
  (c =? chr "P") || (c =? chr "1") || (c =? chr "2") || (c =? chr "W") ||
  (c =? chr "I") || (c =? chr "N") || (c =? chr "S") || (c =? chr " ") ||
  (c =? chr "T") || (c =? chr "A") || (c =? chr "R").

(** A logical framebuffer that [updateDisplay] can scan: 32 by 32 cells,
    each a colour code. *)
Definition validMatrix (m : list Z) : Prop :=
  length m = 1024%nat /\ Forall (fun c => isColourCode c = true) m.

(** A loop nest that makes at most one write per turn: the shape of the
    drawing loops. *)
Definition scatter1 (n : Z) (guard : Z -> bool) (idx val : Z -> Z) (m : list Z) : list Z :=
  for_range 0 n (fun j m => if guard j then arr_set m (idx j) (val j) else m) m.

Definition scatter2 (n1 n2 : Z) (guard : Z -> Z -> bool) (idx val : Z -> Z -> Z)
    (m : list Z) : list Z :=
  for_range 0 n1 (fun i m => scatter1 n2 (guard i) (idx i) (val i) m) m.

(** A game state for the worked examples: white text and borders, red and
    blue paddles, an empty matrix. *)
Definition exampleGame : Game :=
  mkGame (replicate 1024 (chr "X"))
         (chr "R") (chr "B") (chr "W") (chr "W") (chr "W") (chr "W") (chr "X")
         2 29 14 14 14 14 0 0.

(** The same game over a matrix that holds no colour code yet, as before
    [initGameMatrix] has run. *)
Definition exampleGameUncleared : Game := set_gameMatrix (replicate 1024 0) exampleGame.

(** [getRawPaddleInput], over the [getRawInput] of the linked
    implementation.  The readings are below 2^31 (12 bits on the STM32, a
    clamped [int] in the emulator), so the conversions between [uint32_t]
    and [int] change nothing. *)
Definition getRawPaddleInput (getRawInput : Z -> Z) (whichPaddle : Z) : Z :=
  if whichPaddle =? 0 then
    let leftUp := getRawInput 1 in
    let leftDown := getRawInput 2 in
    if negb (leftUp =? 0) then leftUp else leftDown
  else
    let rightUp := getRawInput 6 in
    let rightDown := getRawInput 7 in
    if negb (rightUp =? 0) then rightUp else rightDown.

(** ** What the renderer and the page see *)

Definition isLatchCall (c : DriverCall) : bool :=
  match c with CallLatchRegister => true | _ => false end.

Definition isRenderCall (c : JsCall) : bool :=
  match c with js_render_frame _ _ _ => true | _ => false end.

(** What a logged call may carry: a display state of 0 or 1; a frame of
    3072 one-bit bytes with a row pair in 0..15 and the display on. *)
Definition wellFormedJsCall (c : JsCall) : Prop :=
  match c with
  | js_set_display_state on => on = 0 \/ on = 1
  | js_render_frame fb active_row_pair display_on =>
      length fb = 3072%nat /\ Forall isBit fb /\
      0 <= active_row_pair <= 15 /\ display_on = 1
  end.

(** The argument of the most recent [js_set_display_state], if any. *)
Definition shownDisplayState (log : list JsCall) : option Z :=
  fold_left (fun shown c =>
               match c with
               | js_set_display_state on => Some on
               | js_render_frame _ _ _ => shown
               end) log None.

Definition isLatchOrPrepareCall (c : DriverCall) : bool :=
  match c with CallLatchRegister | CallPrepareLatch => true | _ => false end.

(** ** Arrays and loops *)

(** Linear arithmetic with division and remainder. *)
Ltac modlia := Z.to_euclidean_division_equations; lia.


Lemma arr_set_length a i v : length (arr_set a i v) = length a.
Proof.
  unfold arr_set. destruct (0 <=? i); [apply length_insert | reflexivity].
Qed.

Lemma arr_get_set a i v j :
  0 <= i < Z.of_nat (length a) ->
  arr_get (arr_set a i v) j = if decide (j = i) then v else arr_get a j.
Proof.
  intros Hi. unfold arr_get, arr_set.
  destruct (Z.leb_spec 0 i) as [_|]; [|lia].
  case_decide as Hji.
  - subst j. destruct (Z.leb_spec 0 i) as [_|]; [|lia].
    rewrite list_lookup_insert_eq by lia. reflexivity.
  - destruct (Z.leb_spec 0 j) as [Hj|]; [|reflexivity].
    rewrite list_lookup_insert_ne by lia. reflexivity.
Qed.

Lemma arr_get_replicate n v i :
  0 <= i < Z.of_nat n -> arr_get (replicate n v) i = v.
Proof.
  intros Hi. unfold arr_get.
  destruct (Z.leb_spec 0 i) as [_|]; [|lia].
  rewrite lookup_replicate_2 by lia. reflexivity.
Qed.

(** Two arrays of the same size with the same cells are the same array. *)
Lemma arr_ext a b :
  length a = length b ->
  (forall j, 0 <= j < Z.of_nat (length a) -> arr_get a j = arr_get b j) ->
  a = b.
Proof.
  intros Hlen Hget. apply list_eq_same_length with (n := length a); try done.
  intros i x y Hi Hx Hy.
  specialize (Hget (Z.of_nat i) ltac:(lia)). unfold arr_get in Hget.
  destruct (Z.leb_spec 0 (Z.of_nat i)) as [_|]; [|lia].
  rewrite Nat2Z.id, Hx, Hy in Hget. exact Hget.
Qed.

Lemma arr_get_map_seq (f : nat -> Z) n i :
  0 <= i < Z.of_nat n -> arr_get (map f (seq 0 n)) i = f (Z.to_nat i).
Proof.
  intros Hi. unfold arr_get.
  destruct (Z.leb_spec 0 i) as [_|]; [|lia].
  change (map f (seq 0 n)) with (f <$> seq 0 n).
  rewrite list_lookup_fmap, lookup_seq_lt by lia. reflexivity.
Qed.

(** The loop rule: an invariant that holds on entry and is kept by each
    turn holds on exit, with the counter at the bound. *)
Lemma for_range_ind {A : Type} (P : Z -> A -> Prop) lo hi body (a : A) :
  lo <= hi ->
  P lo a ->
  (forall x s, lo <= x < hi -> P x s -> P (x + 1) (body x s)) ->
  P hi (for_range lo hi body a).
Proof.
  intros Hle H0 Hstep. unfold for_range.
  assert (Hgen : forall fuel x s,
             fuel = Z.to_nat (hi - x) -> lo <= x <= hi -> P x s ->
             P hi (for_loop fuel x hi body s)).
  { induction fuel as [|fuel IH]; intros x s Hf Hx Hp; simpl.
    - assert (x = hi) by lia. subst x. exact Hp.
    - destruct (Z.ltb_spec x hi) as [Hlt|Hge]; [|lia].
      apply IH; [lia | lia | apply Hstep; [lia | exact Hp]]. }
  apply Hgen; [reflexivity | lia | exact H0].
Qed.

(** C's [%] truncates; on the non-negative operands of this file it is the
    mathematical remainder. *)
Lemma rem_192 a : 0 <= a -> Z.rem a 192 = a `mod` 192.
Proof. intros Ha. apply Z.rem_mod_nonneg; [exact Ha | reflexivity]. Qed.

(** ** The decoder, one column at a time *)

Lemma commitColumn_length st r x fb :
  length (commitColumn st r (r + 16) x fb) = length fb.
Proof. unfold commitColumn. rewrite !arr_set_length. reflexivity. Qed.

Lemma commitColumn_get st r x fb j :
  length fb = 3072%nat -> 0 <= r < 16 -> 0 <= x < 32 ->
  arr_get (commitColumn st r (r + 16) x fb) j =
    if decide (j = ((r + 16) * 32 + x) * 3 + 2) then shiftRegisterGetBit st (5 * 32 + x)
    else if decide (j = ((r + 16) * 32 + x) * 3 + 1) then shiftRegisterGetBit st (4 * 32 + x)
    else if decide (j = ((r + 16) * 32 + x) * 3 + 0) then shiftRegisterGetBit st (3 * 32 + x)
    else if decide (j = (r * 32 + x) * 3 + 2) then shiftRegisterGetBit st (2 * 32 + x)
    else if decide (j = (r * 32 + x) * 3 + 1) then shiftRegisterGetBit st (1 * 32 + x)
    else if decide (j = (r * 32 + x) * 3 + 0) then shiftRegisterGetBit st (0 * 32 + x)
    else arr_get fb j.
Proof.
  intros Hlen Hr Hx. unfold commitColumn, PANEL_PIXEL_WIDTH.
  rewrite !arr_get_set by (rewrite ?arr_set_length, Hlen; lia).
  reflexivity.
Qed.

Lemma commitColumn_step st r n fb0 fb :
  0 <= r < 16 -> 0 <= n < 32 ->
  committedUpTo st r n fb0 fb ->
  committedUpTo st r (n + 1) fb0 (commitColumn st r (r + 16) n fb).
Proof.
  intros Hr Hn [Hlen Hpix]. split.
  - rewrite commitColumn_length. exact Hlen.
  - intros y x ch Hy Hx Hch.
    specialize (Hpix y x ch Hy Hx Hch).
    unfold pixel, PANEL_PIXEL_WIDTH in *.
    rewrite commitColumn_get by assumption.
    assert (Hc : ch = 0 \/ ch = 1 \/ ch = 2) by lia.
    destruct (Z.ltb_spec x (n + 1)), (Z.ltb_spec x n),
             (Z.eqb_spec y r), (Z.eqb_spec y (r + 16));
      simpl in *; try lia;
      destruct Hc as [-> | [-> | ->]];
      repeat case_decide; try lia; subst;
      try reflexivity; try exact Hpix;
      try (f_equal; lia).
Qed.

Lemma commit_committedUpTo st :
  length (latchedFramebufferRgb st) = 3072%nat ->
  committedUpTo st (Z.land (selectedRowPairIndex st) 15) 32
    (latchedFramebufferRgb st)
    (latchedFramebufferRgb (commitShiftRegisterToFramebufferForSelectedRow st)).
Proof.
  intros Hlen. unfold commitShiftRegisterToFramebufferForSelectedRow. simpl.
  set (r := Z.land (selectedRowPairIndex st) 15).
  assert (Hr : 0 <= r < 16).
  { unfold r. change 15 with (Z.ones 4). rewrite Z.land_ones by lia.
    apply Z.mod_pos_bound. reflexivity. }
  apply (for_range_ind (fun n fb => committedUpTo st r n (latchedFramebufferRgb st) fb)).
  - unfold PANEL_PIXEL_WIDTH. lia.
  - split; [exact Hlen|]. intros y x ch Hy Hx Hch.
    destruct (Z.ltb_spec x 0); [lia|]. reflexivity.
  - unfold PANEL_PIXEL_WIDTH. intros x s Hx Hinv.
    apply commitColumn_step; assumption.
Qed.

(** ** Every access stays inside its array *)

Lemma commit_indices_in_range r x ch :
  0 <= r < 16 -> 0 <= x < 32 -> 0 <= ch < 3 ->
  0 <= (r * PANEL_PIXEL_WIDTH + x) * 3 + ch < 3072 /\
  0 <= ((r + 16) * PANEL_PIXEL_WIDTH + x) * 3 + ch < 3072 /\
  0 <= ch * PANEL_PIXEL_WIDTH + x < 192 /\
  0 <= (3 + ch) * PANEL_PIXEL_WIDTH + x < 192.
Proof. unfold PANEL_PIXEL_WIDTH. lia. Qed.

Lemma shift_indices_in_range st i :
  wf st -> 0 <= i < 192 ->
  let o := shiftRegisterOldestIndex st in
  let c := shiftRegisterBitCount st in
  0 <= Z.rem (o + i) PANEL_SHIFT_BITS < 192 /\
  0 <= Z.rem (o + c) PANEL_SHIFT_BITS < 192 /\
  0 <= Z.rem (Z.rem (o + 1) PANEL_SHIFT_BITS + PANEL_SHIFT_BITS - 1) PANEL_SHIFT_BITS < 192.
Proof.
  intros (_ & _ & Ho & Hc) Hi o c. unfold PANEL_SHIFT_BITS.
  rewrite (rem_192 (o + i)), (rem_192 (o + c)), (rem_192 (o + 1)) by lia.
  rewrite rem_192 by modlia. modlia.
Qed.

(** ** Lists read as arrays *)

Lemma arr_get_app a b j :
  0 <= j ->
  arr_get (a ++ b) j =
    if j <? Z.of_nat (length a) then arr_get a j else arr_get b (j - Z.of_nat (length a)).
Proof.
  intros Hj. unfold arr_get.
  destruct (Z.leb_spec 0 j) as [_|]; [|lia].
  destruct (Z.ltb_spec j (Z.of_nat (length a))) as [Hlt|Hge].
  - rewrite lookup_app_l by lia. reflexivity.
  - destruct (Z.leb_spec 0 (j - Z.of_nat (length a))) as [_|]; [|lia].
    rewrite lookup_app_r by lia. do 2 f_equal. lia.
Qed.

Lemma arr_get_drop n a j :
  0 <= j -> arr_get (drop n a) j = arr_get a (j + Z.of_nat n).
Proof.
  intros Hj. unfold arr_get.
  destruct (Z.leb_spec 0 j) as [_|]; [|lia].
  destruct (Z.leb_spec 0 (j + Z.of_nat n)) as [_|]; [|lia].
  rewrite lookup_drop. do 2 f_equal. lia.
Qed.

Lemma arr_get_take n a j :
  0 <= j < Z.of_nat n -> arr_get (take n a) j = arr_get a j.
Proof.
  intros Hj. unfold arr_get.
  destruct (Z.leb_spec 0 j) as [_|]; [|lia].
  rewrite lookup_take_lt by lia. reflexivity.
Qed.

Lemma arr_get_map (f : Z -> Z) a j :
  0 <= j < Z.of_nat (length a) -> arr_get (map f a) j = f (arr_get a j).
Proof.
  intros Hj. unfold arr_get.
  destruct (Z.leb_spec 0 j) as [_|]; [|lia].
  change (map f a) with (f <$> a). rewrite list_lookup_fmap.
  destruct (lookup_lt_is_Some_2 a (Z.to_nat j)) as [v Hv]; [lia|].
  rewrite Hv. reflexivity.
Qed.

Lemma arr_get_plane p payload x :
  0 <= x < 32 -> arr_get (plane p payload) x = arr_get payload (32 * Z.of_nat p + x).
Proof.
  intros Hx. unfold plane.
  rewrite arr_get_take by lia. rewrite arr_get_drop by lia.
  f_equal. lia.
Qed.

Lemma lastn_length {A : Type} n (l : list A) :
  length (lastn n l) = Nat.min n (length l).
Proof. unfold lastn. rewrite length_drop. lia. Qed.

Lemma lastn_all {A : Type} n (l : list A) :
  (length l <= n)%nat -> lastn n l = l.
Proof.
  intros H. unfold lastn. replace (length l - n)%nat with 0%nat by lia.
  reflexivity.
Qed.

Lemma lastn_app_r {A : Type} n (s t : list A) :
  (n <= length t)%nat -> lastn n (s ++ t) = lastn n t.
Proof.
  intros H. unfold lastn. rewrite length_app.
  replace (length s + length t - n)%nat with (length s + (length t - n))%nat by lia.
  rewrite drop_app_add. reflexivity.
Qed.

Lemma lastn_app_lastn {A : Type} n (s t : list A) :
  lastn n (lastn n s ++ t) = lastn n (s ++ t).
Proof.
  destruct (Nat.le_gt_cases (length s) n) as [Hle|Hgt].
  - rewrite (lastn_all n s) by exact Hle. reflexivity.
  - unfold lastn at 1 3. rewrite !length_app, lastn_length.
    replace (Nat.min n (length s) + length t - n)%nat with (length t) by lia.
    unfold lastn.
    replace (length s + length t - n)%nat with ((length s - n) + length t)%nat by lia.
    rewrite <- drop_drop. rewrite (drop_app_le s t (length s - n)) by lia.
    reflexivity.
Qed.

(** ** The shift register as a queue of at most 192 bits *)

(** Reduce the field reads of an updated state, and nothing else. *)
Ltac fields :=
  cbn [latchedFramebufferRgb shiftRegisterBits shiftRegisterOldestIndex
       shiftRegisterBitCount selectedRowPairIndex latchLineIsLow
       displayIsEnabled jsLog set_shiftRegister set_latchedFramebufferRgb
       set_selectedRowPairIndex set_latch js_call] in *.

Lemma bitOf_01 b : bitOf b = 0 \/ bitOf b = 1.
Proof. unfold bitOf. destruct (b =? 0); [left | right]; reflexivity. Qed.

Lemma bitOf_idem b : bitOf (bitOf b) = bitOf b.
Proof. unfold bitOf. destruct (b =? 0); reflexivity. Qed.

Lemma storedBits_length st :
  length (storedBits st) = Z.to_nat (shiftRegisterBitCount st).
Proof. unfold storedBits. rewrite length_map, length_seq. reflexivity. Qed.

Lemma arr_get_storedBits st j :
  0 <= j < shiftRegisterBitCount st ->
  arr_get (storedBits st) j =
    arr_get (shiftRegisterBits st) ((shiftRegisterOldestIndex st + j) `mod` 192).
Proof.
  intros Hj. unfold storedBits. rewrite arr_get_map_seq by lia.
  unfold PANEL_SHIFT_BITS. do 2 f_equal. lia.
Qed.

(** Pushing appends the bit and, on a full register, drops the oldest. *)
Lemma storedBits_PushBit st b :
  wf st ->
  storedBits (PushBit b st) = lastn 192 (storedBits st ++ [bitOf b]).
Proof.
  intros (Hfb & Hbits & Ho & Hc).
  apply arr_ext.
  - rewrite lastn_length, length_app, !storedBits_length. cbn [length].
    unfold PushBit, shiftRegisterPushBit, PANEL_SHIFT_BITS.
    destruct (Z.ltb_spec (shiftRegisterBitCount st) 192); fields; lia.
  - intros j. rewrite storedBits_length. intros Hj.
    rewrite arr_get_storedBits by lia.
    unfold lastn. rewrite arr_get_drop by lia.
    rewrite length_app, storedBits_length. cbn [length].
    rewrite arr_get_app by lia. rewrite storedBits_length.
    revert Hj. unfold PushBit, shiftRegisterPushBit, PANEL_SHIFT_BITS.
    fold (bitOf b). fold (bitOf (bitOf b)). rewrite bitOf_idem.
    destruct (Z.ltb_spec (shiftRegisterBitCount st) 192) as [Hlt|Hge]; fields; intros Hj.
    + rewrite rem_192 by lia.
      rewrite arr_get_set by (rewrite Hbits; apply Z.mod_pos_bound; lia).
      replace (Z.to_nat (shiftRegisterBitCount st) + 1 - 192)%nat with 0%nat by lia.
      rewrite Z.add_0_r.
      destruct (Z.ltb_spec j (Z.of_nat (Z.to_nat (shiftRegisterBitCount st)))) as [Hjc|Hjc].
      * rewrite arr_get_storedBits by lia.
        case_decide as Heq; [|reflexivity].
        exfalso. modlia.
      * assert (j = shiftRegisterBitCount st) by lia. subst j.
        case_decide; [|congruence].
        replace (shiftRegisterBitCount st - Z.of_nat (Z.to_nat (shiftRegisterBitCount st)))
          with 0 by lia.
        reflexivity.
    + assert (Hfull : shiftRegisterBitCount st = 192) by lia.
      rewrite Hfull in *.
      rewrite !rem_192 by modlia.
      unfold PANEL_SHIFT_BITS.
      rewrite arr_get_set by (rewrite Hbits; apply Z.mod_pos_bound; lia).
      change (Z.to_nat 192 + 1 - 192)%nat with 1%nat.
      change (Z.of_nat (Z.to_nat 192)) with 192.
      destruct (Z.ltb_spec (j + Z.of_nat 1) 192) as [Hjc|Hjc].
      * rewrite arr_get_storedBits by lia.
        case_decide as Heq.
        -- exfalso. modlia.
        -- f_equal. modlia.
      * assert (j = 191) by lia. subst j.
        case_decide as Heq.
        -- reflexivity.
        -- exfalso. apply Heq. modlia.
Qed.

Lemma PushBit_frame b st :
  latchedFramebufferRgb (PushBit b st) = latchedFramebufferRgb st /\
  selectedRowPairIndex (PushBit b st) = selectedRowPairIndex st /\
  latchLineIsLow (PushBit b st) = latchLineIsLow st /\
  displayIsEnabled (PushBit b st) = displayIsEnabled st /\
  jsLog (PushBit b st) = jsLog st.
Proof.
  unfold PushBit, shiftRegisterPushBit.
  destruct (shiftRegisterBitCount st <? PANEL_SHIFT_BITS); fields; auto.
Qed.

Lemma PushBit_count b st :
  shiftRegisterBitCount (PushBit b st) =
    if shiftRegisterBitCount st <? 192 then shiftRegisterBitCount st + 1
    else shiftRegisterBitCount st.
Proof.
  unfold PushBit, shiftRegisterPushBit, PANEL_SHIFT_BITS.
  destruct (shiftRegisterBitCount st <? 192); reflexivity.
Qed.

Lemma PushBit_wf b st : wf st -> wf (PushBit b st).
Proof.
  intros (Hfb & Hbits & Ho & Hc).
  destruct (PushBit_frame b st) as (Hfb' & _).
  pose proof (PushBit_count b st) as Hcount.
  unfold wf. rewrite Hfb', Hcount. split; [exact Hfb|].
  unfold PushBit, shiftRegisterPushBit, PANEL_SHIFT_BITS.
  destruct (Z.ltb_spec (shiftRegisterBitCount st) 192); fields;
    rewrite arr_set_length; repeat split; try assumption; try lia.
  - rewrite rem_192 by lia. modlia.
  - rewrite rem_192 by lia. modlia.
Qed.

Lemma pushBits_app l1 l2 st : pushBits (l1 ++ l2) st = pushBits l2 (pushBits l1 st).
Proof. unfold pushBits. apply fold_left_app. Qed.

Lemma pushBits_wf l : forall st, wf st -> wf (pushBits l st).
Proof.
  induction l as [|b l IH]; intros st Hwf; [exact Hwf|].
  apply IH, PushBit_wf, Hwf.
Qed.

Lemma pushBits_frame l : forall st,
  latchedFramebufferRgb (pushBits l st) = latchedFramebufferRgb st /\
  selectedRowPairIndex (pushBits l st) = selectedRowPairIndex st /\
  jsLog (pushBits l st) = jsLog st.
Proof.
  induction l as [|b l IH]; intros st; [auto|].
  destruct (IH (PushBit b st)) as (H1 & H2 & H3).
  destruct (PushBit_frame b st) as (F1 & F2 & _ & _ & F5).
  change (pushBits (b :: l) st) with (pushBits l (PushBit b st)).
  rewrite H1, H2, H3. auto.
Qed.

(** After any run of pushes the register holds the last 192 bits of what it
    held followed by what was pushed. *)
Lemma storedBits_pushBits l : forall st,
  wf st ->
  storedBits (pushBits l st) = lastn 192 (storedBits st ++ map bitOf l).
Proof.
  induction l as [|b l IH]; intros st Hwf.
  - simpl. rewrite app_nil_r, lastn_all; [reflexivity|].
    rewrite storedBits_length. destruct Hwf as (_ & _ & _ & Hc). lia.
  - change (pushBits (b :: l) st) with (pushBits l (PushBit b st)).
    rewrite IH by (apply PushBit_wf, Hwf).
    rewrite storedBits_PushBit by exact Hwf.
    rewrite lastn_app_lastn. rewrite <- app_assoc. reflexivity.
Qed.

Lemma pushBits_count l st :
  wf st ->
  shiftRegisterBitCount (pushBits l st) =
    Z.min 192 (shiftRegisterBitCount st + Z.of_nat (length l)).
Proof.
  intros Hwf.
  pose proof (storedBits_length (pushBits l st)) as Hlen.
  rewrite storedBits_pushBits in Hlen by exact Hwf.
  rewrite lastn_length, length_app, length_map, storedBits_length in Hlen.
  destruct (pushBits_wf l st Hwf) as (_ & _ & _ & Hc').
  destruct Hwf as (_ & _ & _ & Hc). lia.
Qed.

(** On a full register, logical index [i] reads the [i]-th stored bit. *)
Lemma shiftRegisterGetBit_stored st i :
  0 <= shiftRegisterOldestIndex st ->
  shiftRegisterBitCount st = 192 ->
  0 <= i < 192 ->
  shiftRegisterGetBit st i = Z.land (arr_get (storedBits st) i) 1.
Proof.
  intros Ho Hc Hi. unfold shiftRegisterGetBit.
  rewrite arr_get_storedBits by lia.
  unfold PANEL_SHIFT_BITS. rewrite rem_192 by lia. reflexivity.
Qed.

Lemma land_bitOf b : Z.land (bitOf b) 1 = bitOf b.
Proof. destruct (bitOf_01 b) as [-> | ->]; reflexivity. Qed.

Lemma logicalBits_length st : length (logicalBits st) = 192%nat.
Proof. unfold logicalBits. rewrite length_map, length_seq. reflexivity. Qed.

Lemma arr_get_logicalBits st i :
  0 <= i < 192 -> arr_get (logicalBits st) i = shiftRegisterGetBit st i.
Proof.
  intros Hi. unfold logicalBits. rewrite arr_get_map_seq by (unfold PANEL_SHIFT_BITS; lia).
  f_equal. lia.
Qed.

(** After at least 192 pushes the logical bits are the last 192 pushed. *)
Lemma logicalBits_pushBits l st :
  wf st -> (192 <= length l)%nat ->
  logicalBits (pushBits l st) = lastn 192 (map bitOf l).
Proof.
  intros Hwf Hl.
  pose proof (pushBits_wf l st Hwf) as (_ & _ & Ho' & _).
  pose proof (pushBits_count l st Hwf) as Hc'.
  pose proof (storedBits_pushBits l st Hwf) as Hs.
  rewrite lastn_app_r in Hs by (rewrite length_map; exact Hl).
  destruct Hwf as (_ & _ & _ & Hc).
  apply arr_ext.
  - rewrite logicalBits_length, lastn_length, length_map. lia.
  - intros j. rewrite logicalBits_length. intros Hj.
    rewrite arr_get_logicalBits by lia.
    rewrite shiftRegisterGetBit_stored by lia.
    rewrite Hs. unfold lastn. rewrite arr_get_drop by lia.
    rewrite arr_get_map by (rewrite length_map in *; lia).
    apply land_bitOf.
Qed.

(** ** The decoder as a whole *)

Lemma rowPair_range r : 0 <= Z.land r 15 < 16.
Proof.
  change 15 with (Z.ones 4). rewrite Z.land_ones by lia.
  apply Z.mod_pos_bound. reflexivity.
Qed.

Lemma arr_get_imap (f : nat -> Z -> Z) a j :
  0 <= j < Z.of_nat (length a) ->
  arr_get (imap f a) j = f (Z.to_nat j) (arr_get a j).
Proof.
  intros Hj. unfold arr_get.
  destruct (Z.leb_spec 0 j) as [_|]; [|lia].
  rewrite list_lookup_imap.
  destruct (lookup_lt_is_Some_2 a (Z.to_nat j)) as [v Hv]; [lia|].
  rewrite Hv. reflexivity.
Qed.

Lemma arr_get_spec_decodeRowPair r payload fb j :
  0 <= j < Z.of_nat (length fb) ->
  arr_get (spec_decodeRowPair r payload fb) j =
    spec_decodePixel r payload (arr_get fb j) (j / 96) ((j / 3) `mod` 32) (j `mod` 3).
Proof.
  intros Hj. unfold spec_decodeRowPair. rewrite arr_get_imap by exact Hj.
  cbv zeta. rewrite Z2Nat.id by lia. reflexivity.
Qed.

Lemma pixel_index j :
  0 <= j < 3072 ->
  j = (j / 96 * 32 + (j / 3) `mod` 32) * 3 + j `mod` 3 /\
  0 <= j / 96 < 32 /\ 0 <= (j / 3) `mod` 32 < 32 /\ 0 <= j `mod` 3 < 3.
Proof. intros Hj. modlia. Qed.

(** The latch changes the flags and the log, then commits: the framebuffer
    it leaves is the committed one. *)
Lemma LatchRegister_framebuffer st :
  latchedFramebufferRgb (LatchRegister st) =
  latchedFramebufferRgb (commitShiftRegisterToFramebufferForSelectedRow st).
Proof. reflexivity. Qed.

Lemma LatchRegister_pixel st y x ch :
  length (latchedFramebufferRgb st) = 3072%nat ->
  0 <= y < 32 -> 0 <= x < 32 -> 0 <= ch < 3 ->
  pixel (latchedFramebufferRgb (LatchRegister st)) y x ch =
    if y =? Z.land (selectedRowPairIndex st) 15
    then shiftRegisterGetBit st (ch * 32 + x)
    else if y =? Z.land (selectedRowPairIndex st) 15 + 16
    then shiftRegisterGetBit st ((3 + ch) * 32 + x)
    else pixel (latchedFramebufferRgb st) y x ch.
Proof.
  intros Hlen Hy Hx Hch. rewrite LatchRegister_framebuffer.
  destruct (commit_committedUpTo st Hlen) as [_ Hpix].
  rewrite (Hpix y x ch Hy Hx Hch).
  destruct (Z.ltb_spec x 32); [|lia]. reflexivity.
Qed.

Lemma LatchRegister_length st :
  length (latchedFramebufferRgb st) = 3072%nat ->
  length (latchedFramebufferRgb (LatchRegister st)) = 3072%nat.
Proof.
  intros Hlen. rewrite LatchRegister_framebuffer.
  destruct (commit_committedUpTo st Hlen) as [Hlen' _]. exact Hlen'.
Qed.

(** The code's decoder computes the decode rule of the design on the
    logical bits. *)
Lemma LatchRegister_refines_spec st :
  length (latchedFramebufferRgb st) = 3072%nat ->
  latchedFramebufferRgb (LatchRegister st) =
    spec_decodeRowPair (Z.land (selectedRowPairIndex st) 15) (logicalBits st)
                       (latchedFramebufferRgb st).
Proof.
  intros Hlen. apply arr_ext.
  - rewrite LatchRegister_length by exact Hlen.
    unfold spec_decodeRowPair. rewrite length_imap, Hlen. reflexivity.
  - rewrite LatchRegister_length by exact Hlen. intros j Hj.
    rewrite arr_get_spec_decodeRowPair by lia.
    destruct (pixel_index j ltac:(lia)) as (Hidx & Hy & Hx & Hch).
    set (y := j / 96) in *. set (x := (j / 3) `mod` 32) in *. set (ch := j `mod` 3) in *.
    pose proof (LatchRegister_pixel st y x ch Hlen Hy Hx Hch) as Hpix.
    unfold pixel, PANEL_PIXEL_WIDTH in Hpix. rewrite <- Hidx in Hpix.
    rewrite Hpix. unfold spec_decodePixel.
    destruct (y =? Z.land (selectedRowPairIndex st) 15).
    + rewrite arr_get_plane by lia. rewrite arr_get_logicalBits by lia.
      f_equal. lia.
    + destruct (y =? Z.land (selectedRowPairIndex st) 15 + 16); [|reflexivity].
      rewrite arr_get_plane by lia. rewrite arr_get_logicalBits by lia.
      f_equal. lia.
Qed.

Lemma planes_concat (l : list Z) :
  length l = 192%nat ->
  l = plane 0 l ++ plane 1 l ++ plane 2 l ++ plane 3 l ++ plane 4 l ++ plane 5 l.
Proof.
  intros Hlen. unfold plane.
  assert (Hcut : forall k, drop k l = take 32 (drop k l) ++ drop (k + 32) l).
  { intros k. rewrite <- drop_drop. symmetry. apply take_drop. }
  change (32 * 0)%nat with 0%nat. change (32 * 1)%nat with (0 + 32)%nat.
  change (32 * 2)%nat with (0 + 32 + 32)%nat.
  change (32 * 3)%nat with (0 + 32 + 32 + 32)%nat.
  change (32 * 4)%nat with (0 + 32 + 32 + 32 + 32)%nat.
  change (32 * 5)%nat with (0 + 32 + 32 + 32 + 32 + 32)%nat.
  rewrite <- (app_nil_r (take 32 (drop (0 + 32 + 32 + 32 + 32 + 32) l))).
  rewrite <- (drop_ge l (0 + 32 + 32 + 32 + 32 + 32 + 32)) by (rewrite Hlen; cbn; lia).
  rewrite <- !Hcut. reflexivity.
Qed.

(** ** The frame commit decoder: decode rule, frame and idempotence *)

(** C1.  For every well-formed state, with [r] the selected row address
    (the low four bits of [selectedRowPairIndex], so [0 <= r <= 15]),
    [LatchRegister] reads the 192 logical bits as six consecutive planes of
    32 bits, topR, topG, topB, bottomR, bottomG, bottomB, and for every
    column [x] below 32 leaves in row [r] the bits of planes 0, 1, 2 at
    offset [x] and in row [r + 16] the bits of planes 3, 4, 5 at offset
    [x].  The planes are in push order: when the state was reached by
    pushing a payload of 192 bits, the logical bits are that payload. *)
Theorem LatchRegister_decodes_six_planes (st : Panel) (x : Z) :
  wf st -> 0 <= x < 32 ->
  let r := Z.land (selectedRowPairIndex st) 15 in
  let bits := logicalBits st in
  let fb := latchedFramebufferRgb (LatchRegister st) in
  0 <= r <= 15 /\
  length bits = 192%nat /\
  (forall i, 0 <= i < 192 -> arr_get bits i = shiftRegisterGetBit st i) /\
  bits = plane 0 bits ++ plane 1 bits ++ plane 2 bits ++
         plane 3 bits ++ plane 4 bits ++ plane 5 bits /\
  (forall st0 payload, wf st0 -> length payload = 192%nat ->
     st = pushBits payload st0 -> bits = map bitOf payload) /\
  pixel fb r x 0 = arr_get (plane 0 bits) x /\
  pixel fb r x 1 = arr_get (plane 1 bits) x /\
  pixel fb r x 2 = arr_get (plane 2 bits) x /\
  pixel fb (r + 16) x 0 = arr_get (plane 3 bits) x /\
  pixel fb (r + 16) x 1 = arr_get (plane 4 bits) x /\
  pixel fb (r + 16) x 2 = arr_get (plane 5 bits) x.
Proof.
  intros Hwf Hx r bits fb.
  pose proof (rowPair_range (selectedRowPairIndex st)) as Hr. fold r in Hr.
  destruct Hwf as (Hfb & _).
  assert (Htop : forall ch, 0 <= ch < 3 ->
            pixel fb r x ch = arr_get (plane (Z.to_nat ch) bits) x).
  { intros ch Hch. unfold fb.
    rewrite LatchRegister_pixel by (try assumption; lia). fold r.
    rewrite Z.eqb_refl, arr_get_plane by lia.
    unfold bits. rewrite arr_get_logicalBits by lia. f_equal. lia. }
  assert (Hbot : forall ch, 0 <= ch < 3 ->
            pixel fb (r + 16) x ch = arr_get (plane (Z.to_nat (3 + ch)) bits) x).
  { intros ch Hch. unfold fb.
    rewrite LatchRegister_pixel by (try assumption; lia). fold r.
    destruct (Z.eqb_spec (r + 16) r) as [|_]; [lia|].
    rewrite Z.eqb_refl, arr_get_plane by lia.
    unfold bits. rewrite arr_get_logicalBits by lia. f_equal. lia. }
  split; [lia|]. split; [apply logicalBits_length|].
  split; [intros i Hi; apply arr_get_logicalBits, Hi|].
  split; [apply planes_concat, logicalBits_length|].
  split.
  { intros st0 payload Hwf0 Hlen ->. unfold bits.
    rewrite logicalBits_pushBits by (try assumption; lia).
    apply lastn_all. rewrite length_map. lia. }
  repeat split.
  - apply (Htop 0); lia.
  - apply (Htop 1); lia.
  - apply (Htop 2); lia.
  - apply (Hbot 0); lia.
  - apply (Hbot 1); lia.
  - apply (Hbot 2); lia.
Qed.

(** C5.  For every well-formed state, with [r] the selected row address, a
    [LatchRegister] call overwrites rows [r] and [r + 16] of the framebuffer
    with bits of the shift register (whatever those rows held) and leaves
    every pixel of every other row as it was; the framebuffer keeps its
    size. *)
Theorem LatchRegister_overwrites_exactly_the_row_pair (st : Panel) (y x ch : Z) :
  wf st -> 0 <= y < 32 -> 0 <= x < 32 -> 0 <= ch < 3 ->
  let r := Z.land (selectedRowPairIndex st) 15 in
  let fb := latchedFramebufferRgb (LatchRegister st) in
  length fb = length (latchedFramebufferRgb st) /\
  (y = r -> pixel fb y x ch = shiftRegisterGetBit st (ch * 32 + x)) /\
  (y = r + 16 -> pixel fb y x ch = shiftRegisterGetBit st ((3 + ch) * 32 + x)) /\
  (y <> r -> y <> r + 16 ->
     pixel fb y x ch = pixel (latchedFramebufferRgb st) y x ch).
Proof.
  intros (Hfb & _) Hy Hx Hch r fb.
  pose proof (rowPair_range (selectedRowPairIndex st)) as Hr. fold r in Hr.
  pose proof (LatchRegister_pixel st y x ch Hfb Hy Hx Hch) as Hpix.
  fold r fb in Hpix.
  split; [unfold fb; rewrite LatchRegister_length, Hfb by exact Hfb; reflexivity|].
  repeat split.
  - intros ->. rewrite Hpix, Z.eqb_refl. reflexivity.
  - intros ->. rewrite Hpix, Z.eqb_refl.
    destruct (Z.eqb_spec (r + 16) r) as [|_]; [lia|]. reflexivity.
  - intros Hne1 Hne2. rewrite Hpix.
    destruct (Z.eqb_spec y r) as [|_]; [contradiction|].
    destruct (Z.eqb_spec y (r + 16)) as [|_]; [contradiction|]. reflexivity.
Qed.

Lemma spec_decodeRowPair_idem r payload fb :
  spec_decodeRowPair r payload (spec_decodeRowPair r payload fb) =
  spec_decodeRowPair r payload fb.
Proof.
  apply arr_ext.
  - unfold spec_decodeRowPair. rewrite !length_imap. reflexivity.
  - intros j Hj. unfold spec_decodeRowPair in Hj. rewrite !length_imap in Hj.
    rewrite arr_get_spec_decodeRowPair
      by (unfold spec_decodeRowPair; rewrite length_imap; exact Hj).
    rewrite arr_get_spec_decodeRowPair by exact Hj.
    unfold spec_decodePixel.
    destruct (j / 96 =? r); [reflexivity|].
    destruct (j / 96 =? r + 16); reflexivity.
Qed.

(** C7.  For every well-formed state, a second [LatchRegister] right after
    a first one (no push and no row selection in between, with or without
    the [PrepareLatch] the driver issues) leaves the framebuffer equal to
    what the first one produced. *)
Theorem LatchRegister_idempotent (st : Panel) :
  wf st ->
  latchedFramebufferRgb (LatchRegister (LatchRegister st)) =
    latchedFramebufferRgb (LatchRegister st) /\
  latchedFramebufferRgb (LatchRegister (PrepareLatch (LatchRegister st))) =
    latchedFramebufferRgb (LatchRegister st).
Proof.
  intros (Hfb & _).
  pose proof (LatchRegister_length st Hfb) as Hfb'.
  split.
  - rewrite (LatchRegister_refines_spec (LatchRegister st)) by exact Hfb'.
    change (selectedRowPairIndex (LatchRegister st)) with (selectedRowPairIndex st).
    change (logicalBits (LatchRegister st)) with (logicalBits st).
    rewrite (LatchRegister_refines_spec st) by exact Hfb.
    apply spec_decodeRowPair_idem.
  - rewrite (LatchRegister_refines_spec (PrepareLatch (LatchRegister st))) by exact Hfb'.
    change (selectedRowPairIndex (PrepareLatch (LatchRegister st)))
      with (selectedRowPairIndex st).
    change (logicalBits (PrepareLatch (LatchRegister st))) with (logicalBits st).
    change (latchedFramebufferRgb (PrepareLatch (LatchRegister st)))
      with (latchedFramebufferRgb (LatchRegister st)).
    rewrite (LatchRegister_refines_spec st) by exact Hfb.
    apply spec_decodeRowPair_idem.
Qed.

(** The decode rule of the design, read pixel by pixel. *)
Lemma pixel_spec_decodeRowPair r payload fb y x ch :
  length fb = 3072%nat -> 0 <= y < 32 -> 0 <= x < 32 -> 0 <= ch < 3 ->
  pixel (spec_decodeRowPair r payload fb) y x ch =
    spec_decodePixel r payload (pixel fb y x ch) y x ch.
Proof.
  intros Hlen Hy Hx Hch. unfold pixel, PANEL_PIXEL_WIDTH.
  rewrite arr_get_spec_decodeRowPair by lia.
  f_equal; modlia.
Qed.

(** After [192 + k] pushes, logical index [i] reads push number [k + i]. *)
Lemma shiftRegisterGetBit_pushBits k st pushed i :
  wf st -> length pushed = (192 + k)%nat -> 0 <= i < 192 ->
  shiftRegisterGetBit (pushBits pushed st) i = bitOf (arr_get pushed (Z.of_nat k + i)).
Proof.
  intros Hwf Hlen Hi.
  rewrite <- arr_get_logicalBits by exact Hi.
  rewrite logicalBits_pushBits by (try assumption; lia).
  unfold lastn. rewrite arr_get_drop by lia.
  rewrite length_map, Hlen.
  replace (192 + k - 192)%nat with k by lia.
  rewrite arr_get_map by lia. f_equal. f_equal. lia.
Qed.

(** C3.  For every [k], every well-formed state and every sequence of
    [192 + k] pushed bits followed by [LatchRegister], the committed
    framebuffer is the direct decode, at the selected row address, of the
    final 192 pushed bits alone: it depends neither on [k], nor on the first
    [k] bits, nor on what the shift register held before.  Pixel by pixel:
    rows [r] and [r + 16] hold, in channel [ch] of column [x], the bits of
    pushes number [k + 32 ch + x] and [k + 32 (3 + ch) + x]. *)
Theorem overflow_decodes_final_192_bits (k : nat) (st : Panel) (pushed : list Z) :
  wf st -> length pushed = (192 + k)%nat ->
  let r := Z.land (selectedRowPairIndex st) 15 in
  let fb := latchedFramebufferRgb (LatchRegister (pushBits pushed st)) in
  fb = spec_decodeRowPair r (map bitOf (drop k pushed)) (latchedFramebufferRgb st) /\
  (forall x ch, 0 <= x < 32 -> 0 <= ch < 3 ->
     pixel fb r x ch = bitOf (arr_get pushed (Z.of_nat k + (ch * 32 + x))) /\
     pixel fb (r + 16) x ch = bitOf (arr_get pushed (Z.of_nat k + ((3 + ch) * 32 + x)))).
Proof.
  intros Hwf Hlen r fb.
  destruct (pushBits_frame pushed st) as (Hfb & Hrow & _).
  assert (Hlen' : length (latchedFramebufferRgb (pushBits pushed st)) = 3072%nat)
    by (rewrite Hfb; apply Hwf).
  pose proof (rowPair_range (selectedRowPairIndex st)) as Hr. fold r in Hr.
  split.
  - unfold fb. rewrite LatchRegister_refines_spec by exact Hlen'.
    rewrite Hfb, Hrow, logicalBits_pushBits by (try assumption; lia).
    fold r. f_equal. unfold lastn. rewrite length_map, Hlen.
    replace (192 + k - 192)%nat with k by lia.
    change (map bitOf pushed) with (bitOf <$> pushed).
    change (map bitOf (drop k pushed)) with (bitOf <$> drop k pushed).
    symmetry. apply fmap_drop.
  - intros x ch Hx Hch. unfold fb. split.
    + rewrite LatchRegister_pixel by (try assumption; lia).
      rewrite Hrow. fold r. rewrite Z.eqb_refl.
      apply shiftRegisterGetBit_pushBits; (assumption || lia).
    + rewrite LatchRegister_pixel by (try assumption; lia).
      rewrite Hrow. fold r.
      destruct (Z.eqb_spec (r + 16) r) as [|_]; [lia|]. rewrite Z.eqb_refl.
      apply shiftRegisterGetBit_pushBits; (assumption || lia).
Qed.

(** ** Setup, and what every call keeps *)

Lemma setupPanel_wf st0 : wf (setupPanel st0).
Proof. unfold wf. repeat split; try reflexivity; vm_compute; discriminate. Qed.

Lemma setupPanel_storedBits st0 : storedBits (setupPanel st0) = replicate 192 0.
Proof. reflexivity. Qed.

Lemma ClearRow_pushBits row st :
  ClearRow row st = pushBits (replicate 192 0) (SelectRow row st).
Proof.
  unfold ClearRow.
  apply (for_range_ind
           (fun n s => s = pushBits (replicate (Z.to_nat n) 0) (SelectRow row st))).
  - unfold PANEL_SHIFT_BITS. lia.
  - reflexivity.
  - intros x s Hx ->.
    replace (Z.to_nat (x + 1)) with (S (Z.to_nat x)) by lia.
    rewrite replicate_S_end, pushBits_app. reflexivity.
Qed.

Lemma SelectRow_wf row st : wf st -> wf (SelectRow row st).
Proof. intros H. exact H. Qed.

Lemma PrepareLatch_wf st : wf st -> wf (PrepareLatch st).
Proof. intros H. exact H. Qed.

Lemma LatchRegister_wf st : wf st -> wf (LatchRegister st).
Proof.
  intros (Hfb & Hrest). split; [apply LatchRegister_length, Hfb | exact Hrest].
Qed.

Lemma ClearRow_wf row st : wf st -> wf (ClearRow row st).
Proof.
  intros H. rewrite ClearRow_pushBits. apply pushBits_wf, SelectRow_wf, H.
Qed.

Lemma call_wf c st : wf st -> wf (call c st).
Proof.
  destruct c; cbn [call];
    auto using SelectRow_wf, PushBit_wf, PrepareLatch_wf, LatchRegister_wf, ClearRow_wf.
Qed.

Lemma run_wf calls : forall st, wf st -> wf (run calls st).
Proof.
  induction calls as [|c calls IH]; intros st H; [exact H|].
  apply IH, call_wf, H.
Qed.

Lemma call_count_full c st :
  wf st -> shiftRegisterBitCount st = 192 -> shiftRegisterBitCount (call c st) = 192.
Proof.
  intros Hwf Hfull. destruct c; cbn [call]; try exact Hfull.
  - rewrite PushBit_count, Hfull. reflexivity.
  - rewrite ClearRow_pushBits, pushBits_count by apply SelectRow_wf, Hwf.
    change (shiftRegisterBitCount (SelectRow row st)) with (shiftRegisterBitCount st).
    rewrite Hfull. lia.
Qed.

Lemma run_count_full calls : forall st,
  wf st -> shiftRegisterBitCount st = 192 -> shiftRegisterBitCount (run calls st) = 192.
Proof.
  induction calls as [|c calls IH]; intros st Hwf Hfull; [exact Hfull|].
  apply IH; [apply call_wf, Hwf | apply call_count_full; assumption].
Qed.

(** Reading the register after any run of pushes on a fresh panel. *)
Lemma shiftRegisterGetBit_after_pushes st0 pushed i :
  0 <= i < 192 ->
  shiftRegisterGetBit (pushBits pushed (setupPanel st0)) i =
    if i + Z.of_nat (length pushed) <? 192 then 0
    else bitOf (arr_get pushed (i + Z.of_nat (length pushed) - 192)).
Proof.
  intros Hi.
  pose proof (setupPanel_wf st0) as Hwf.
  pose proof (pushBits_wf pushed _ Hwf) as (_ & _ & Ho & _).
  pose proof (pushBits_count pushed _ Hwf) as Hc.
  change (shiftRegisterBitCount (setupPanel st0)) with 192 in Hc.
  rewrite shiftRegisterGetBit_stored by lia.
  rewrite storedBits_pushBits, setupPanel_storedBits by exact Hwf.
  unfold lastn. rewrite arr_get_drop by lia.
  rewrite length_app, length_replicate, length_map.
  replace (Z.of_nat (192 + length pushed - 192)) with (Z.of_nat (length pushed)) by lia.
  rewrite arr_get_app by lia. rewrite length_replicate.
  change (Z.of_nat 192) with 192.
  destruct (Z.ltb_spec (i + Z.of_nat (length pushed)) 192) as [Hlt|Hge].
  - rewrite arr_get_replicate by lia. reflexivity.
  - rewrite arr_get_map by lia. apply land_bitOf.
Qed.

(** C2.  For every sequence of pushes on a freshly set-up panel, with
    C = 192: [get(C - 1)] is the bit of the most recent push, and [get(0)] is
    the bit pushed C pushes ago (the most recent push being one push ago),
    or the initial zero when fewer than C pushes have been made.  The bit of
    [PushBit(onoff)] is 1 when [onoff] is not 0 and 0 otherwise. *)
Theorem get_newest_and_oldest_after_pushes (st0 : Panel) (earlier : list Z) (newest : Z) :
  let pushed := earlier ++ [newest] in
  let n := Z.of_nat (length pushed) in
  let st := pushBits pushed (setupPanel st0) in
  shiftRegisterGetBit st (PANEL_SHIFT_BITS - 1) = bitOf newest /\
  shiftRegisterGetBit st 0 =
    (if n <? PANEL_SHIFT_BITS then 0 else bitOf (arr_get pushed (n - PANEL_SHIFT_BITS))) /\
  shiftRegisterGetBit (pushBits [] (setupPanel st0)) 0 = 0.
Proof.
  intros pushed n st. unfold PANEL_SHIFT_BITS. split; [|split].
  - unfold st. rewrite shiftRegisterGetBit_after_pushes by lia. fold n.
    assert (Hn : n = Z.of_nat (length earlier) + 1).
    { unfold n, pushed. rewrite length_app. simpl. lia. }
    destruct (Z.ltb_spec (192 - 1 + n) 192); [lia|].
    f_equal. unfold pushed. rewrite arr_get_app by lia.
    destruct (Z.ltb_spec (192 - 1 + n - 192) (Z.of_nat (length earlier))); [lia|].
    replace (192 - 1 + n - 192 - Z.of_nat (length earlier)) with 0 by lia.
    reflexivity.
  - unfold st. rewrite shiftRegisterGetBit_after_pushes by lia. reflexivity.
  - rewrite shiftRegisterGetBit_after_pushes by lia. reflexivity.
Qed.

(** C6.  After [setupPanel] the shift register holds exactly C = 192 valid
    bits, all zero; after any sequence of [SelectRow], [PushBit],
    [PrepareLatch], [LatchRegister] and [ClearRow] calls it still holds
    exactly 192, so it is never empty.  Reading a bit is a pure function of
    the state and changes nothing. *)
Theorem buffer_always_holds_192_bits (st0 : Panel) (calls : list DriverCall) :
  let fresh := setupPanel st0 in
  let st := run calls fresh in
  shiftRegisterBitCount fresh = PANEL_SHIFT_BITS /\
  storedBits fresh = replicate 192 0 /\
  (forall i, 0 <= i < PANEL_SHIFT_BITS -> shiftRegisterGetBit fresh i = 0) /\
  shiftRegisterBitCount st = PANEL_SHIFT_BITS /\
  length (storedBits st) = 192%nat /\
  length (shiftRegisterBits st) = 192%nat /\
  shiftRegisterBitCount st <> 0.
Proof.
  intros fresh st.
  pose proof (setupPanel_wf st0) as Hwf. fold fresh in Hwf.
  assert (Hfull : shiftRegisterBitCount st = 192)
    by (apply run_count_full; [exact Hwf | reflexivity]).
  pose proof (run_wf calls fresh Hwf) as (_ & Hbits & _). fold st in Hbits.
  split; [reflexivity|]. split; [reflexivity|]. split.
  { unfold PANEL_SHIFT_BITS. intros i Hi.
    change fresh with (pushBits [] (setupPanel st0)).
    rewrite shiftRegisterGetBit_after_pushes by lia. cbn [length].
    destruct (Z.ltb_spec (i + Z.of_nat 0) 192); [reflexivity | lia]. }
  unfold PANEL_SHIFT_BITS. rewrite storedBits_length, Hfull.
  repeat split; try reflexivity; try assumption. lia.
Qed.

(** ** Every framebuffer byte is a bit *)

Lemma land_1_mod z : Z.land z 1 = z `mod` 2.
Proof. apply (Z.land_ones z 1). lia. Qed.

Lemma shiftRegisterGetBit_isBit st i : isBit (shiftRegisterGetBit st i).
Proof.
  unfold shiftRegisterGetBit, isBit. rewrite land_1_mod. modlia.
Qed.

Lemma arr_set_isBit a i v :
  Forall isBit a -> isBit v -> Forall isBit (arr_set a i v).
Proof.
  intros Ha Hv. unfold arr_set.
  destruct (0 <=? i); [apply Forall_insert; assumption | exact Ha].
Qed.

Lemma commitColumn_isBit st top bottom x fb :
  Forall isBit fb -> Forall isBit (commitColumn st top bottom x fb).
Proof.
  intros Hfb. unfold commitColumn.
  repeat (apply arr_set_isBit; [|apply shiftRegisterGetBit_isBit]).
  exact Hfb.
Qed.

Lemma LatchRegister_isBit st :
  Forall isBit (latchedFramebufferRgb st) ->
  Forall isBit (latchedFramebufferRgb (LatchRegister st)).
Proof.
  intros Hfb. rewrite LatchRegister_framebuffer.
  unfold commitShiftRegisterToFramebufferForSelectedRow. fields.
  apply (for_range_ind (fun _ fb => Forall isBit fb)).
  - unfold PANEL_PIXEL_WIDTH. lia.
  - exact Hfb.
  - intros x s _ Hs. apply commitColumn_isBit, Hs.
Qed.

Lemma call_isBit c st :
  Forall isBit (latchedFramebufferRgb st) ->
  Forall isBit (latchedFramebufferRgb (call c st)).
Proof.
  intros Hfb. destruct c; cbn [call].
  - exact Hfb.
  - destruct (PushBit_frame onoff st) as (-> & _). exact Hfb.
  - exact Hfb.
  - apply LatchRegister_isBit, Hfb.
  - rewrite ClearRow_pushBits.
    destruct (pushBits_frame (replicate 192 0) (SelectRow row st)) as (-> & _).
    exact Hfb.
Qed.

(** C10.  After [setupPanel] every byte of the latched framebuffer is 0 or
    1, and it stays so after any sequence of calls, whatever integers the
    caller passes to [PushBit] (and to [SelectRow] and [ClearRow]). *)
Theorem framebuffer_bytes_are_bits (st0 : Panel) (calls : list DriverCall) :
  Forall isBit (latchedFramebufferRgb (setupPanel st0)) /\
  Forall isBit (latchedFramebufferRgb (run calls (setupPanel st0))) /\
  length (latchedFramebufferRgb (run calls (setupPanel st0))) = 3072%nat.
Proof.
  assert (H0 : Forall isBit (latchedFramebufferRgb (setupPanel st0))).
  { apply Forall_replicate. left. reflexivity. }
  split; [exact H0|]. split.
  - generalize (setupPanel st0) H0. clear H0.
    induction calls as [|c calls IH]; intros st Hst; [exact Hst|].
    apply IH, call_isBit, Hst.
  - apply (run_wf calls (setupPanel st0) (setupPanel_wf st0)).
Qed.

(** ** Row selection *)

Lemma land_15_mod z : Z.land z 15 = z `mod` 16.
Proof. change 15 with (Z.ones 4). rewrite Z.land_ones by lia. reflexivity. Qed.

(** The subtraction of [SelectRow] cannot be observed to overflow: the low
    four bits of the wrapped difference are those of the exact one. *)
Lemma SelectRow_wrap_irrelevant row :
  Z.land (wrap_int32 (row - 1)) 15 = Z.land (row - 1) 15.
Proof. rewrite !land_15_mod. unfold wrap_int32. modlia. Qed.

(** C4, as the code has it.  [SelectRow(row)] resolves to
    [(row - 1) mod 16]: [SelectRow(17)] resolves to row address 0, and
    [SelectRow(0)] resolves to row address 15. *)
Theorem SelectRow_resolves_modulo_16 (st : Panel) :
  selectedRowPairIndex (SelectRow 17 st) = 0 /\
  selectedRowPairIndex (SelectRow 0 st) = 15 /\
  (forall row, selectedRowPairIndex (SelectRow row st) = (row - 1) `mod` 16).
Proof.
  split; [reflexivity|]. split; [reflexivity|].
  intros row. unfold SelectRow. fields. apply land_15_mod.
Qed.

(** C4, as stated, fails: [SelectRow(0)] and [SelectRow(17)] do not both
    resolve to row address 0. *)
Lemma SelectRow_0_and_17_not_both_0 :
  ~ (selectedRowPairIndex (SelectRow 0 staticPanel) = 0 /\
     selectedRowPairIndex (SelectRow 17 staticPanel) = 0).
Proof. intros [H0 _]. vm_compute in H0. discriminate H0. Qed.

(** ** Clearing before a full payload *)

Lemma shiftRegister_PushBit b st1 st2 :
  shiftRegister st1 = shiftRegister st2 ->
  shiftRegister (PushBit b st1) = shiftRegister (PushBit b st2).
Proof.
  unfold shiftRegister. intros H. injection H as Hbits Ho Hc.
  unfold PushBit, shiftRegisterPushBit. rewrite Hbits, Ho, Hc.
  destruct (shiftRegisterBitCount st2 <? PANEL_SHIFT_BITS); reflexivity.
Qed.

Lemma shiftRegister_pushBits l : forall st1 st2,
  shiftRegister st1 = shiftRegister st2 ->
  shiftRegister (pushBits l st1) = shiftRegister (pushBits l st2).
Proof.
  induction l as [|b l IH]; intros st1 st2 H; [exact H|].
  apply IH, shiftRegister_PushBit, H.
Qed.

Lemma logicalBits_shiftRegister st1 st2 :
  shiftRegister st1 = shiftRegister st2 -> logicalBits st1 = logicalBits st2.
Proof.
  unfold shiftRegister. intros H. injection H as Hbits Ho Hc.
  unfold logicalBits, shiftRegisterGetBit. rewrite Hbits, Ho. reflexivity.
Qed.

(** Loading calls act on the shift register as their pushes alone, and
    leave the framebuffer as it was. *)
Lemma run_load_calls calls : forall st,
  forallb isLoadCall calls = true ->
  shiftRegister (run calls st) = shiftRegister (pushBits (pushedBits calls) st) /\
  latchedFramebufferRgb (run calls st) = latchedFramebufferRgb st.
Proof.
  induction calls as [|c calls IH]; intros st Hload; [split; reflexivity|].
  cbn [forallb] in Hload. apply andb_prop in Hload as [Hc Hrest].
  destruct c; cbn [isLoadCall] in Hc; try discriminate Hc; cbn [pushedBits].
  - change (run (CallSelectRow row :: calls) st) with (run calls (SelectRow row st)).
    destruct (IH (SelectRow row st) Hrest) as [Hsr Hfb].
    rewrite Hsr, Hfb. split; [|reflexivity].
    apply shiftRegister_pushBits. reflexivity.
  - change (run (CallPushBit onoff :: calls) st) with (run calls (PushBit onoff st)).
    destruct (IH (PushBit onoff st) Hrest) as [Hsr Hfb].
    rewrite Hsr, Hfb. split; [reflexivity|].
    apply (PushBit_frame onoff st).
  - change (run (CallPrepareLatch :: calls) st) with (run calls (PrepareLatch st)).
    destruct (IH (PrepareLatch st) Hrest) as [Hsr Hfb].
    rewrite Hsr, Hfb. split; [|reflexivity].
    apply shiftRegister_pushBits. reflexivity.
Qed.

Lemma logicalBits_load_calls calls st :
  wf st -> forallb isLoadCall calls = true ->
  length (pushedBits calls) = 192%nat ->
  logicalBits (run calls st) = map bitOf (pushedBits calls).
Proof.
  intros Hwf Hload Hlen.
  destruct (run_load_calls calls st Hload) as [Hsr _].
  rewrite (logicalBits_shiftRegister _ _ Hsr).
  rewrite logicalBits_pushBits by (try assumption; lia).
  apply lastn_all. rewrite length_map. lia.
Qed.

(** C8.  [ClearRow(row)] is [SelectRow(row)] followed by exactly 192 pushes
    of zero.  For every well-formed starting state and every loading
    sequence (pushes, possibly with [SelectRow] and [PrepareLatch] calls
    among them) that pushes exactly 192 bits and ends on the same row
    address either way, the framebuffer committed by the following
    [LatchRegister] is the same whether or not [ClearRow] ran first. *)
Theorem ClearRow_redundant_before_192_pushes
    (st : Panel) (row : Z) (calls : list DriverCall) :
  wf st ->
  forallb isLoadCall calls = true ->
  length (pushedBits calls) = 192%nat ->
  Z.land (selectedRowPairIndex (run calls (ClearRow row st))) 15 =
    Z.land (selectedRowPairIndex (run calls st)) 15 ->
  ClearRow row st = pushBits (replicate 192 0) (SelectRow row st) /\
  latchedFramebufferRgb (LatchRegister (run calls (ClearRow row st))) =
    latchedFramebufferRgb (LatchRegister (run calls st)).
Proof.
  intros Hwf Hload Hlen Hrow. split; [apply ClearRow_pushBits|].
  pose proof (ClearRow_wf row st Hwf) as Hwfc.
  destruct (run_load_calls calls st Hload) as [_ Hfb].
  destruct (run_load_calls calls (ClearRow row st) Hload) as [_ Hfbc].
  assert (Hclear : latchedFramebufferRgb (ClearRow row st) = latchedFramebufferRgb st).
  { rewrite ClearRow_pushBits.
    apply (pushBits_frame (replicate 192 0) (SelectRow row st)). }
  rewrite !LatchRegister_refines_spec
    by (rewrite ?Hfb, ?Hfbc, ?Hclear; apply Hwf).
  rewrite Hrow, Hfb, Hfbc, Hclear.
  rewrite !logicalBits_load_calls by assumption.
  reflexivity.
Qed.

(** ** The statements at the worked scan step *)

Ltac by_computation :=
  repeat split; vm_compute; first [reflexivity | discriminate].

Lemma LatchRegister_decodes_six_planes_witness :
  wf examplePanel /\ 0 <= 3 < 32 /\
  let r := Z.land (selectedRowPairIndex examplePanel) 15 in
  let bits := logicalBits examplePanel in
  let fb := latchedFramebufferRgb (LatchRegister examplePanel) in
  0 <= r <= 15 /\
  length bits = 192%nat /\
  (forall i, 0 <= i < 192 -> arr_get bits i = shiftRegisterGetBit examplePanel i) /\
  bits = plane 0 bits ++ plane 1 bits ++ plane 2 bits ++
         plane 3 bits ++ plane 4 bits ++ plane 5 bits /\
  (forall st0 payload, wf st0 -> length payload = 192%nat ->
     examplePanel = pushBits payload st0 -> bits = map bitOf payload) /\
  pixel fb r 3 0 = arr_get (plane 0 bits) 3 /\
  pixel fb r 3 1 = arr_get (plane 1 bits) 3 /\
  pixel fb r 3 2 = arr_get (plane 2 bits) 3 /\
  pixel fb (r + 16) 3 0 = arr_get (plane 3 bits) 3 /\
  pixel fb (r + 16) 3 1 = arr_get (plane 4 bits) 3 /\
  pixel fb (r + 16) 3 2 = arr_get (plane 5 bits) 3.
Proof.
  assert (Hwf : wf examplePanel) by (unfold wf; by_computation).
  assert (Hx : 0 <= 3 < 32) by lia.
  split; [exact Hwf|]. split; [exact Hx|].
  exact (LatchRegister_decodes_six_planes examplePanel 3 Hwf Hx).
Defined.

Lemma LatchRegister_overwrites_exactly_the_row_pair_witness :
  wf examplePanel /\ 0 <= 21 < 32 /\ 0 <= 3 < 32 /\ 0 <= 2 < 3 /\
  let r := Z.land (selectedRowPairIndex examplePanel) 15 in
  let fb := latchedFramebufferRgb (LatchRegister examplePanel) in
  length fb = length (latchedFramebufferRgb examplePanel) /\
  (21 = r -> pixel fb 21 3 2 = shiftRegisterGetBit examplePanel (2 * 32 + 3)) /\
  (21 = r + 16 -> pixel fb 21 3 2 = shiftRegisterGetBit examplePanel ((3 + 2) * 32 + 3)) /\
  (21 <> r -> 21 <> r + 16 ->
     pixel fb 21 3 2 = pixel (latchedFramebufferRgb examplePanel) 21 3 2).
Proof.
  assert (Hwf : wf examplePanel) by (unfold wf; by_computation).
  assert (Hy : 0 <= 21 < 32) by lia.
  assert (Hx : 0 <= 3 < 32) by lia.
  assert (Hch : 0 <= 2 < 3) by lia.
  split; [exact Hwf|]. split; [exact Hy|]. split; [exact Hx|]. split; [exact Hch|].
  exact (LatchRegister_overwrites_exactly_the_row_pair examplePanel 21 3 2 Hwf Hy Hx Hch).
Defined.

Lemma LatchRegister_idempotent_witness :
  wf examplePanel /\
  latchedFramebufferRgb (LatchRegister (LatchRegister examplePanel)) =
    latchedFramebufferRgb (LatchRegister examplePanel) /\
  latchedFramebufferRgb (LatchRegister (PrepareLatch (LatchRegister examplePanel))) =
    latchedFramebufferRgb (LatchRegister examplePanel).
Proof.
  assert (Hwf : wf examplePanel) by (unfold wf; by_computation).
  split; [exact Hwf|].
  exact (LatchRegister_idempotent examplePanel Hwf).
Defined.

Lemma overflow_decodes_final_192_bits_witness :
  wf examplePanel /\
  length (replicate 3 1 ++ examplePayload) = (192 + 3)%nat /\
  let pushed := replicate 3 1 ++ examplePayload in
  let r := Z.land (selectedRowPairIndex examplePanel) 15 in
  let fb := latchedFramebufferRgb (LatchRegister (pushBits pushed examplePanel)) in
  fb = spec_decodeRowPair r (map bitOf (drop 3 pushed))
                          (latchedFramebufferRgb examplePanel) /\
  (forall x ch, 0 <= x < 32 -> 0 <= ch < 3 ->
     pixel fb r x ch = bitOf (arr_get pushed (Z.of_nat 3 + (ch * 32 + x))) /\
     pixel fb (r + 16) x ch = bitOf (arr_get pushed (Z.of_nat 3 + ((3 + ch) * 32 + x)))).
Proof.
  assert (Hwf : wf examplePanel) by (unfold wf; by_computation).
  assert (Hlen : length (replicate 3 1 ++ examplePayload) = (192 + 3)%nat)
    by (vm_compute; reflexivity).
  split; [exact Hwf|]. split; [exact Hlen|].
  exact (overflow_decodes_final_192_bits 3 examplePanel
           (replicate 3 1 ++ examplePayload) Hwf Hlen).
Defined.

Lemma ClearRow_redundant_before_192_pushes_witness :
  wf examplePanel /\
  forallb isLoadCall exampleLoad = true /\
  length (pushedBits exampleLoad) = 192%nat /\
  Z.land (selectedRowPairIndex (run exampleLoad (ClearRow 3 examplePanel))) 15 =
    Z.land (selectedRowPairIndex (run exampleLoad examplePanel)) 15 /\
  ClearRow 3 examplePanel = pushBits (replicate 192 0) (SelectRow 3 examplePanel) /\
  latchedFramebufferRgb (LatchRegister (run exampleLoad (ClearRow 3 examplePanel))) =
    latchedFramebufferRgb (LatchRegister (run exampleLoad examplePanel)).
Proof.
  assert (Hwf : wf examplePanel) by (unfold wf; by_computation).
  assert (Hload : forallb isLoadCall exampleLoad = true) by (vm_compute; reflexivity).
  assert (Hlen : length (pushedBits exampleLoad) = 192%nat) by (vm_compute; reflexivity).
  assert (Hrow : Z.land (selectedRowPairIndex (run exampleLoad (ClearRow 3 examplePanel))) 15 =
                 Z.land (selectedRowPairIndex (run exampleLoad examplePanel)) 15)
    by (vm_compute; reflexivity).
  split; [exact Hwf|]. split; [exact Hload|]. split; [exact Hlen|]. split; [exact Hrow|].
  exact (ClearRow_redundant_before_192_pushes examplePanel 3 exampleLoad
           Hwf Hload Hlen Hrow).
Defined.

(** ** Concrete runs *)

(** The round trip: after the latch, row 5 is red in every column and row
    21 is dark. *)
Example round_trip_row_5 :
  let fb := latchedFramebufferRgb (LatchRegister examplePanel) in
  map (fun x => (pixel fb 5 x 0, pixel fb 5 x 1, pixel fb 5 x 2))
      (map Z.of_nat (seq 0 32)) = replicate 32 (1, 0, 0) /\
  map (fun x => (pixel fb 21 x 0, pixel fb 21 x 1, pixel fb 21 x 2))
      (map Z.of_nat (seq 0 32)) = replicate 32 (0, 0, 0).
Proof. vm_compute. split; reflexivity. Qed.

(** The latch hands the renderer the committed frame, the row address and
    the display flag. *)
Example latch_notifies_renderer :
  last (jsLog (LatchRegister examplePanel)) =
    Some (js_render_frame (latchedFramebufferRgb (LatchRegister examplePanel)) 5 1).
Proof. vm_compute. reflexivity. Qed.

(** [SelectRow(0)] followed by a latch writes rows 15 and 31. *)
Example SelectRow_0_latches_rows_15_and_31 :
  let st := LatchRegister
              (pushBits (replicate 192 1) (SelectRow 0 (setupPanel staticPanel))) in
  pixel (latchedFramebufferRgb st) 15 0 0 = 1 /\
  pixel (latchedFramebufferRgb st) 31 0 0 = 1 /\
  pixel (latchedFramebufferRgb st) 0 0 0 = 0 /\
  pixel (latchedFramebufferRgb st) 16 0 0 = 0.
Proof. vm_compute. repeat split; reflexivity. Qed.

(** A push of any non-zero integer shifts in a one. *)
Example PushBit_normalises :
  shiftRegisterGetBit (PushBit (-4) (setupPanel staticPanel)) 191 = 1 /\
  shiftRegisterGetBit (PushBit 256 (setupPanel staticPanel)) 191 = 1 /\
  shiftRegisterGetBit (PushBit 0 (PushBit 1 (setupPanel staticPanel))) 190 = 1.
Proof. vm_compute. repeat split; reflexivity. Qed.

(** ** More on loops and call sequences *)

Lemma for_range_snoc {A : Type} lo n (body : Z -> A -> A) (a : A) :
  lo <= n -> for_range lo (n + 1) body a = body n (for_range lo n body a).
Proof.
  intros Hle. unfold for_range.
  replace (Z.to_nat (n + 1 - lo)) with (S (Z.to_nat (n - lo))) by lia.
  assert (Hgen : forall fuel x s,
             fuel = Z.to_nat (n - x) -> lo <= x <= n ->
             for_loop (S fuel) x (n + 1) body s = body n (for_loop fuel x n body s)).
  { induction fuel as [|fuel IH]; intros x s Hf Hx.
    - assert (x = n) by lia. subst x. cbn [for_loop].
      destruct (Z.ltb_spec n (n + 1)); [reflexivity | lia].
    - change (for_loop (S (S fuel)) x (n + 1) body s)
        with (if x <? n + 1 then for_loop (S fuel) (x + 1) (n + 1) body (body x s) else s).
      change (for_loop (S fuel) x n body s)
        with (if x <? n then for_loop fuel (x + 1) n body (body x s) else s).
      destruct (Z.ltb_spec x (n + 1)); [|lia].
      destruct (Z.ltb_spec x n); [|lia].
      apply IH; lia. }
  apply Hgen; [reflexivity | lia].
Qed.

Lemma for_range_empty {A : Type} lo (body : Z -> A -> A) (a : A) :
  for_range lo lo body a = a.
Proof. unfold for_range. rewrite Z.sub_diag. reflexivity. Qed.

Lemma run_app calls1 calls2 st : run (calls1 ++ calls2) st = run calls2 (run calls1 st).
Proof. unfold run. apply fold_left_app. Qed.

Lemma run_emulatorHAL calls st : runHAL emulatorHAL calls st = run calls st.
Proof.
  revert st. induction calls as [|c calls IH]; intros st; [reflexivity|].
  change (runHAL emulatorHAL (c :: calls) st)
    with (runHAL emulatorHAL calls (callHAL emulatorHAL c st)).
  change (run (c :: calls) st) with (run calls (call c st)).
  rewrite IH. f_equal.
Qed.

(** ** The framebuffer between latches *)

Lemma ClearRow_frame row st :
  latchedFramebufferRgb (ClearRow row st) = latchedFramebufferRgb st /\
  selectedRowPairIndex (ClearRow row st) = Z.land (row - 1) 15 /\
  latchLineIsLow (ClearRow row st) = latchLineIsLow st /\
  displayIsEnabled (ClearRow row st) = displayIsEnabled st /\
  jsLog (ClearRow row st) = jsLog st.
Proof.
  rewrite ClearRow_pushBits.
  assert (Hgen : forall l s,
             latchedFramebufferRgb (pushBits l s) = latchedFramebufferRgb s /\
             selectedRowPairIndex (pushBits l s) = selectedRowPairIndex s /\
             latchLineIsLow (pushBits l s) = latchLineIsLow s /\
             displayIsEnabled (pushBits l s) = displayIsEnabled s /\
             jsLog (pushBits l s) = jsLog s).
  { induction l as [|b l IH]; intros s; [repeat split|].
    change (pushBits (b :: l) s) with (pushBits l (PushBit b s)).
    destruct (IH (PushBit b s)) as (-> & -> & -> & -> & ->).
    apply PushBit_frame. }
  destruct (Hgen (replicate 192 0) (SelectRow row st)) as (-> & -> & -> & -> & ->).
  repeat split.
Qed.

(** X1.  The latched framebuffer changes in [LatchRegister] and nowhere
    else: after any sequence of [SelectRow], [PushBit], [PrepareLatch] and
    [ClearRow] calls, from any state, it is what it was. *)
Theorem framebuffer_changes_only_at_latch (calls : list DriverCall) (st : Panel) :
  forallb (fun c => negb (isLatchCall c)) calls = true ->
  latchedFramebufferRgb (run calls st) = latchedFramebufferRgb st.
Proof.
  revert st. induction calls as [|c calls IH]; intros st Hno; [reflexivity|].
  cbn [forallb] in Hno. apply andb_prop in Hno as [Hc Hrest].
  change (run (c :: calls) st) with (run calls (call c st)).
  rewrite IH by exact Hrest.
  destruct c; cbn [call]; try reflexivity.
  - apply (PushBit_frame onoff st).
  - discriminate Hc.
  - apply (ClearRow_frame row st).
Qed.

Lemma framebuffer_changes_only_at_latch_witness :
  forallb (fun c => negb (isLatchCall c))
          (CallClearRow 3 :: exampleLoad) = true /\
  latchedFramebufferRgb (run (CallClearRow 3 :: exampleLoad) examplePanel) =
    latchedFramebufferRgb examplePanel.
Proof.
  assert (H : forallb (fun c => negb (isLatchCall c))
                      (CallClearRow 3 :: exampleLoad) = true)
    by (vm_compute; reflexivity).
  split; [exact H|].
  exact (framebuffer_changes_only_at_latch (CallClearRow 3 :: exampleLoad) examplePanel H).
Defined.

(** X2.  A short payload leaves stale bits: after [m <= 192] pushes on a
    full register, the first [192 - m] logical bits are the old bits from
    index [m] on, and the last [m] are the pushed ones. *)
Theorem short_payload_keeps_stale_bits (st : Panel) (pushed : list Z) (i : Z) :
  wf st -> shiftRegisterBitCount st = 192 ->
  (length pushed <= 192)%nat -> 0 <= i < 192 ->
  let m := Z.of_nat (length pushed) in
  shiftRegisterGetBit (pushBits pushed st) i =
    if i <? 192 - m then shiftRegisterGetBit st (i + m)
    else bitOf (arr_get pushed (i - (192 - m))).
Proof.
  intros Hwf Hfull Hlen Hi m.
  pose proof (pushBits_wf pushed st Hwf) as (_ & _ & Ho' & _).
  pose proof (pushBits_count pushed st Hwf) as Hc'.
  pose proof Hwf as (Hfb & Hbits & Ho & Hc).
  rewrite shiftRegisterGetBit_stored by lia.
  rewrite storedBits_pushBits by exact Hwf.
  unfold lastn. rewrite arr_get_drop by lia.
  rewrite length_app, length_map, storedBits_length, Hfull.
  replace (Z.of_nat (Z.to_nat 192 + length pushed - 192)) with m by lia.
  rewrite arr_get_app by lia. rewrite storedBits_length, Hfull.
  change (Z.of_nat (Z.to_nat 192)) with 192.
  destruct (Z.ltb_spec (i + m) 192) as [Hlt|Hge];
    destruct (Z.ltb_spec i (192 - m)); try lia.
  - rewrite shiftRegisterGetBit_stored by lia. reflexivity.
  - rewrite arr_get_map by lia. rewrite land_bitOf. f_equal. f_equal. lia.
Qed.

Lemma short_payload_keeps_stale_bits_witness :
  wf examplePanel /\ shiftRegisterBitCount examplePanel = 192 /\
  (length [0; 0; 1] <= 192)%nat /\ 0 <= 28 < 192 /\
  let m := Z.of_nat (length [0; 0; 1]) in
  shiftRegisterGetBit (pushBits [0; 0; 1] examplePanel) 28 =
    if 28 <? 192 - m then shiftRegisterGetBit examplePanel (28 + m)
    else bitOf (arr_get [0; 0; 1] (28 - (192 - m))).
Proof.
  assert (Hwf : wf examplePanel) by (unfold wf; by_computation).
  assert (Hfull : shiftRegisterBitCount examplePanel = 192) by (vm_compute; reflexivity).
  assert (Hlen : (length [0; 0; 1] <= 192)%nat) by (cbn [length]; lia).
  assert (Hi : 0 <= 28 < 192) by lia.
  split; [exact Hwf|]. split; [exact Hfull|]. split; [exact Hlen|]. split; [exact Hi|].
  exact (short_payload_keeps_stale_bits examplePanel [0; 0; 1] 28 Hwf Hfull Hlen Hi).
Defined.

(** ** What the renderer and the page are told *)

Lemma LatchRegister_jsLog st :
  jsLog (LatchRegister st) =
    jsLog st ++ [js_set_display_state 1;
                 js_render_frame (latchedFramebufferRgb (LatchRegister st))
                                 (Z.land (selectedRowPairIndex st) 15) 1].
Proof.
  unfold LatchRegister, commitShiftRegisterToFramebufferForSelectedRow.
  cbn [jsLog js_call set_latchedFramebufferRgb set_latch selectedRowPairIndex
       displayIsEnabled].
  rewrite <- app_assoc. reflexivity.
Qed.

Lemma call_jsLog c st :
  wf st -> Forall isBit (latchedFramebufferRgb st) ->
  exists added,
    jsLog (call c st) = jsLog st ++ added /\
    Forall wellFormedJsCall added /\
    length (List.filter isRenderCall added) = (if isLatchCall c then 1 else 0)%nat.
Proof.
  intros Hwf Hbits. destruct c; cbn [call isLatchCall].
  - exists []. rewrite app_nil_r. repeat split. constructor.
  - exists []. rewrite app_nil_r. repeat split.
    + apply (PushBit_frame onoff st).
    + constructor.
  - exists [js_set_display_state 0]. repeat split.
    repeat constructor.
  - exists [js_set_display_state 1;
            js_render_frame (latchedFramebufferRgb (LatchRegister st))
                            (Z.land (selectedRowPairIndex st) 15) 1].
    split; [apply LatchRegister_jsLog|]. split; [|reflexivity].
    constructor; [right; reflexivity|]. constructor; [|constructor].
    cbn [wellFormedJsCall].
    pose proof (rowPair_range (selectedRowPairIndex st)).
    repeat split; try lia.
    + apply LatchRegister_length, Hwf.
    + apply LatchRegister_isBit, Hbits.
  - exists []. rewrite app_nil_r. repeat split.
    + apply (ClearRow_frame row st).
    + constructor.
Qed.

(** X3.  From [setupPanel] on, whatever the driver calls: the renderer is
    invoked exactly once per [LatchRegister] call and by nothing else, each
    time with a frame of 3072 bytes that are all 0 or 1, a row pair in
    0..15 and the display flag 1; every display state sent to the page is 0
    or 1. *)
Theorem renderer_called_once_per_latch (st0 : Panel) (calls : list DriverCall) :
  exists sent,
    jsLog (run calls (setupPanel st0)) = jsLog st0 ++ sent /\
    Forall wellFormedJsCall sent /\
    length (List.filter isRenderCall sent) = length (List.filter isLatchCall calls).
Proof.
  assert (Hgen : forall calls st,
             wf st -> Forall isBit (latchedFramebufferRgb st) ->
             exists sent,
               jsLog (run calls st) = jsLog st ++ sent /\
               Forall wellFormedJsCall sent /\
               length (List.filter isRenderCall sent) =
                 length (List.filter isLatchCall calls)).
  { clear calls. induction calls as [|c calls IH]; intros st Hwf Hbits.
    - exists []. rewrite app_nil_r. repeat split. constructor.
    - destruct (call_jsLog c st Hwf Hbits) as (added & Hlog & Hok & Hn).
      destruct (IH (call c st) (call_wf c st Hwf) (call_isBit c st Hbits))
        as (sent & Hlog' & Hok' & Hn').
      exists (added ++ sent).
      change (run (c :: calls) st) with (run calls (call c st)).
      rewrite Hlog', Hlog, <- app_assoc. split; [reflexivity|].
      split; [apply Forall_app; split; assumption|].
      rewrite List.filter_app, length_app, Hn, Hn'.
      cbn [List.filter]. destruct (isLatchCall c); reflexivity. }
  destruct (Hgen calls (setupPanel st0) (setupPanel_wf st0)) as (sent & Hlog & Hok & Hn).
  { apply Forall_replicate. left. reflexivity. }
  exists (js_set_display_state 1 :: sent).
  rewrite Hlog. cbn [setupPanel jsLog js_call]. rewrite <- app_assoc.
  split; [reflexivity|]. split.
  - constructor; [right; reflexivity | exact Hok].
  - exact Hn.
Qed.

Lemma shownDisplayState_snoc log c :
  shownDisplayState (log ++ [c]) =
    match c with
    | js_set_display_state on => Some on
    | js_render_frame _ _ _ => shownDisplayState log
    end.
Proof. unfold shownDisplayState. rewrite fold_left_app. reflexivity. Qed.

(** X4.  From [setupPanel] on, whatever the driver calls: the two latch
    flags are always opposite, and the display state last sent to the page
    is the current [displayIsEnabled]. *)
Theorem page_display_state_follows_latch (st0 : Panel) (calls : list DriverCall) :
  let st := run calls (setupPanel st0) in
  latchLineIsLow st = negb (displayIsEnabled st) /\
  shownDisplayState (jsLog st) = Some (if displayIsEnabled st then 1 else 0).
Proof.
  cbv zeta.
  assert (Hgen : forall calls st,
             latchLineIsLow st = negb (displayIsEnabled st) /\
             shownDisplayState (jsLog st) = Some (if displayIsEnabled st then 1 else 0) ->
             latchLineIsLow (run calls st) = negb (displayIsEnabled (run calls st)) /\
             shownDisplayState (jsLog (run calls st)) =
               Some (if displayIsEnabled (run calls st) then 1 else 0)).
  { clear calls. induction calls as [|c calls IH]; intros st Hinv; [exact Hinv|].
    change (run (c :: calls) st) with (run calls (call c st)).
    apply IH. destruct Hinv as [Hflags Hshown].
    destruct c; cbn [call].
    - split; assumption.
    - destruct (PushBit_frame onoff st) as (_ & _ & -> & -> & ->). split; assumption.
    - split; [reflexivity|].
      unfold PrepareLatch. cbn [jsLog js_call displayIsEnabled set_latch].
      apply shownDisplayState_snoc.
    - split; [reflexivity|].
      rewrite LatchRegister_jsLog.
      change (jsLog st ++ [js_set_display_state 1;
                js_render_frame (latchedFramebufferRgb (LatchRegister st))
                                (Z.land (selectedRowPairIndex st) 15) 1])
        with (jsLog st ++ [js_set_display_state 1] ++
                [js_render_frame (latchedFramebufferRgb (LatchRegister st))
                                 (Z.land (selectedRowPairIndex st) 15) 1]).
      rewrite app_assoc, !shownDisplayState_snoc. reflexivity.
    - destruct (ClearRow_frame row st) as (_ & _ & -> & -> & ->). split; assumption. }
  apply Hgen. split; [reflexivity|].
  cbn [setupPanel jsLog js_call displayIsEnabled].
  apply shownDisplayState_snoc.
Qed.

(** ** panel_hw.c: pin levels and clocked bits *)

Lemma Hw_level_app b pin l1 l2 :
  Hw.level b pin (l1 ++ l2) = Hw.level (Hw.level b pin l1) pin l2.
Proof. unfold Hw.level. apply fold_left_app. Qed.

Lemma Hw_clockedBits_app l1 : forall clk inp l2,
  Hw.clockedBits clk inp (l1 ++ l2) =
    Hw.clockedBits clk inp l1 ++
    Hw.clockedBits (Hw.level clk Hw.CLK_PIN l1) (Hw.level inp Hw.INP_PIN l1) l2.
Proof.
  induction l1 as [|c l1 IH]; intros clk inp l2; [reflexivity|].
  destruct c as [[]|[]]; cbn [app Hw.clockedBits];
    rewrite IH; rewrite <- ?app_assoc; reflexivity.
Qed.

Lemma Hw_SelectRow_app row log : Hw.SelectRow row log = log ++ Hw.SelectRow row [].
Proof.
  unfold Hw.SelectRow.
  destruct (Z.rem row 2 =? 1), (Z.rem (Z.quot row 2) 2 =? 1),
           (Z.rem (Z.quot (Z.quot row 2) 2) 2 =? 1),
           (Z.rem (Z.quot (Z.quot (Z.quot row 2) 2) 2) 2 =? 1);
    rewrite <- ?app_assoc; reflexivity.
Qed.

Lemma Hw_PushBit_app onoff log : Hw.PushBit onoff log = log ++ Hw.PushBit onoff [].
Proof.
  unfold Hw.PushBit. destruct (onoff =? 0); rewrite <- ?app_assoc; reflexivity.
Qed.

Lemma Hw_SelectRow_effect (row : Z) (log : list Hw.GpioCall) :
  Hw.address (Hw.SelectRow row log) = (if row <? 0 then 0 else row `mod` 16) /\
  (forall b, Hw.level b Hw.INP_PIN (Hw.SelectRow row log) = Hw.level b Hw.INP_PIN log) /\
  (forall b, Hw.level b Hw.CLK_PIN (Hw.SelectRow row log) = Hw.level b Hw.CLK_PIN log) /\
  (forall b, Hw.level b Hw.LAT_PIN (Hw.SelectRow row log) = Hw.level b Hw.LAT_PIN log) /\
  (forall clk inp, Hw.clockedBits clk inp (Hw.SelectRow row log) =
                   Hw.clockedBits clk inp log).
Proof.
  rewrite Hw_SelectRow_app. unfold Hw.address.
  rewrite !Hw_level_app.
  split; [|split; [|split; [|split]]].
  - generalize (Hw.level false Hw.D_PIN log) (Hw.level false Hw.C_PIN log)
               (Hw.level false Hw.B_PIN log) (Hw.level false Hw.A_PIN log).
    intros d c b a. unfold Hw.SelectRow.
    destruct (Z.eqb_spec (Z.rem row 2) 1) as [Ha|Ha],
             (Z.eqb_spec (Z.rem (Z.quot row 2) 2) 1) as [Hb|Hb],
             (Z.eqb_spec (Z.rem (Z.quot (Z.quot row 2) 2) 2) 1) as [Hc|Hc],
             (Z.eqb_spec (Z.rem (Z.quot (Z.quot (Z.quot row 2) 2) 2) 2) 1) as [Hd|Hd];
      cbn [app Hw.level fold_left Hw.pin_eqb Z.b2z];
      destruct (Z.ltb_spec row 0); modlia.
  - intros b. rewrite Hw_level_app. unfold Hw.SelectRow.
    destruct (Z.rem row 2 =? 1), (Z.rem (Z.quot row 2) 2 =? 1),
             (Z.rem (Z.quot (Z.quot row 2) 2) 2 =? 1),
             (Z.rem (Z.quot (Z.quot (Z.quot row 2) 2) 2) 2 =? 1); reflexivity.
  - intros b. rewrite Hw_level_app. unfold Hw.SelectRow.
    destruct (Z.rem row 2 =? 1), (Z.rem (Z.quot row 2) 2 =? 1),
             (Z.rem (Z.quot (Z.quot row 2) 2) 2 =? 1),
             (Z.rem (Z.quot (Z.quot (Z.quot row 2) 2) 2) 2 =? 1); reflexivity.
  - intros b. rewrite Hw_level_app. unfold Hw.SelectRow.
    destruct (Z.rem row 2 =? 1), (Z.rem (Z.quot row 2) 2 =? 1),
             (Z.rem (Z.quot (Z.quot row 2) 2) 2 =? 1),
             (Z.rem (Z.quot (Z.quot (Z.quot row 2) 2) 2) 2 =? 1); reflexivity.
  - intros clk inp. rewrite Hw_clockedBits_app. unfold Hw.SelectRow.
    destruct (Z.rem row 2 =? 1), (Z.rem (Z.quot row 2) 2 =? 1),
             (Z.rem (Z.quot (Z.quot row 2) 2) 2 =? 1),
             (Z.rem (Z.quot (Z.quot (Z.quot row 2) 2) 2) 2 =? 1);
      cbn [app Hw.clockedBits]; apply app_nil_r.
Qed.

(** X5.  The hardware [SelectRow] drives the address lines D C B A with
    [row mod 16] when [row] is not negative and with 0 when it is (C's [%]
    never yields 1 on a negative operand); it leaves the data, clock and
    latch lines alone and clocks no bit. *)
Theorem Hw_SelectRow_drives_address (row : Z) (log : list Hw.GpioCall) :
  Hw.address (Hw.SelectRow row log) = (if row <? 0 then 0 else row `mod` 16) /\
  (forall b, Hw.level b Hw.INP_PIN (Hw.SelectRow row log) = Hw.level b Hw.INP_PIN log) /\
  (forall b, Hw.level b Hw.CLK_PIN (Hw.SelectRow row log) = Hw.level b Hw.CLK_PIN log) /\
  (forall b, Hw.level b Hw.LAT_PIN (Hw.SelectRow row log) = Hw.level b Hw.LAT_PIN log) /\
  (forall clk inp, Hw.clockedBits clk inp (Hw.SelectRow row log) =
                   Hw.clockedBits clk inp log).
Proof. exact (Hw_SelectRow_effect row log). Qed.

(** X6.  The two implementations number the rows differently: for a
    non-negative [row], the address the hardware [SelectRow] puts on the
    lines is one more (modulo 16) than the row address the emulator's
    [SelectRow] stores for the same argument. *)
Theorem SelectRow_hardware_address_is_emulator_row_plus_one
    (row : Z) (log : list Hw.GpioCall) (st : Panel) :
  0 <= row ->
  Hw.address (Hw.SelectRow row log) =
    (selectedRowPairIndex (SelectRow row st) + 1) `mod` 16.
Proof.
  intros Hrow.
  destruct (Hw_SelectRow_effect row log) as (-> & _).
  destruct (Z.ltb_spec row 0); [lia|].
  unfold SelectRow. fields. rewrite land_15_mod. modlia.
Qed.

Lemma SelectRow_hardware_address_is_emulator_row_plus_one_witness :
  0 <= 6 /\
  Hw.address (Hw.SelectRow 6 []) =
    (selectedRowPairIndex (SelectRow 6 staticPanel) + 1) `mod` 16.
Proof.
  assert (H : 0 <= 6) by lia.
  split; [exact H|].
  exact (SelectRow_hardware_address_is_emulator_row_plus_one 6 [] staticPanel H).
Defined.

Lemma Hw_PushBit_effect (onoff : Z) (log : list Hw.GpioCall) :
  (forall clk inp, Hw.clockedBits clk inp (Hw.PushBit onoff log) =
                   Hw.clockedBits clk inp log ++ [bitOf onoff]) /\
  (forall b, Hw.level b Hw.CLK_PIN (Hw.PushBit onoff log) = true) /\
  (forall b, Hw.level b Hw.LAT_PIN (Hw.PushBit onoff log) = Hw.level b Hw.LAT_PIN log) /\
  Hw.address (Hw.PushBit onoff log) = Hw.address log.
Proof.
  rewrite Hw_PushBit_app. unfold Hw.address. rewrite !Hw_level_app.
  unfold Hw.PushBit, bitOf.
  split; [|split; [|split]].
  - intros clk inp. rewrite Hw_clockedBits_app.
    destruct (onoff =? 0); reflexivity.
  - intros b. rewrite Hw_level_app. destruct (onoff =? 0); reflexivity.
  - intros b. rewrite Hw_level_app. destruct (onoff =? 0); reflexivity.
  - destruct (onoff =? 0); reflexivity.
Qed.

(** X7.  The hardware [PushBit] produces exactly one rising clock edge,
    whatever the clock level was, with the data line at 1 when [onoff] is
    not 0 and at 0 otherwise; it leaves the clock high and does not touch
    the address or latch lines. *)
Theorem Hw_PushBit_clocks_one_bit (onoff : Z) (log : list Hw.GpioCall) :
  (forall clk inp, Hw.clockedBits clk inp (Hw.PushBit onoff log) =
                   Hw.clockedBits clk inp log ++ [bitOf onoff]) /\
  (forall b, Hw.level b Hw.CLK_PIN (Hw.PushBit onoff log) = true) /\
  (forall b, Hw.level b Hw.LAT_PIN (Hw.PushBit onoff log) = Hw.level b Hw.LAT_PIN log) /\
  Hw.address (Hw.PushBit onoff log) = Hw.address log.
Proof. exact (Hw_PushBit_effect onoff log). Qed.

Lemma Hw_ClearRow_pushes row log :
  Hw.ClearRow row log =
    fold_left (fun log b => Hw.PushBit b log) (replicate 192 0) (Hw.SelectRow row log).
Proof.
  unfold Hw.ClearRow.
  apply (for_range_ind
           (fun n s => s = fold_left (fun log b => Hw.PushBit b log)
                                     (replicate (Z.to_nat n) 0) (Hw.SelectRow row log))).
  - lia.
  - reflexivity.
  - intros x s Hx ->.
    replace (Z.to_nat (x + 1)) with (S (Z.to_nat x)) by lia.
    rewrite replicate_S_end, fold_left_app. reflexivity.
Qed.

Lemma Hw_pushes_clockedBits l : forall clk inp log,
  Hw.clockedBits clk inp (fold_left (fun log b => Hw.PushBit b log) l log) =
    Hw.clockedBits clk inp log ++ map bitOf l.
Proof.
  induction l as [|b l IH]; intros clk inp log.
  - cbn [fold_left map]. rewrite app_nil_r. reflexivity.
  - cbn [fold_left map]. rewrite IH.
    destruct (Hw_PushBit_effect b log) as (-> & _).
    rewrite <- app_assoc. reflexivity.
Qed.

Lemma Hw_pushes_level l : forall b pin log,
  pin = Hw.LAT_PIN ->
  Hw.level b pin (fold_left (fun log b => Hw.PushBit b log) l log) = Hw.level b pin log.
Proof.
  induction l as [|x l IH]; intros b pin log ->; [reflexivity|].
  cbn [fold_left]. rewrite IH by reflexivity.
  apply (Hw_PushBit_effect x log).
Qed.

Lemma map_bitOf_zeros n : map bitOf (replicate n 0) = replicate n 0.
Proof. induction n as [|n IH]; [reflexivity|]. cbn [replicate map]. rewrite IH. reflexivity. Qed.

(** The bits the hardware driver clocks out for a call sequence. *)
Lemma Hw_run_clockedBits calls : forall clk inp log,
  Hw.clockedBits clk inp (runHAL hardwareHAL calls log) =
    Hw.clockedBits clk inp log ++ shiftedBits calls.
Proof.
  induction calls as [|c calls IH]; intros clk inp log.
  - cbn [runHAL fold_left shiftedBits]. rewrite app_nil_r. reflexivity.
  - change (runHAL hardwareHAL (c :: calls) log)
      with (runHAL hardwareHAL calls (callHAL hardwareHAL c log)).
    rewrite IH.
    destruct c; cbn [callHAL hardwareHAL hal_SelectRow hal_PushBit hal_PrepareLatch
                     hal_LatchRegister hal_ClearRow shiftedBits].
    + destruct (Hw_SelectRow_effect row log) as (_ & _ & _ & _ & ->).
      reflexivity.
    + destruct (Hw_PushBit_effect onoff log) as (-> & _).
      rewrite <- app_assoc. reflexivity.
    + unfold Hw.PrepareLatch. rewrite Hw_clockedBits_app.
      cbn [Hw.clockedBits]. rewrite app_nil_r. reflexivity.
    + unfold Hw.LatchRegister. rewrite Hw_clockedBits_app.
      cbn [Hw.clockedBits]. rewrite app_nil_r. reflexivity.
    + rewrite Hw_ClearRow_pushes, Hw_pushes_clockedBits, map_bitOf_zeros.
      destruct (Hw_SelectRow_effect row log) as (_ & _ & _ & _ & ->).
      rewrite <- app_assoc. reflexivity.
Qed.

(** The bits the emulator holds after a call sequence. *)
Lemma storedBits_run calls : forall st,
  wf st ->
  storedBits (run calls st) = lastn 192 (storedBits st ++ shiftedBits calls).
Proof.
  induction calls as [|c calls IH]; intros st Hwf.
  - cbn [run fold_left shiftedBits]. rewrite app_nil_r, lastn_all; [reflexivity|].
    rewrite storedBits_length. destruct Hwf as (_ & _ & _ & Hc). lia.
  - change (run (c :: calls) st) with (run calls (call c st)).
    rewrite IH by (apply call_wf, Hwf).
    destruct c; cbn [call shiftedBits]; try reflexivity.
    + rewrite storedBits_PushBit by exact Hwf.
      rewrite lastn_app_lastn, <- app_assoc. reflexivity.
    + rewrite ClearRow_pushBits, storedBits_pushBits by apply SelectRow_wf, Hwf.
      rewrite map_bitOf_zeros, lastn_app_lastn, <- app_assoc. reflexivity.
Qed.

Lemma shiftedBits_isBit calls : Forall isBit (shiftedBits calls).
Proof.
  induction calls as [|c calls IH]; [constructor|].
  destruct c; cbn [shiftedBits]; try exact IH.
  - constructor; [apply bitOf_01 | exact IH].
  - apply Forall_app. split; [|exact IH].
    apply Forall_replicate. left. reflexivity.
Qed.

(** X8.  The emulator shifts what the hardware driver clocks: for every
    call sequence, the 192 logical bits of the emulator after [setupPanel]
    and the calls are the last 192 of 192 zeros followed by the bits that
    the hardware implementation puts on the data line at the rising clock
    edges of the same calls. *)
Theorem emulator_register_holds_bits_clocked_by_hardware
    (st0 : Panel) (calls : list DriverCall) (clk inp : bool) :
  logicalBits (run calls (setupPanel st0)) =
    lastn 192 (replicate 192 0 ++
               Hw.clockedBits clk inp (runHAL hardwareHAL calls [])).
Proof.
  rewrite Hw_run_clockedBits. cbn [Hw.clockedBits app].
  pose proof (setupPanel_wf st0) as Hwf.
  pose proof (run_wf calls _ Hwf) as (_ & _ & Ho & _).
  pose proof (run_count_full calls _ Hwf eq_refl) as Hfull.
  pose proof (storedBits_run calls _ Hwf) as Hs.
  rewrite setupPanel_storedBits in Hs.
  assert (Hbits : Forall isBit (lastn 192 (replicate 192 0 ++ shiftedBits calls))).
  { unfold lastn. apply Forall_drop, Forall_app. split.
    - apply Forall_replicate. left. reflexivity.
    - apply shiftedBits_isBit. }
  rewrite <- Hs in *.
  apply arr_ext.
  - rewrite logicalBits_length, storedBits_length, Hfull. reflexivity.
  - intros j. rewrite logicalBits_length. intros Hj.
    rewrite arr_get_logicalBits by lia.
    rewrite shiftRegisterGetBit_stored by lia.
    assert (Hb : isBit (arr_get (storedBits (run calls (setupPanel st0))) j)).
    { unfold arr_get. destruct (0 <=? j); [|left; reflexivity].
      destruct (storedBits (run calls (setupPanel st0)) !! Z.to_nat j) as [v|] eqn:Hv;
        [|left; reflexivity].
      cbn [default]. rewrite Forall_lookup in Hbits. exact (Hbits _ _ Hv). }
    destruct Hb as [-> | ->]; reflexivity.
Qed.

Lemma Hw_call_latch_level c log b :
  Hw.level b Hw.LAT_PIN (callHAL hardwareHAL c log) =
    match c with
    | CallPrepareLatch => false
    | CallLatchRegister => true
    | _ => Hw.level b Hw.LAT_PIN log
    end.
Proof.
  destruct c; cbn [callHAL hardwareHAL hal_SelectRow hal_PushBit hal_PrepareLatch
                   hal_LatchRegister hal_ClearRow].
  - apply (Hw_SelectRow_effect row log).
  - apply (Hw_PushBit_effect onoff log).
  - unfold Hw.PrepareLatch. rewrite Hw_level_app. reflexivity.
  - unfold Hw.LatchRegister. rewrite Hw_level_app. reflexivity.
  - rewrite Hw_ClearRow_pushes, Hw_pushes_level by reflexivity.
    apply (Hw_SelectRow_effect row log).
Qed.

Lemma call_displayIsEnabled c st :
  displayIsEnabled (call c st) =
    match c with
    | CallPrepareLatch => false
    | CallLatchRegister => true
    | _ => displayIsEnabled st
    end.
Proof.
  destruct c; cbn [call]; try reflexivity.
  - apply (PushBit_frame onoff st).
  - apply (ClearRow_frame row st).
Qed.

Lemma latch_level_simulation calls : forall log st b,
  Hw.level b Hw.LAT_PIN log = displayIsEnabled st ->
  Hw.level b Hw.LAT_PIN (runHAL hardwareHAL calls log) = displayIsEnabled (run calls st).
Proof.
  induction calls as [|c calls IH]; intros log st b Hinv; [exact Hinv|].
  change (runHAL hardwareHAL (c :: calls) log)
    with (runHAL hardwareHAL calls (callHAL hardwareHAL c log)).
  change (run (c :: calls) st) with (run calls (call c st)).
  apply IH. rewrite Hw_call_latch_level, call_displayIsEnabled.
  destruct c; (reflexivity || exact Hinv).
Qed.

(** X9.  Once the driver has called [PrepareLatch] or [LatchRegister] at
    least once, the latch line of the hardware implementation is high
    exactly when the emulator's [displayIsEnabled] is set, for the same
    calls from any starting states. *)
Theorem latch_line_matches_display_flag
    (calls : list DriverCall) (log : list Hw.GpioCall) (st : Panel) (b : bool) :
  existsb isLatchOrPrepareCall calls = true ->
  Hw.level b Hw.LAT_PIN (runHAL hardwareHAL calls log) = displayIsEnabled (run calls st).
Proof.
  revert log st. induction calls as [|c calls IH]; intros log st Hex; [discriminate Hex|].
  change (runHAL hardwareHAL (c :: calls) log)
    with (runHAL hardwareHAL calls (callHAL hardwareHAL c log)).
  change (run (c :: calls) st) with (run calls (call c st)).
  cbn [existsb] in Hex.
  destruct (isLatchOrPrepareCall c) eqn:Hc.
  - apply latch_level_simulation.
    rewrite Hw_call_latch_level, call_displayIsEnabled.
    destruct c; (reflexivity || discriminate Hc).
  - apply IH. exact Hex.
Qed.

Lemma latch_line_matches_display_flag_witness :
  existsb isLatchOrPrepareCall exampleLoad = true /\
  Hw.level true Hw.LAT_PIN (runHAL hardwareHAL exampleLoad []) =
    displayIsEnabled (run exampleLoad examplePanel).
Proof.
  assert (H : existsb isLatchOrPrepareCall exampleLoad = true) by (vm_compute; reflexivity).
  split; [exact H|].
  exact (latch_line_matches_display_flag exampleLoad [] examplePanel true H).
Defined.

(** ** game.c: what [displayRow] and [updateDisplay] call *)

Lemma runHAL_app {St : Type} (H : PanelHAL St) calls1 calls2 st :
  runHAL H (calls1 ++ calls2) st = runHAL H calls2 (runHAL H calls1 st).
Proof. unfold runHAL. apply fold_left_app. Qed.

Lemma forallb_Forall {A : Type} (f : A -> bool) l :
  forallb f l = true -> Forall (fun x => f x = true) l.
Proof.
  induction l as [|x l IH]; intros H; [constructor|].
  cbn [forallb] in H. apply andb_prop in H as [Hx Hl].
  constructor; [exact Hx | apply IH, Hl].
Qed.

Lemma arr_get_Forall (P : Z -> Prop) a i :
  Forall P a -> 0 <= i < Z.of_nat (length a) -> P (arr_get a i).
Proof.
  intros Ha Hi. unfold arr_get.
  destruct (Z.leb_spec 0 i) as [_|]; [|lia].
  destruct (lookup_lt_is_Some_2 a (Z.to_nat i)) as [v Hv]; [lia|].
  rewrite Hv. cbn [default]. rewrite Forall_lookup in Ha. exact (Ha _ _ Hv).
Qed.

Lemma colourSwitch_code c colourIndex :
  isColourCode c = true -> colourSwitch c colourIndex = colourSwitch c 0.
Proof.
  unfold isColourCode, colourSwitch.
  destruct (c =? chr "X"); [reflexivity|].
  destruct (c =? chr "W"); [reflexivity|].
  destruct (c =? chr "R"); [reflexivity|].
  destruct (c =? chr "B"); [reflexivity|].
  destruct (c =? chr "C"); [reflexivity|].
  destruct (c =? chr "M"); [reflexivity|].
  destruct (c =? chr "Y"); [reflexivity|].
  destruct (c =? chr "G"); [reflexivity|].
  intros H. discriminate H.
Qed.

Lemma colourSwitch_other c colourIndex :
  isColourCode c = false -> colourSwitch c colourIndex = colourIndex.
Proof.
  unfold isColourCode, colourSwitch.
  destruct (c =? chr "X"); [intros H; discriminate H|].
  destruct (c =? chr "W"); [intros H; discriminate H|].
  destruct (c =? chr "R"); [intros H; discriminate H|].
  destruct (c =? chr "B"); [intros H; discriminate H|].
  destruct (c =? chr "C"); [intros H; discriminate H|].
  destruct (c =? chr "M"); [intros H; discriminate H|].
  destruct (c =? chr "Y"); [intros H; discriminate H|].
  destruct (c =? chr "G"); [intros H; discriminate H|].
  reflexivity.
Qed.

Lemma colourBit_isBit c ch : isBit (colourBit c ch).
Proof.
  unfold colourBit, colourSwitch, isBit, table2, arr_get.
  destruct (0 <=? ch); [|repeat (match goal with |- context [if ?b then _ else _] =>
                                   destruct b end; cbn; auto)].
  repeat (match goal with |- context [if ?b then _ else _] => destruct b end);
    cbn [Z.leb Z.compare nth Z.to_nat colours default];
    destruct (Z.to_nat ch) as [|[|[|n]]]; cbn; auto.
Qed.

Lemma bitOf_colourBit c ch : bitOf (colourBit c ch) = colourBit c ch.
Proof. destruct (colourBit_isBit c ch) as [-> | ->]; reflexivity. Qed.

(** The pushes of one plane. *)
Lemma displayRow_plane {St : Type} (H : PanelHAL St) (matrixRow : list Z) (j : Z) p :
  length matrixRow = 32%nat ->
  Forall (fun c => isColourCode c = true) matrixRow ->
  snd (for_range 0 panelWidth
         (fun i '(colourIndex, st) =>
            let colourIndex := colourSwitch (arr_get matrixRow i) colourIndex in
            (colourIndex, hal_PushBit H (table2 colours colourIndex j) st))
         p) =
    runHAL H (map CallPushBit
                (map (fun i => colourBit (arr_get matrixRow (Z.of_nat i)) j) (seq 0 32)))
           (snd p).
Proof.
  intros Hlen Hcodes.
  change (seq 0 32) with (seq 0 (Z.to_nat panelWidth)).
  apply (for_range_ind
           (fun n q => snd q =
              runHAL H (map CallPushBit
                          (map (fun i => colourBit (arr_get matrixRow (Z.of_nat i)) j)
                               (seq 0 (Z.to_nat n))))
                     (snd p))).
  - unfold panelWidth. lia.
  - reflexivity.
  - unfold panelWidth. intros x [ci s] Hx Hq. cbn [snd] in *.
    replace (Z.to_nat (x + 1)) with (S (Z.to_nat x)) by lia.
    rewrite seq_S, !map_app, runHAL_app, <- Hq.
    cbn [map runHAL fold_left callHAL Nat.add]. rewrite Z2Nat.id by lia.
    rewrite colourSwitch_code; [reflexivity|].
    apply (arr_get_Forall (fun c => isColourCode c = true)); [exact Hcodes | lia].
Qed.

(** [displayRow] on a row of colour codes: 96 pushes, the red plane of the
    32 pixels, then the green, then the blue; the uninitialised local is
    never read. *)
Lemma displayRow_calls {St : Type} (H : PanelHAL St) colourIndex0 (matrixRow : list Z) st :
  length matrixRow = 32%nat ->
  Forall (fun c => isColourCode c = true) matrixRow ->
  displayRow H colourIndex0 matrixRow st =
    runHAL H (map CallPushBit (rowBits matrixRow)) st.
Proof.
  intros Hlen Hcodes. unfold displayRow, rowBits.
  change (seq 0 3) with (seq 0 (Z.to_nat 3)).
  apply (for_range_ind
           (fun n q => snd q =
              runHAL H (map CallPushBit
                          (flat_map
                             (fun j => map (fun i => colourBit (arr_get matrixRow (Z.of_nat i))
                                                               (Z.of_nat j))
                                           (seq 0 32))
                             (seq 0 (Z.to_nat n))))
                     st)).
  - lia.
  - reflexivity.
  - intros x q Hx Hq.
    replace (Z.to_nat (x + 1)) with (S (Z.to_nat x)) by lia.
    rewrite (seq_S (Z.to_nat x) 0), flat_map_app, map_app, runHAL_app, <- Hq.
    cbn [flat_map Nat.add]. rewrite app_nil_r, Z2Nat.id by lia.
    apply displayRow_plane; assumption.
Qed.

Lemma matrixRowAt_length gameMatrix y :
  length gameMatrix = 1024%nat -> 0 <= y < 32 ->
  length (matrixRowAt gameMatrix y) = 32%nat.
Proof.
  intros Hlen Hy. unfold matrixRowAt. rewrite length_take, length_drop, Hlen. lia.
Qed.

Lemma matrixRowAt_Forall (P : Z -> Prop) gameMatrix y :
  Forall P gameMatrix -> Forall P (matrixRowAt gameMatrix y).
Proof. intros H. unfold matrixRowAt. apply Forall_take, Forall_drop, H. Qed.

Lemma arr_get_matrixRowAt gameMatrix y x :
  0 <= y -> 0 <= x < 32 ->
  arr_get (matrixRowAt gameMatrix y) x = arr_get gameMatrix (y * 32 + x).
Proof.
  intros Hy Hx. unfold matrixRowAt.
  rewrite arr_get_take by lia. rewrite arr_get_drop by lia.
  f_equal. lia.
Qed.

Lemma scanRowPair_calls {St : Type} (H : PanelHAL St) uninit gameMatrix i st :
  (forall ms s, hal_delay_ms H ms s = s) ->
  length gameMatrix = 1024%nat ->
  Forall (fun c => isColourCode c = true) gameMatrix ->
  0 <= i < 16 ->
  scanRowPair H uninit gameMatrix i st = runHAL H (rowPairCalls gameMatrix i) st.
Proof.
  intros Hdelay Hlen Hcodes Hi. unfold scanRowPair, rowPairCalls.
  rewrite Hdelay.
  rewrite !displayRow_calls
    by (first [apply matrixRowAt_length; [exact Hlen | lia]
              | apply matrixRowAt_Forall, Hcodes]).
  rewrite map_app, !runHAL_app. reflexivity.
Qed.

Lemma updateDisplay_runHAL {St : Type} (H : PanelHAL St)
    (uninit : Z -> Z) (gameMatrix : list Z) (st : St) :
  (forall ms s, hal_delay_ms H ms s = s) ->
  length gameMatrix = 1024%nat ->
  Forall (fun c => isColourCode c = true) gameMatrix ->
  updateDisplay H uninit gameMatrix st = runHAL H (scanCalls gameMatrix) st.
Proof.
  intros Hdelay Hlen Hcodes.
  unfold updateDisplay, scanCalls.
  change (Z.quot panelHeight 2) with 16.
  change 16%nat with (Z.to_nat 16).
  apply (for_range_ind
           (fun n s => s = runHAL H (scanCallsUpTo gameMatrix (Z.to_nat n)) st)).
  - lia.
  - reflexivity.
  - intros x s Hx ->.
    replace (Z.to_nat (x + 1)) with (Datatypes.S (Z.to_nat x)) by lia.
    unfold scanCallsUpTo.
    rewrite (seq_S (Z.to_nat x) 0), flat_map_app, runHAL_app.
    cbn [flat_map Nat.add]. rewrite app_nil_r, Z2Nat.id by lia.
    apply scanRowPair_calls; assumption.
Qed.

(** X10.  On any implementation whose [delay_ms] leaves the panel alone,
    and for a framebuffer of 32 by 32 colour codes, [updateDisplay] makes
    exactly these calls, for i = 0 .. 15 in order: [ClearRow(i)],
    [PrepareLatch()], [SelectRow(i + 1)], 96 [PushBit] calls for row i
    (red plane of the 32 pixels, then green, then blue), 96 for row
    i + 16, [LatchRegister()]. *)
Theorem updateDisplay_issues_scan_calls {St : Type} (H : PanelHAL St)
    (uninit : Z -> Z) (gameMatrix : list Z) (st : St) :
  (forall ms s, hal_delay_ms H ms s = s) ->
  length gameMatrix = 1024%nat ->
  forallb isColourCode gameMatrix = true ->
  updateDisplay H uninit gameMatrix st = runHAL H (scanCalls gameMatrix) st.
Proof.
  intros Hdelay Hlen Hcodes.
  apply updateDisplay_runHAL; [exact Hdelay | exact Hlen | apply forallb_Forall, Hcodes].
Qed.

Lemma updateDisplay_issues_scan_calls_witness :
  (forall ms s, hal_delay_ms emulatorHAL ms s = s) /\
  length exampleMatrix = 1024%nat /\
  forallb isColourCode exampleMatrix = true /\
  updateDisplay emulatorHAL (fun _ => 0) exampleMatrix examplePanel =
    runHAL emulatorHAL (scanCalls exampleMatrix) examplePanel.
Proof.
  assert (Hdelay : forall ms s, hal_delay_ms emulatorHAL ms s = s)
    by (intros ms s; reflexivity).
  assert (Hlen : length exampleMatrix = 1024%nat) by (vm_compute; reflexivity).
  assert (Hcodes : forallb isColourCode exampleMatrix = true) by (vm_compute; reflexivity).
  split; [exact Hdelay|]. split; [exact Hlen|]. split; [exact Hcodes|].
  exact (updateDisplay_issues_scan_calls emulatorHAL (fun _ => 0) exampleMatrix
           examplePanel Hdelay Hlen Hcodes).
Defined.

(** ** game.c on the emulator: one scan pass *)

Lemma run_pushes bits : forall st, run (map CallPushBit bits) st = pushBits bits st.
Proof.
  induction bits as [|b bits IH]; intros st; [reflexivity|].
  cbn [map]. change (run (CallPushBit b :: map CallPushBit bits) st)
               with (run (map CallPushBit bits) (PushBit b st)).
  rewrite IH. reflexivity.
Qed.

Lemma rowBits_length matrixRow : length (rowBits matrixRow) = 96%nat.
Proof.
  unfold rowBits. change (seq 0 3) with [0; 1; 2]%nat. cbn [flat_map].
  rewrite !length_app, !length_map, !length_seq. reflexivity.
Qed.

Lemma arr_get_rowBits matrixRow ch x :
  0 <= ch < 3 -> 0 <= x < 32 ->
  arr_get (rowBits matrixRow) (ch * 32 + x) = colourBit (arr_get matrixRow x) ch.
Proof.
  intros Hch Hx. unfold rowBits. change (seq 0 3) with [0; 1; 2]%nat. cbn [flat_map].
  assert (Hc : ch = 0 \/ ch = 1 \/ ch = 2) by lia.
  destruct Hc as [-> | [-> | ->]].
  - rewrite arr_get_app by lia. rewrite length_map, length_seq.
    destruct (Z.ltb_spec (0 * 32 + x) (Z.of_nat 32)); [|lia].
    rewrite arr_get_map_seq by lia. rewrite Z2Nat.id by lia.
    replace (0 * 32 + x) with x by lia. reflexivity.
  - rewrite arr_get_app by lia. rewrite length_map, length_seq.
    destruct (Z.ltb_spec (1 * 32 + x) (Z.of_nat 32)); [lia|].
    rewrite arr_get_app by lia. rewrite length_map, length_seq.
    destruct (Z.ltb_spec (1 * 32 + x - Z.of_nat 32) (Z.of_nat 32)); [|lia].
    rewrite arr_get_map_seq by lia. rewrite Z2Nat.id by lia.
    replace (1 * 32 + x - Z.of_nat 32) with x by lia. reflexivity.
  - rewrite arr_get_app by lia. rewrite length_map, length_seq.
    destruct (Z.ltb_spec (2 * 32 + x) (Z.of_nat 32)); [lia|].
    rewrite arr_get_app by lia. rewrite length_map, length_seq.
    destruct (Z.ltb_spec (2 * 32 + x - Z.of_nat 32) (Z.of_nat 32)); [lia|].
    rewrite arr_get_app by lia. rewrite length_map, length_seq.
    destruct (Z.ltb_spec (2 * 32 + x - Z.of_nat 32 - Z.of_nat 32) (Z.of_nat 32)); [|lia].
    rewrite arr_get_map_seq by lia. rewrite Z2Nat.id by lia.
    replace (2 * 32 + x - Z.of_nat 32 - Z.of_nat 32) with x by lia. reflexivity.
Qed.

Lemma renderedRowPairs_app l1 l2 :
  renderedRowPairs (l1 ++ l2) = renderedRowPairs l1 ++ renderedRowPairs l2.
Proof.
  induction l1 as [|c l1 IH]; [reflexivity|].
  destruct c; cbn [app renderedRowPairs]; rewrite IH; reflexivity.
Qed.

Lemma LatchRegister_frame st :
  shiftRegisterBitCount (LatchRegister st) = shiftRegisterBitCount st /\
  selectedRowPairIndex (LatchRegister st) = selectedRowPairIndex st /\
  displayIsEnabled (LatchRegister st) = true.
Proof. repeat split. Qed.

Lemma SelectRow_PrepareLatch_frame row st :
  latchedFramebufferRgb (SelectRow row (PrepareLatch st)) = latchedFramebufferRgb st /\
  selectedRowPairIndex (SelectRow row (PrepareLatch st)) = Z.land (row - 1) 15 /\
  jsLog (SelectRow row (PrepareLatch st)) = jsLog st ++ [js_set_display_state 0].
Proof. repeat split. Qed.

(** One scan step on the emulator. *)
Lemma run_rowPairCalls gameMatrix i st :
  wf st -> 0 <= i < 16 ->
  let st' := run (rowPairCalls gameMatrix i) st in
  wf st' /\
  shiftRegisterBitCount st' = 192 /\
  selectedRowPairIndex st' = i /\
  displayIsEnabled st' = true /\
  renderedRowPairs (jsLog st') = renderedRowPairs (jsLog st) ++ [i] /\
  forall y x ch, 0 <= y < 32 -> 0 <= x < 32 -> 0 <= ch < 3 ->
    pixel (latchedFramebufferRgb st') y x ch =
      if y =? i then colourBit (arr_get (matrixRowAt gameMatrix i) x) ch
      else if y =? i + 16 then colourBit (arr_get (matrixRowAt gameMatrix (i + 16)) x) ch
      else pixel (latchedFramebufferRgb st) y x ch.
Proof.
  intros Hwf Hi. unfold rowPairCalls. rewrite !run_app, run_pushes.
  set (bits := rowBits (matrixRowAt gameMatrix i) ++
               rowBits (matrixRowAt gameMatrix (i + 16))).
  change (run [CallClearRow i; CallPrepareLatch; CallSelectRow (i + 1)] st)
    with (SelectRow (i + 1) (PrepareLatch (ClearRow i st))).
  set (st1 := SelectRow (i + 1) (PrepareLatch (ClearRow i st))).
  change (run [CallLatchRegister] (pushBits bits st1))
    with (LatchRegister (pushBits bits st1)).
  assert (Hwf1 : wf st1) by apply SelectRow_wf, PrepareLatch_wf, ClearRow_wf, Hwf.
  assert (Hlen : length bits = (192 + 0)%nat).
  { unfold bits. rewrite length_app, !rowBits_length. reflexivity. }
  destruct (ClearRow_frame i st) as (Hfb0 & _ & _ & _ & Hlog0).
  destruct (SelectRow_PrepareLatch_frame (i + 1) (ClearRow i st)) as (Hfb1 & Hrow1 & Hlog1).
  fold st1 in Hfb1, Hrow1, Hlog1.
  rewrite Hfb0 in Hfb1. rewrite Hlog0 in Hlog1.
  replace (Z.land (i + 1 - 1) 15) with i in Hrow1 by (rewrite land_15_mod; modlia).
  destruct (pushBits_frame bits st1) as (Hfb2 & Hrow2 & Hlog2).
  pose proof (pushBits_wf bits st1 Hwf1) as Hwf2.
  pose proof (pushBits_count bits st1 Hwf1) as Hcount2.
  destruct (LatchRegister_frame (pushBits bits st1)) as (Hcount3 & Hrow3 & Hen3).
  cbv zeta.
  split; [apply (LatchRegister_wf _ Hwf2)|].
  split; [rewrite Hcount3, Hcount2, Hlen; destruct Hwf1 as (_ & _ & _ & Hc); lia|].
  split; [rewrite Hrow3, Hrow2; exact Hrow1|].
  split; [exact Hen3|].
  split.
  - rewrite LatchRegister_jsLog, Hlog2, Hlog1, Hrow2, Hrow1.
    rewrite !renderedRowPairs_app. cbn [renderedRowPairs].
    rewrite app_nil_r, land_15_mod. f_equal. f_equal. modlia.
  - intros y x ch Hy Hx Hch.
    rewrite LatchRegister_pixel by (try assumption; rewrite Hfb2; apply Hwf1).
    rewrite Hrow2, Hrow1, Hfb2, Hfb1.
    replace (Z.land i 15) with i by (rewrite land_15_mod; modlia).
    destruct (y =? i).
    + rewrite (shiftRegisterGetBit_pushBits 0) by (try assumption; lia).
      unfold bits. rewrite arr_get_app by lia. rewrite rowBits_length.
      destruct (Z.ltb_spec (Z.of_nat 0 + (ch * 32 + x)) (Z.of_nat 96)); [|lia].
      replace (Z.of_nat 0 + (ch * 32 + x)) with (ch * 32 + x) by lia.
      rewrite arr_get_rowBits by lia. apply bitOf_colourBit.
    + destruct (y =? i + 16); [|reflexivity].
      rewrite (shiftRegisterGetBit_pushBits 0) by (try assumption; lia).
      unfold bits. rewrite arr_get_app by lia. rewrite rowBits_length.
      destruct (Z.ltb_spec (Z.of_nat 0 + ((3 + ch) * 32 + x)) (Z.of_nat 96)); [lia|].
      replace (Z.of_nat 0 + ((3 + ch) * 32 + x) - Z.of_nat 96) with (ch * 32 + x) by lia.
      rewrite arr_get_rowBits by lia. apply bitOf_colourBit.
Qed.

Lemma scanCallsUpTo_S gameMatrix n :
  scanCallsUpTo gameMatrix (Datatypes.S n) =
    scanCallsUpTo gameMatrix n ++ rowPairCalls gameMatrix (Z.of_nat n).
Proof.
  unfold scanCallsUpTo. rewrite (seq_S n 0), flat_map_app.
  cbn [flat_map Nat.add]. rewrite app_nil_r. reflexivity.
Qed.

(** The first [n] scan steps on the emulator. *)
Lemma run_scanCallsUpTo gameMatrix n : forall st,
  wf st -> (n <= 16)%nat ->
  let st' := run (scanCallsUpTo gameMatrix n) st in
  wf st' /\
  renderedRowPairs (jsLog st') =
    renderedRowPairs (jsLog st) ++ map Z.of_nat (seq 0 n) /\
  (n <> 0%nat ->
     shiftRegisterBitCount st' = 192 /\
     selectedRowPairIndex st' = Z.of_nat n - 1 /\
     displayIsEnabled st' = true) /\
  forall y x ch, 0 <= y < 32 -> 0 <= x < 32 -> 0 <= ch < 3 ->
    pixel (latchedFramebufferRgb st') y x ch =
      if y `mod` 16 <? Z.of_nat n
      then colourBit (arr_get gameMatrix (y * 32 + x)) ch
      else pixel (latchedFramebufferRgb st) y x ch.
Proof.
  induction n as [|n IH]; intros st Hwf Hn; cbv zeta.
  - change (run (scanCallsUpTo gameMatrix 0) st) with st.
    split; [exact Hwf|]. split; [cbn [seq map]; rewrite app_nil_r; reflexivity|].
    split; [intros Hne; contradiction|].
    intros y x ch Hy Hx Hch.
    destruct (Z.ltb_spec (y `mod` 16) (Z.of_nat 0)); [modlia | reflexivity].
  - rewrite scanCallsUpTo_S, run_app.
    destruct (IH st Hwf ltac:(lia)) as (Hwf' & Hlog' & _ & Hpix').
    set (st' := run (scanCallsUpTo gameMatrix n) st) in *.
    destruct (run_rowPairCalls gameMatrix (Z.of_nat n) st' Hwf' ltac:(lia))
      as (Hwf2 & Hcount2 & Hrow2 & Hen2 & Hlog2 & Hpix2).
    split; [exact Hwf2|]. split.
    { rewrite Hlog2, Hlog', (seq_S n 0), map_app, <- app_assoc. reflexivity. }
    split.
    { intros _. split; [exact Hcount2|]. split; [rewrite Hrow2; lia | exact Hen2]. }
    intros y x ch Hy Hx Hch.
    rewrite (Hpix2 y x ch Hy Hx Hch), (Hpix' y x ch Hy Hx Hch).
    destruct (Z.eqb_spec y (Z.of_nat n)) as [Heq|Hne].
    + destruct (Z.ltb_spec (y `mod` 16) (Z.of_nat (Datatypes.S n))); [|modlia].
      rewrite arr_get_matrixRowAt by lia. subst y. reflexivity.
    + destruct (Z.eqb_spec y (Z.of_nat n + 16)) as [Heq2|Hne2].
      * destruct (Z.ltb_spec (y `mod` 16) (Z.of_nat (Datatypes.S n))); [|modlia].
        rewrite arr_get_matrixRowAt by lia. subst y. reflexivity.
      * destruct (Z.ltb_spec (y `mod` 16) (Z.of_nat n)),
                 (Z.ltb_spec (y `mod` 16) (Z.of_nat (Datatypes.S n)));
          try reflexivity; modlia.
Qed.

(** X11.  One pass of [updateDisplay] on the emulator shows the whole
    logical framebuffer: from any well-formed panel state and for any 32 by
    32 matrix of colour codes, every pixel of the latched framebuffer ends
    up with the R, G, B bits of the colour code at the same place of
    [gameMatrix], whatever was latched before. *)
Theorem updateDisplay_shows_gameMatrix
    (uninit : Z -> Z) (gameMatrix : list Z) (st : Panel) (y x ch : Z) :
  wf st ->
  length gameMatrix = 1024%nat ->
  forallb isColourCode gameMatrix = true ->
  0 <= y < 32 -> 0 <= x < 32 -> 0 <= ch < 3 ->
  pixel (latchedFramebufferRgb (updateDisplay emulatorHAL uninit gameMatrix st)) y x ch =
    table2 colours (colourSwitch (arr_get gameMatrix (y * panelWidth + x)) 0) ch.
Proof.
  intros Hwf Hlen Hcodes Hy Hx Hch.
  rewrite updateDisplay_runHAL
    by (first [intros ms s; reflexivity | exact Hlen | apply forallb_Forall, Hcodes]).
  rewrite run_emulatorHAL. unfold scanCalls.
  destruct (run_scanCallsUpTo gameMatrix 16 st Hwf ltac:(lia)) as (_ & _ & _ & Hpix).
  rewrite (Hpix y x ch Hy Hx Hch).
  destruct (Z.ltb_spec (y `mod` 16) (Z.of_nat 16)); [reflexivity | modlia].
Qed.

Lemma updateDisplay_shows_gameMatrix_witness :
  wf examplePanel /\
  length exampleMatrix = 1024%nat /\
  forallb isColourCode exampleMatrix = true /\
  0 <= 21 < 32 /\ 0 <= 7 < 32 /\ 0 <= 0 < 3 /\
  pixel (latchedFramebufferRgb
           (updateDisplay emulatorHAL (fun _ => 0) exampleMatrix examplePanel)) 21 7 0 =
    table2 colours (colourSwitch (arr_get exampleMatrix (21 * panelWidth + 7)) 0) 0.
Proof.
  assert (Hwf : wf examplePanel) by (unfold wf; by_computation).
  assert (Hlen : length exampleMatrix = 1024%nat) by (vm_compute; reflexivity).
  assert (Hcodes : forallb isColourCode exampleMatrix = true) by (vm_compute; reflexivity).
  assert (Hy : 0 <= 21 < 32) by lia.
  assert (Hx : 0 <= 7 < 32) by lia.
  assert (Hch : 0 <= 0 < 3) by lia.
  split; [exact Hwf|]. split; [exact Hlen|]. split; [exact Hcodes|].
  split; [exact Hy|]. split; [exact Hx|]. split; [exact Hch|].
  exact (updateDisplay_shows_gameMatrix (fun _ => 0) exampleMatrix examplePanel 21 7 0
           Hwf Hlen Hcodes Hy Hx Hch).
Defined.

(** X12.  One pass of [updateDisplay] on the emulator hands the renderer
    16 frames, one per row pair, in the order 0, 1, ..., 15, and ends with
    the register full, row address 15 selected and the display enabled. *)
Theorem updateDisplay_renders_each_row_pair_once
    (uninit : Z -> Z) (gameMatrix : list Z) (st : Panel) :
  wf st ->
  length gameMatrix = 1024%nat ->
  forallb isColourCode gameMatrix = true ->
  let st' := updateDisplay emulatorHAL uninit gameMatrix st in
  renderedRowPairs (jsLog st') =
    renderedRowPairs (jsLog st) ++ [0; 1; 2; 3; 4; 5; 6; 7; 8; 9; 10; 11; 12; 13; 14; 15] /\
  wf st' /\
  shiftRegisterBitCount st' = 192 /\
  selectedRowPairIndex st' = 15 /\
  displayIsEnabled st' = true.
Proof.
  intros Hwf Hlen Hcodes. cbv zeta.
  rewrite updateDisplay_runHAL
    by (first [intros ms s; reflexivity | exact Hlen | apply forallb_Forall, Hcodes]).
  rewrite run_emulatorHAL. unfold scanCalls.
  destruct (run_scanCallsUpTo gameMatrix 16 st Hwf ltac:(lia)) as (Hwf' & Hlog & Hend & _).
  destruct (Hend ltac:(lia)) as (Hcount & Hrow & Hen).
  split; [exact Hlog|]. split; [exact Hwf'|]. split; [exact Hcount|].
  split; [exact Hrow | exact Hen].
Qed.

Lemma updateDisplay_renders_each_row_pair_once_witness :
  wf examplePanel /\
  length exampleMatrix = 1024%nat /\
  forallb isColourCode exampleMatrix = true /\
  let st' := updateDisplay emulatorHAL (fun _ => 0) exampleMatrix examplePanel in
  renderedRowPairs (jsLog st') =
    renderedRowPairs (jsLog examplePanel) ++
      [0; 1; 2; 3; 4; 5; 6; 7; 8; 9; 10; 11; 12; 13; 14; 15] /\
  wf st' /\
  shiftRegisterBitCount st' = 192 /\
  selectedRowPairIndex st' = 15 /\
  displayIsEnabled st' = true.
Proof.
  assert (Hwf : wf examplePanel) by (unfold wf; by_computation).
  assert (Hlen : length exampleMatrix = 1024%nat) by (vm_compute; reflexivity).
  assert (Hcodes : forallb isColourCode exampleMatrix = true) by (vm_compute; reflexivity).
  split; [exact Hwf|]. split; [exact Hlen|]. split; [exact Hcodes|].
  exact (updateDisplay_renders_each_row_pair_once (fun _ => 0) exampleMatrix examplePanel
           Hwf Hlen Hcodes).
Defined.

(** ** [displayRow] on a character that is no colour code *)

(** The loop rule for two loops over the same range. *)
Lemma for_range_ind2 {A B : Type} (P : Z -> A -> B -> Prop) lo hi f g (a : A) (b : B) :
  lo <= hi ->
  P lo a b ->
  (forall x s t, lo <= x < hi -> P x s t -> P (x + 1) (f x s) (g x t)) ->
  P hi (for_range lo hi f a) (for_range lo hi g b).
Proof.
  intros Hle H0 Hstep. unfold for_range.
  assert (Hgen : forall fuel x s t,
             fuel = Z.to_nat (hi - x) -> lo <= x <= hi -> P x s t ->
             P hi (for_loop fuel x hi f s) (for_loop fuel x hi g t)).
  { induction fuel as [|fuel IH]; intros x s t Hf Hx Hp; cbn [for_loop].
    - assert (x = hi) by lia. subst x. exact Hp.
    - destruct (Z.ltb_spec x hi) as [Hlt|Hge]; [|lia].
      apply IH; [lia | lia | apply Hstep; [lia | exact Hp]]. }
  apply Hgen; [reflexivity | lia | exact H0].
Qed.

(** X13.  The [switch] of [displayRow] has no [default].  In a row that
    starts with a colour code, a character that is none of the eight colour
    codes, standing right of a colour code, is shifted out with the colour
    of that left neighbour: the calls made for the row are those made for
    the row with the character replaced by its left neighbour.  In such a
    row the uninitialised local is overwritten before it is read, so the
    calls do not depend on what it held. *)
Theorem displayRow_unknown_character_takes_left_colour {St : Type} (H : PanelHAL St)
    (colourIndex0 : Z) (matrixRow : list Z) (x : Z) (st : St) :
  length matrixRow = 32%nat ->
  isColourCode (arr_get matrixRow 0) = true ->
  1 <= x < 32 ->
  isColourCode (arr_get matrixRow (x - 1)) = true ->
  isColourCode (arr_get matrixRow x) = false ->
  displayRow H colourIndex0 matrixRow st =
    displayRow H colourIndex0 (arr_set matrixRow x (arr_get matrixRow (x - 1))) st /\
  (forall other : Z,
     displayRow H other matrixRow st = displayRow H colourIndex0 matrixRow st).
Proof.
  intros Hlen Hfirst Hx Hleft Hunknown. split.
  - unfold displayRow. f_equal.
    apply (for_range_ind2 (fun _ p q => p = q)); [lia | reflexivity |].
    intros j p q Hj <-.
    refine (proj1 (for_range_ind2
               (fun i (s t : Z * St) =>
                  s = t /\ (i = x -> fst s = colourSwitch (arr_get matrixRow (x - 1)) 0))
               0 panelWidth _ _ p p _ _ _)).
    + unfold panelWidth. lia.
    + split; [reflexivity | lia].
    + unfold panelWidth. intros i [ci s] t Hi [<- Hci]. cbn [fst] in Hci. cbv zeta.
      rewrite arr_get_set by lia.
      case_decide as Heq.
      * subst i. rewrite (Hci eq_refl).
        rewrite (colourSwitch_other _ _ Hunknown).
        rewrite (colourSwitch_code (arr_get matrixRow (x - 1))
                   (colourSwitch (arr_get matrixRow (x - 1)) 0) Hleft).
        split; [reflexivity | lia].
      * split; [reflexivity|]. intros Hnext. cbn [fst].
        replace i with (x - 1) by lia.
        apply colourSwitch_code, Hleft.
  - intros other. unfold displayRow.
    apply (for_range_ind2 (fun _ (p q : Z * St) => snd p = snd q));
      [lia | reflexivity |].
    intros j p q Hj Hpq.
    refine (f_equal snd
              (proj2 (for_range_ind2
                 (fun i (s t : Z * St) => snd s = snd t /\ (1 <= i -> s = t))
                 0 panelWidth _ _ p q _ _ _) _)).
    + unfold panelWidth. lia.
    + split; [exact Hpq | lia].
    + unfold panelWidth. intros i [ci s] [ci' s'] Hi [Hsnd Hall].
      cbn [snd] in Hsnd. subst s'.
      destruct (Z.eq_dec i 0) as [->|Hne].
      * rewrite (colourSwitch_code _ ci Hfirst), (colourSwitch_code _ ci' Hfirst).
        split; [reflexivity | intros _; reflexivity].
      * assert (Hsame : (ci, s) = (ci', s)) by (apply Hall; lia).
        injection Hsame as ->. split; [reflexivity | intros _; reflexivity].
    + unfold panelWidth. lia.
Qed.

Lemma displayRow_unknown_character_takes_left_colour_witness :
  length (replicate 8 (chr "G") ++ [chr "?"] ++ replicate 23 (chr "B")) = 32%nat /\
  isColourCode (arr_get (replicate 8 (chr "G") ++ [chr "?"] ++ replicate 23 (chr "B"))
                        0) = true /\
  1 <= 8 < 32 /\
  isColourCode (arr_get (replicate 8 (chr "G") ++ [chr "?"] ++ replicate 23 (chr "B"))
                        (8 - 1)) = true /\
  isColourCode (arr_get (replicate 8 (chr "G") ++ [chr "?"] ++ replicate 23 (chr "B"))
                        8) = false /\
  displayRow emulatorHAL 0 (replicate 8 (chr "G") ++ [chr "?"] ++ replicate 23 (chr "B"))
             examplePanel =
    displayRow emulatorHAL 0
      (arr_set (replicate 8 (chr "G") ++ [chr "?"] ++ replicate 23 (chr "B")) 8
               (arr_get (replicate 8 (chr "G") ++ [chr "?"] ++ replicate 23 (chr "B"))
                        (8 - 1)))
      examplePanel /\
  (forall other : Z,
     displayRow emulatorHAL other
                (replicate 8 (chr "G") ++ [chr "?"] ++ replicate 23 (chr "B")) examplePanel =
     displayRow emulatorHAL 0
                (replicate 8 (chr "G") ++ [chr "?"] ++ replicate 23 (chr "B")) examplePanel).
Proof.
  assert (Hlen : length (replicate 8 (chr "G") ++ [chr "?"] ++ replicate 23 (chr "B"))
                 = 32%nat) by (vm_compute; reflexivity).
  assert (Hfirst : isColourCode
                     (arr_get (replicate 8 (chr "G") ++ [chr "?"] ++ replicate 23 (chr "B"))
                              0) = true) by (vm_compute; reflexivity).
  assert (Hx : 1 <= 8 < 32) by lia.
  assert (Hleft : isColourCode
                    (arr_get (replicate 8 (chr "G") ++ [chr "?"] ++ replicate 23 (chr "B"))
                             (8 - 1)) = true) by (vm_compute; reflexivity).
  assert (Hunknown : isColourCode
                       (arr_get (replicate 8 (chr "G") ++ [chr "?"] ++ replicate 23 (chr "B"))
                                8) = false) by (vm_compute; reflexivity).
  split; [exact Hlen|]. split; [exact Hfirst|]. split; [exact Hx|].
  split; [exact Hleft|]. split; [exact Hunknown|].
  exact (displayRow_unknown_character_takes_left_colour emulatorHAL 0
           (replicate 8 (chr "G") ++ [chr "?"] ++ replicate 23 (chr "B")) 8 examplePanel
           Hlen Hfirst Hx Hleft Hunknown).
Defined.

(** ** game.c: loops that write one cell per turn *)

Lemma for_range_ext {A : Type} lo hi (f g : Z -> A -> A) (a : A) :
  lo <= hi ->
  (forall x s, lo <= x < hi -> f x s = g x s) ->
  for_range lo hi f a = for_range lo hi g a.
Proof.
  intros Hle Hfg.
  apply (for_range_ind2 (fun _ s t => s = t)); [exact Hle | reflexivity |].
  intros x s t Hx <-. apply Hfg, Hx.
Qed.

Lemma scatter1_spec n guard idx val m :
  0 <= n ->
  (forall j, 0 <= j < n -> guard j = true -> 0 <= idx j < Z.of_nat (length m)) ->
  (forall j j', 0 <= j < n -> 0 <= j' < n -> guard j = true -> guard j' = true ->
     idx j = idx j' -> j = j') ->
  length (scatter1 n guard idx val m) = length m /\
  (forall j, 0 <= j < n -> guard j = true ->
     arr_get (scatter1 n guard idx val m) (idx j) = val j) /\
  (forall c, (forall j, 0 <= j < n -> guard j = true -> idx j <> c) ->
     arr_get (scatter1 n guard idx val m) c = arr_get m c).
Proof.
  intros Hn Hrange Hinj. unfold scatter1.
  apply (for_range_ind
           (fun k r =>
              length r = length m /\
              (forall j, 0 <= j < k -> guard j = true -> arr_get r (idx j) = val j) /\
              (forall c, (forall j, 0 <= j < k -> guard j = true -> idx j <> c) ->
                 arr_get r c = arr_get m c))).
  - exact Hn.
  - split; [reflexivity|]. split; [intros j Hj; lia | reflexivity].
  - intros k r Hk (Hlen & Hset & Hkeep).
    destruct (guard k) eqn:Hg.
    + split; [rewrite arr_set_length; exact Hlen|]. split.
      * intros j Hj Hgj. rewrite arr_get_set by (rewrite Hlen; apply Hrange; assumption).
        case_decide as Heq.
        -- assert (j = k) by (apply Hinj; (assumption || lia)). subst j. reflexivity.
        -- apply Hset; [|exact Hgj].
           assert (j <> k) by (intros ->; apply Heq; reflexivity). lia.
      * intros c Hc. rewrite arr_get_set by (rewrite Hlen; apply Hrange; assumption).
        case_decide as Heq.
        -- exfalso. apply (Hc k); [lia | exact Hg | symmetry; exact Heq].
        -- apply Hkeep. intros j Hj. apply Hc. lia.
    + split; [exact Hlen|]. split.
      * intros j Hj Hgj. apply Hset; [|exact Hgj].
        assert (j <> k) by (intros ->; congruence). lia.
      * intros c Hc. apply Hkeep. intros j Hj. apply Hc. lia.
Qed.

Lemma scatter2_spec n1 n2 guard idx val m :
  0 <= n1 -> 0 <= n2 ->
  (forall i j, 0 <= i < n1 -> 0 <= j < n2 -> guard i j = true ->
     0 <= idx i j < Z.of_nat (length m)) ->
  (forall i j i' j', 0 <= i < n1 -> 0 <= j < n2 -> 0 <= i' < n1 -> 0 <= j' < n2 ->
     guard i j = true -> guard i' j' = true ->
     idx i j = idx i' j' -> i = i' /\ j = j') ->
  length (scatter2 n1 n2 guard idx val m) = length m /\
  (forall i j, 0 <= i < n1 -> 0 <= j < n2 -> guard i j = true ->
     arr_get (scatter2 n1 n2 guard idx val m) (idx i j) = val i j) /\
  (forall c, (forall i j, 0 <= i < n1 -> 0 <= j < n2 -> guard i j = true -> idx i j <> c) ->
     arr_get (scatter2 n1 n2 guard idx val m) c = arr_get m c).
Proof.
  intros Hn1 Hn2 Hrange Hinj. unfold scatter2.
  apply (for_range_ind
           (fun k r =>
              length r = length m /\
              (forall i j, 0 <= i < k -> 0 <= j < n2 -> guard i j = true ->
                 arr_get r (idx i j) = val i j) /\
              (forall c, (forall i j, 0 <= i < k -> 0 <= j < n2 -> guard i j = true ->
                            idx i j <> c) ->
                 arr_get r c = arr_get m c))).
  - exact Hn1.
  - split; [reflexivity|]. split; [intros i j Hi; lia | reflexivity].
  - intros k r Hk (Hlen & Hset & Hkeep).
    destruct (scatter1_spec n2 (guard k) (idx k) (val k) r Hn2) as (Hlen' & Hset' & Hkeep').
    { intros j Hj Hg. rewrite Hlen. apply Hrange; assumption. }
    { intros j j' Hj Hj' Hg Hg' Heq.
      apply (Hinj k j k j'); assumption. }
    split; [rewrite Hlen'; exact Hlen|]. split.
    + intros i j Hi Hj Hg.
      destruct (Z.eq_dec i k) as [->|Hne]; [apply Hset'; assumption|].
      rewrite Hkeep'.
      * apply Hset; [lia | exact Hj | exact Hg].
      * intros j' Hj' Hg' Heq.
        destruct (Hinj k j' i j) as [Hik _]; try assumption; try lia.
    + intros c Hc. rewrite Hkeep'.
      * apply Hkeep. intros i j Hi. apply Hc. lia.
      * intros j Hj. apply Hc; [lia | exact Hj].
Qed.

Lemma Forall_arr_get (P : Z -> Prop) a :
  (forall c, 0 <= c < Z.of_nat (length a) -> P (arr_get a c)) -> Forall P a.
Proof.
  intros H. apply Forall_lookup. intros i v Hv.
  pose proof (lookup_lt_Some _ _ _ Hv) as Hi.
  specialize (H (Z.of_nat i) ltac:(lia)). unfold arr_get in H.
  destruct (Z.leb_spec 0 (Z.of_nat i)) as [_|]; [|lia].
  rewrite Nat2Z.id, Hv in H. exact H.
Qed.

(** Cell coordinates of the 32 by 32 matrix. *)
Lemma matrix_cell c :
  0 <= c < 1024 ->
  c = (c / 32) * panelWidth + c `mod` 32 /\ 0 <= c / 32 < 32 /\ 0 <= c `mod` 32 < 32.
Proof. intros Hc. unfold panelWidth. modlia. Qed.

(** ** game.c: glyphs *)

(** The loop nest shared by [drawDigit] and [drawCharacter]: a glyph of
    [h] rows and 4 columns, clipped to the panel. *)
Lemma glyph_loop_spec h (bit : Z -> Z -> Z) fg bg sx sy m :
  0 <= h -> length m = 1024%nat ->
  let r :=
    for_range 0 h
      (fun i m =>
         let y := sy + i in
         for_range 0 4
           (fun j m =>
              let x := sx + j in
              if (0 <=? y) && (y <? panelHeight) && (0 <=? x) && (x <? panelWidth)
              then if bit i j =? 1
                   then matrix_set m y x fg
                   else matrix_set m y x bg
              else m) m)
      m in
  length r = 1024%nat /\
  forall y x, 0 <= y < 32 -> 0 <= x < 32 ->
    matrix_get r y x =
      if (sy <=? y) && (y <? sy + h) && (sx <=? x) && (x <? sx + 4)
      then (if bit (y - sy) (x - sx) =? 1 then fg else bg)
      else matrix_get m y x.
Proof.
  intros Hh Hlen.
  set (guard := fun i j : Z =>
         (0 <=? sy + i) && (sy + i <? panelHeight) && (0 <=? sx + j) && (sx + j <? panelWidth)).
  set (idx := fun i j : Z => (sy + i) * panelWidth + (sx + j)).
  set (val := fun i j : Z => if bit i j =? 1 then fg else bg).
  assert (Hloop :
    for_range 0 h
      (fun i m =>
         let y := sy + i in
         for_range 0 4
           (fun j m =>
              let x := sx + j in
              if (0 <=? y) && (y <? panelHeight) && (0 <=? x) && (x <? panelWidth)
              then if bit i j =? 1
                   then matrix_set m y x fg
                   else matrix_set m y x bg
              else m) m)
      m = scatter2 h 4 guard idx val m).
  { unfold scatter2. apply for_range_ext; [exact Hh|].
    intros i s Hi. cbv zeta. unfold scatter1. apply for_range_ext; [lia|].
    intros j t Hj. unfold guard, idx, val, matrix_set.
    destruct ((0 <=? sy + i) && (sy + i <? panelHeight) && (0 <=? sx + j) &&
              (sx + j <? panelWidth)); [|reflexivity].
    destruct (bit i j =? 1); reflexivity. }
  intros r. subst r. rewrite Hloop.
  assert (Hguard : forall i j, guard i j = true ->
            0 <= sy + i < 32 /\ 0 <= sx + j < 32).
  { intros i j Hg. unfold guard, panelHeight, panelWidth in Hg.
    apply andb_prop in Hg as [Hg H4]. apply andb_prop in Hg as [Hg H3].
    apply andb_prop in Hg as [H1 H2].
    apply Z.leb_le in H1, H3. apply Z.ltb_lt in H2, H4. lia. }
  destruct (scatter2_spec h 4 guard idx val m Hh ltac:(lia)) as (Hlen' & Hset & Hkeep).
  { intros i j Hi Hj Hg. destruct (Hguard i j Hg). rewrite Hlen.
    unfold idx, panelWidth. lia. }
  { intros i j i' j' Hi Hj Hi' Hj' Hg Hg'.
    destruct (Hguard i j Hg), (Hguard i' j' Hg').
    unfold idx, panelWidth. lia. }
  split; [rewrite Hlen'; exact Hlen|].
  intros y x Hy Hx. unfold matrix_get.
  destruct ((sy <=? y) && (y <? sy + h) && (sx <=? x) && (x <? sx + 4)) eqn:Hbox.
  - apply andb_prop in Hbox as [Hbox H4]. apply andb_prop in Hbox as [Hbox H3].
    apply andb_prop in Hbox as [H1 H2].
    apply Z.leb_le in H1, H3. apply Z.ltb_lt in H2, H4.
    replace (y * panelWidth + x) with (idx (y - sy) (x - sx))
      by (unfold idx, panelWidth; lia).
    apply Hset; [lia | lia |].
    unfold guard, panelHeight, panelWidth.
    replace (sy + (y - sy)) with y by lia. replace (sx + (x - sx)) with x by lia.
    destruct (Z.leb_spec 0 y), (Z.ltb_spec y 32), (Z.leb_spec 0 x), (Z.ltb_spec x 32);
      (reflexivity || lia).
  - apply Hkeep. intros i j Hi Hj Hg Heq.
    destruct (Hguard i j Hg). unfold idx, panelWidth in Heq.
    assert (y = sy + i /\ x = sx + j) as [-> ->] by lia.
    destruct (Z.leb_spec sy (sy + i)), (Z.ltb_spec (sy + i) (sy + h)),
             (Z.leb_spec sx (sx + j)), (Z.ltb_spec (sx + j) (sx + 4));
      cbn in Hbox; (discriminate Hbox || lia).
Qed.

(** X14.  [drawDigit] draws a digit glyph clipped to the panel: for a digit
    0..9 and any start position, on or off the panel, every cell of the 5
    by 4 box that lies on the panel becomes [scoreColour] where the glyph
    has a 1 and ['X'] where it has a 0; every other cell, and the size of
    the matrix, stay as they were. *)
Theorem drawDigit_draws_clipped_glyph
    (g : Game) (digit startingX startingY y x : Z) :
  0 <= digit <= 9 ->
  length (gameMatrix g) = 1024%nat ->
  0 <= y < 32 -> 0 <= x < 32 ->
  let g' := drawDigit digit startingX startingY g in
  length (gameMatrix g') = 1024%nat /\
  matrix_get (gameMatrix g') y x =
    if (startingY <=? y) && (y <? startingY + 5) &&
       (startingX <=? x) && (x <? startingX + 4)
    then (if table3 digits digit (y - startingY) (x - startingX) =? 1
          then scoreColour g else chr "X")
    else matrix_get (gameMatrix g) y x.
Proof.
  intros Hdigit Hlen Hy Hx. cbv zeta. unfold drawDigit. cbn [gameMatrix set_gameMatrix].
  destruct (glyph_loop_spec 5 (table3 digits digit) (scoreColour g) (chr "X")
              startingX startingY (gameMatrix g) ltac:(lia) Hlen) as [Hlen' Hcell].
  split; [exact Hlen' | apply Hcell; assumption].
Qed.

Lemma drawDigit_draws_clipped_glyph_witness :
  0 <= 7 <= 9 /\
  length (gameMatrix exampleGame) = 1024%nat /\
  0 <= 0 < 32 /\ 0 <= 31 < 32 /\
  let g' := drawDigit 7 30 (-2) exampleGame in
  length (gameMatrix g') = 1024%nat /\
  matrix_get (gameMatrix g') 0 31 =
    if (-2 <=? 0) && (0 <? -2 + 5) && (30 <=? 31) && (31 <? 30 + 4)
    then (if table3 digits 7 (0 - -2) (31 - 30) =? 1
          then scoreColour exampleGame else chr "X")
    else matrix_get (gameMatrix exampleGame) 0 31.
Proof.
  assert (Hd : 0 <= 7 <= 9) by lia.
  assert (Hlen : length (gameMatrix exampleGame) = 1024%nat) by (vm_compute; reflexivity).
  assert (Hy : 0 <= 0 < 32) by lia.
  assert (Hx : 0 <= 31 < 32) by lia.
  split; [exact Hd|]. split; [exact Hlen|]. split; [exact Hy|]. split; [exact Hx|].
  exact (drawDigit_draws_clipped_glyph exampleGame 7 30 (-2) 0 31 Hd Hlen Hy Hx).
Defined.

Lemma glyphSwitch_known character index :
  isGlyphCharacter character = true ->
  glyphSwitch character index = glyphSwitch character 0.
Proof.
  unfold isGlyphCharacter, glyphSwitch.
  repeat (match goal with
          | |- context [if ?c =? ?k then _ else _] =>
              destruct (c =? k); [reflexivity|]
          end).
  intros H. discriminate H.
Qed.

(** X15.  [drawCharacter] draws a text glyph clipped to the panel: for one
    of the eleven characters it knows and any start position, every cell
    of the 6 by 4 box that lies on the panel becomes [textColour] where the
    glyph has a 1 and [textBackgroundColour] where it has a 0; every other
    cell, and the size of the matrix, stay as they were.  The uninitialised
    local is not read. *)
Theorem drawCharacter_draws_clipped_glyph
    (g : Game) (index0 character startingX startingY y x : Z) :
  isGlyphCharacter character = true ->
  length (gameMatrix g) = 1024%nat ->
  0 <= y < 32 -> 0 <= x < 32 ->
  let g' := drawCharacter index0 character startingX startingY g in
  length (gameMatrix g') = 1024%nat /\
  matrix_get (gameMatrix g') y x =
    if (startingY <=? y) && (y <? startingY + 6) &&
       (startingX <=? x) && (x <? startingX + 4)
    then (if table3 displayDigits (glyphSwitch character 0)
                    (y - startingY) (x - startingX) =? 1
          then textColour g else textBackgroundColour g)
    else matrix_get (gameMatrix g) y x.
Proof.
  intros Hchar Hlen Hy Hx. cbv zeta. unfold drawCharacter.
  cbn [gameMatrix set_gameMatrix]. rewrite (glyphSwitch_known _ index0 Hchar).
  destruct (glyph_loop_spec 6 (table3 displayDigits (glyphSwitch character 0))
              (textColour g) (textBackgroundColour g)
              startingX startingY (gameMatrix g) ltac:(lia) Hlen) as [Hlen' Hcell].
  split; [exact Hlen' | apply Hcell; assumption].
Qed.

Lemma drawCharacter_draws_clipped_glyph_witness :
  isGlyphCharacter (chr "S") = true /\
  length (gameMatrix exampleGame) = 1024%nat /\
  0 <= 13 < 32 /\ 0 <= 5 < 32 /\
  let g' := drawCharacter 99 (chr "S") 4 13 exampleGame in
  length (gameMatrix g') = 1024%nat /\
  matrix_get (gameMatrix g') 13 5 =
    if (13 <=? 13) && (13 <? 13 + 6) && (4 <=? 5) && (5 <? 4 + 4)
    then (if table3 displayDigits (glyphSwitch (chr "S") 0) (13 - 13) (5 - 4) =? 1
          then textColour exampleGame else textBackgroundColour exampleGame)
    else matrix_get (gameMatrix exampleGame) 13 5.
Proof.
  assert (Hc : isGlyphCharacter (chr "S") = true) by (vm_compute; reflexivity).
  assert (Hlen : length (gameMatrix exampleGame) = 1024%nat) by (vm_compute; reflexivity).
  assert (Hy : 0 <= 13 < 32) by lia.
  assert (Hx : 0 <= 5 < 32) by lia.
  split; [exact Hc|]. split; [exact Hlen|]. split; [exact Hy|]. split; [exact Hx|].
  exact (drawCharacter_draws_clipped_glyph exampleGame 99 (chr "S") 4 13 13 5
           Hc Hlen Hy Hx).
Defined.

(** ** game.c: paddles, net, borders *)

Lemma gameMatrix_set_gameMatrix m g : gameMatrix (set_gameMatrix m g) = m.
Proof. reflexivity. Qed.

(** The loop nest of [eraseOldPaddles] and [drawPaddle]: a rectangle of
    [w] columns and [h] rows filled with one code. *)
Lemma paddle_loop_spec w h px py c m :
  0 <= w -> 0 <= h -> length m = 1024%nat ->
  0 <= px -> px + w <= 32 -> 0 <= py -> py + h <= 32 ->
  let r :=
    for_range 0 w
      (fun i m =>
         let x := px + i in
         for_range 0 h (fun j m => let y := py + j in matrix_set m y x c) m)
      m in
  length r = 1024%nat /\
  forall y x, 0 <= y < 32 -> 0 <= x < 32 ->
    matrix_get r y x =
      if (px <=? x) && (x <? px + w) && (py <=? y) && (y <? py + h)
      then c else matrix_get m y x.
Proof.
  intros Hw Hh Hlen Hpx Hpxw Hpy Hpyh.
  set (idx := fun i j : Z => (py + j) * panelWidth + (px + i)).
  assert (Hloop :
    for_range 0 w
      (fun i m =>
         let x := px + i in
         for_range 0 h (fun j m => let y := py + j in matrix_set m y x c) m)
      m = scatter2 w h (fun _ _ => true) idx (fun _ _ => c) m).
  { unfold scatter2. apply for_range_ext; [exact Hw|].
    intros i s Hi. cbv zeta. unfold scatter1. apply for_range_ext; [lia|].
    intros j t Hj. reflexivity. }
  intros r. subst r. rewrite Hloop.
  destruct (scatter2_spec w h (fun _ _ => true) idx (fun _ _ => c) m Hw Hh)
    as (Hlen' & Hset & Hkeep).
  { intros i j Hi Hj _. rewrite Hlen. unfold idx, panelWidth. lia. }
  { intros i j i' j' Hi Hj Hi' Hj' _ _. unfold idx, panelWidth. lia. }
  split; [rewrite Hlen'; exact Hlen|].
  intros y x Hy Hx. unfold matrix_get.
  destruct (Z.leb_spec px x), (Z.ltb_spec x (px + w)),
           (Z.leb_spec py y), (Z.ltb_spec y (py + h)); cbn [andb];
    try (apply Hkeep; intros i j Hi Hj _; unfold idx, panelWidth; lia).
  replace (y * panelWidth + x) with (idx (x - px) (y - py))
    by (unfold idx, panelWidth; lia).
  apply Hset; (reflexivity || lia).
Qed.

Lemma drawPaddle_cells
    (g : Game) (paddleX paddleY oldPaddleY paddleColour y x : Z) :
  length (gameMatrix g) = 1024%nat ->
  0 <= paddleX < 32 -> 0 <= paddleY <= 28 -> 0 <= oldPaddleY <= 28 ->
  0 <= y < 32 -> 0 <= x < 32 ->
  let g' := drawPaddle paddleX paddleY oldPaddleY paddleColour g in
  length (gameMatrix g') = 1024%nat /\
  matrix_get (gameMatrix g') y x =
    if (x =? paddleX) && (paddleY <=? y) && (y <? paddleY + paddleHeight)
    then paddleColour
    else if (x =? paddleX) && (oldPaddleY <=? y) && (y <? oldPaddleY + paddleHeight)
    then chr "X"
    else matrix_get (gameMatrix g) y x.
Proof.
  intros Hlen Hpx Hpy Hold Hy Hx.
  unfold drawPaddle, eraseOldPaddles, paddleWidth, paddleHeight.
  cbv zeta. cbn [gameMatrix set_gameMatrix].
  pose proof (paddle_loop_spec 1 4 paddleX oldPaddleY (chr "X") (gameMatrix g)
                ltac:(lia) ltac:(lia) Hlen ltac:(lia) ltac:(lia) ltac:(lia) ltac:(lia))
    as H1.
  cbv zeta in H1. destruct H1 as [Hlen1 Hcell1].
  match type of Hlen1 with length ?t = _ => set (m1 := t) in * end.
  pose proof (paddle_loop_spec 1 4 paddleX paddleY paddleColour m1
                ltac:(lia) ltac:(lia) Hlen1 ltac:(lia) ltac:(lia) ltac:(lia) ltac:(lia))
    as H2.
  cbv zeta in H2. destruct H2 as [Hlen2 Hcell2].
  split; [exact Hlen2|].
  rewrite (Hcell2 y x Hy Hx), (Hcell1 y x Hy Hx).
  destruct (Z.eqb_spec x paddleX), (Z.leb_spec paddleX x), (Z.ltb_spec x (paddleX + 1));
    try lia; cbn [andb]; reflexivity.
Qed.

(** X16.  [drawPaddle] moves a paddle: for a column on the panel and old
    and new positions that keep the four cells on the panel, the four cells
    from [paddleY] down get [paddleColour], the cells of the old footprint
    that the new one does not cover get ['X'], and every other cell stays
    as it was. *)
Theorem drawPaddle_moves_paddle
    (g : Game) (paddleX paddleY oldPaddleY paddleColour y x : Z) :
  length (gameMatrix g) = 1024%nat ->
  0 <= paddleX < 32 -> 0 <= paddleY <= 28 -> 0 <= oldPaddleY <= 28 ->
  0 <= y < 32 -> 0 <= x < 32 ->
  let g' := drawPaddle paddleX paddleY oldPaddleY paddleColour g in
  length (gameMatrix g') = 1024%nat /\
  matrix_get (gameMatrix g') y x =
    if (x =? paddleX) && (paddleY <=? y) && (y <? paddleY + paddleHeight)
    then paddleColour
    else if (x =? paddleX) && (oldPaddleY <=? y) && (y <? oldPaddleY + paddleHeight)
    then chr "X"
    else matrix_get (gameMatrix g) y x.
Proof. exact (drawPaddle_cells g paddleX paddleY oldPaddleY paddleColour y x). Qed.

Lemma drawPaddle_moves_paddle_witness :
  length (gameMatrix exampleGame) = 1024%nat /\
  0 <= 2 < 32 /\ 0 <= 16 <= 28 /\ 0 <= 14 <= 28 /\
  0 <= 15 < 32 /\ 0 <= 2 < 32 /\
  let g' := drawPaddle 2 16 14 (chr "R") exampleGame in
  length (gameMatrix g') = 1024%nat /\
  matrix_get (gameMatrix g') 15 2 =
    if (2 =? 2) && (16 <=? 15) && (15 <? 16 + paddleHeight)
    then chr "R"
    else if (2 =? 2) && (14 <=? 15) && (15 <? 14 + paddleHeight)
    then chr "X"
    else matrix_get (gameMatrix exampleGame) 15 2.
Proof.
  assert (Hlen : length (gameMatrix exampleGame) = 1024%nat) by (vm_compute; reflexivity).
  assert (Hpx : 0 <= 2 < 32) by lia.
  assert (Hpy : 0 <= 16 <= 28) by lia.
  assert (Hold : 0 <= 14 <= 28) by lia.
  assert (Hy : 0 <= 15 < 32) by lia.
  split; [exact Hlen|]. split; [exact Hpx|]. split; [exact Hpy|]. split; [exact Hold|].
  split; [exact Hy|]. split; [exact Hpx|].
  exact (drawPaddle_moves_paddle exampleGame 2 16 14 (chr "R") 15 2
           Hlen Hpx Hpy Hold Hy Hpx).
Defined.

Lemma drawNet_cells g :
  length (gameMatrix g) = 1024%nat ->
  length (gameMatrix (drawNet g)) = 1024%nat /\
  forall y x, 0 <= y < 32 -> 0 <= x < 32 ->
    matrix_get (gameMatrix (drawNet g)) y x =
      if (15 <=? x) && (x <=? 16) && (y `mod` 4 <? 2)
      then netColour g else matrix_get (gameMatrix g) y x.
Proof.
  intros Hlen. unfold drawNet. rewrite gameMatrix_set_gameMatrix.
  set (guard := fun i j : Z => Z.rem j 4 <? 2).
  set (idx := fun i j : Z => j * panelWidth + (15 + i)).
  assert (Hloop :
    for_range 0 netWidth
      (fun i m =>
         let x := Z.quot panelWidth 2 + i - Z.quot netWidth 2 in
         for_range 0 panelHeight
           (fun j m =>
              let y := j in
              if Z.rem y (netWidth * 2) <? netWidth
              then matrix_set m y x (netColour g) else m) m)
      (gameMatrix g) =
    scatter2 2 32 guard idx (fun _ _ => netColour g) (gameMatrix g)).
  { unfold scatter2, netWidth, panelHeight. apply for_range_ext; [lia|].
    intros i s Hi. cbv zeta. unfold scatter1. apply for_range_ext; [lia|].
    intros j t Hj. unfold guard, idx, matrix_set.
    change (Z.quot panelWidth 2) with 16. change (Z.quot 2 2) with 1.
    change (2 * 2) with 4.
    replace (16 + i - 1) with (15 + i) by lia. reflexivity. }
  cbv zeta in Hloop. rewrite Hloop.
  destruct (scatter2_spec 2 32 guard idx (fun _ _ => netColour g) (gameMatrix g))
    as (Hlen' & Hset & Hkeep); try lia.
  { intros i j Hi Hj _. rewrite Hlen. unfold idx, panelWidth. lia. }
  { intros i j i' j' Hi Hj Hi' Hj' _ _. unfold idx, panelWidth. lia. }
  split; [rewrite Hlen'; exact Hlen|].
  intros y x Hy Hx. unfold matrix_get.
  destruct (Z.leb_spec 15 x), (Z.leb_spec x 16), (Z.ltb_spec (y `mod` 4) 2); cbn [andb].
  - replace (y * panelWidth + x) with (idx (x - 15) y) by (unfold idx, panelWidth; lia).
    apply Hset; try lia. unfold guard. rewrite Z.rem_mod_nonneg by lia.
    destruct (Z.ltb_spec (y `mod` 4) 2); [reflexivity | lia].
  - apply Hkeep. intros i j Hi Hj Hg. unfold guard in Hg.
    rewrite Z.rem_mod_nonneg in Hg by lia. apply Z.ltb_lt in Hg.
    unfold idx, panelWidth. intros Heq. assert (j = y) by lia. subst j. lia.
  - apply Hkeep. intros i j Hi Hj _. unfold idx, panelWidth. lia.
  - apply Hkeep. intros i j Hi Hj _. unfold idx, panelWidth. lia.
  - apply Hkeep. intros i j Hi Hj _. unfold idx, panelWidth. lia.
  - apply Hkeep. intros i j Hi Hj _. unfold idx, panelWidth. lia.
  - apply Hkeep. intros i j Hi Hj _. unfold idx, panelWidth. lia.
  - apply Hkeep. intros i j Hi Hj _. unfold idx, panelWidth. lia.
Qed.

Lemma drawBorders_cells g :
  length (gameMatrix g) = 1024%nat ->
  length (gameMatrix (drawBorders g)) = 1024%nat /\
  forall y x, 0 <= y < 32 -> 0 <= x < 32 ->
    matrix_get (gameMatrix (drawBorders g)) y x =
      if (y =? 0) || (y =? 31) then borderColour g else matrix_get (gameMatrix g) y x.
Proof.
  intros Hlen. unfold drawBorders. rewrite gameMatrix_set_gameMatrix.
  unfold borderWidth. change 1 with (0 + 1) at 1.
  rewrite for_range_snoc by lia. rewrite for_range_empty.
  assert (Hinv :
    (fun k r =>
       length r = 1024%nat /\
       forall y x, 0 <= y < 32 -> 0 <= x < 32 ->
         matrix_get r y x =
           if (x <? k) && ((y =? 0) || (y =? 31))
           then borderColour g else matrix_get (gameMatrix g) y x)
      panelWidth
      (for_range 0 panelWidth
         (fun i m =>
            let m := matrix_set m 0 i (borderColour g) in
            matrix_set m (panelHeight - 1 - 0) i (borderColour g))
         (gameMatrix g))).
  { apply for_range_ind.
    - unfold panelWidth. lia.
    - split; [exact Hlen|]. intros y x Hy Hx.
      destruct (Z.ltb_spec x 0); [lia | reflexivity].
    - unfold panelWidth, panelHeight. intros k r Hk [Hlenr Hcell]. cbv zeta.
      unfold matrix_set, panelWidth.
      split; [rewrite !arr_set_length; exact Hlenr|].
      intros y x Hy Hx. specialize (Hcell y x Hy Hx).
      unfold matrix_get, panelWidth in *.
      rewrite !arr_get_set by (rewrite ?arr_set_length, Hlenr; lia).
      rewrite Hcell.
      destruct (Z.ltb_spec x k), (Z.ltb_spec x (k + 1)),
               (Z.eqb_spec y 0), (Z.eqb_spec y 31);
        try lia; cbn [andb orb]; repeat case_decide; try lia; reflexivity. }
  destruct Hinv as [Hlen' Hcell]. split; [exact Hlen'|].
  intros y x Hy Hx. etransitivity; [apply (Hcell y x Hy Hx)|].
  unfold panelWidth. destruct (Z.ltb_spec x 32); [reflexivity | lia].
Qed.

Lemma initGameMatrix_cells g :
  length (gameMatrix g) = 1024%nat ->
  gameMatrix (initGameMatrix g) = replicate 1024 (chr "X").
Proof.
  intros Hlen. unfold initGameMatrix. rewrite gameMatrix_set_gameMatrix.
  set (idx := fun i j : Z => i * panelWidth + j).
  assert (Hloop :
    for_range 0 panelHeight
      (fun i m => for_range 0 panelWidth (fun j m => matrix_set m i j (chr "X")) m)
      (gameMatrix g) =
    scatter2 32 32 (fun _ _ => true) idx (fun _ _ => chr "X") (gameMatrix g)).
  { unfold scatter2, panelHeight. apply for_range_ext; [lia|].
    intros i s Hi. unfold scatter1, panelWidth. apply for_range_ext; [lia|].
    intros j t Hj. reflexivity. }
  rewrite Hloop.
  destruct (scatter2_spec 32 32 (fun _ _ => true) idx (fun _ _ => chr "X") (gameMatrix g))
    as (Hlen' & Hset & _); try lia.
  { intros i j Hi Hj _. rewrite Hlen. unfold idx, panelWidth. lia. }
  { intros i j i' j' Hi Hj Hi' Hj' _ _. unfold idx, panelWidth. lia. }
  apply arr_ext.
  - rewrite Hlen', Hlen, length_replicate. reflexivity.
  - rewrite Hlen', Hlen. intros c Hc.
    rewrite arr_get_replicate by lia.
    destruct (matrix_cell c ltac:(lia)) as (Hidx & Hy & Hx).
    rewrite Hidx. apply (Hset (c / 32) (c `mod` 32)); (reflexivity || lia).
Qed.

(** X17.  [drawNet] draws a dashed line down the two centre columns:
    columns 15 and 16 get [netColour] in the rows 0, 1, 4, 5, 8, 9, ...
    (row modulo 4 below 2); every other cell stays as it was. *)
Theorem drawNet_draws_dashed_centre_line (g : Game) (y x : Z) :
  length (gameMatrix g) = 1024%nat ->
  0 <= y < 32 -> 0 <= x < 32 ->
  length (gameMatrix (drawNet g)) = 1024%nat /\
  matrix_get (gameMatrix (drawNet g)) y x =
    if (15 <=? x) && (x <=? 16) && (y `mod` 4 <? 2)
    then netColour g else matrix_get (gameMatrix g) y x.
Proof.
  intros Hlen Hy Hx. destruct (drawNet_cells g Hlen) as [Hlen' Hcell].
  split; [exact Hlen' | apply Hcell; assumption].
Qed.

Lemma drawNet_draws_dashed_centre_line_witness :
  length (gameMatrix exampleGame) = 1024%nat /\
  0 <= 5 < 32 /\ 0 <= 16 < 32 /\
  length (gameMatrix (drawNet exampleGame)) = 1024%nat /\
  matrix_get (gameMatrix (drawNet exampleGame)) 5 16 =
    if (15 <=? 16) && (16 <=? 16) && (5 `mod` 4 <? 2)
    then netColour exampleGame else matrix_get (gameMatrix exampleGame) 5 16.
Proof.
  assert (Hlen : length (gameMatrix exampleGame) = 1024%nat) by (vm_compute; reflexivity).
  assert (Hy : 0 <= 5 < 32) by lia.
  assert (Hx : 0 <= 16 < 32) by lia.
  split; [exact Hlen|]. split; [exact Hy|]. split; [exact Hx|].
  exact (drawNet_draws_dashed_centre_line exampleGame 5 16 Hlen Hy Hx).
Defined.

(** X18.  [initGameMatrix] followed by [drawBorders], the start of every
    screen, leaves rows 0 and 31 in [borderColour] and every other cell
    ['X'], whatever the matrix held: [drawBorders] draws the top and bottom
    rows only and no left or right edge. *)
Theorem blank_matrix_with_borders (g : Game) (y x : Z) :
  length (gameMatrix g) = 1024%nat ->
  0 <= y < 32 -> 0 <= x < 32 ->
  matrix_get (gameMatrix (drawBorders (initGameMatrix g))) y x =
    if (y =? 0) || (y =? 31) then borderColour g else chr "X".
Proof.
  intros Hlen Hy Hx.
  pose proof (initGameMatrix_cells g Hlen) as Hinit.
  assert (Hlen1 : length (gameMatrix (initGameMatrix g)) = 1024%nat)
    by (rewrite Hinit; apply length_replicate).
  destruct (drawBorders_cells (initGameMatrix g) Hlen1) as [_ Hcell].
  rewrite (Hcell y x Hy Hx), Hinit.
  change (borderColour (initGameMatrix g)) with (borderColour g).
  destruct ((y =? 0) || (y =? 31)); [reflexivity|].
  unfold matrix_get, panelWidth. apply arr_get_replicate. lia.
Qed.

Lemma blank_matrix_with_borders_witness :
  length (gameMatrix exampleGame) = 1024%nat /\
  0 <= 31 < 32 /\ 0 <= 0 < 32 /\
  matrix_get (gameMatrix (drawBorders (initGameMatrix exampleGame))) 31 0 =
    if (31 =? 0) || (31 =? 31) then borderColour exampleGame else chr "X".
Proof.
  assert (Hlen : length (gameMatrix exampleGame) = 1024%nat) by (vm_compute; reflexivity).
  assert (Hy : 0 <= 31 < 32) by lia.
  assert (Hx : 0 <= 0 < 32) by lia.
  split; [exact Hlen|]. split; [exact Hy|]. split; [exact Hx|].
  exact (blank_matrix_with_borders exampleGame 31 0 Hlen Hy Hx).
Defined.

(** ** game.c: what is drawn can be scanned *)

Lemma validMatrix_cells m :
  length m = 1024%nat ->
  (forall y x, 0 <= y < 32 -> 0 <= x < 32 -> isColourCode (matrix_get m y x) = true) ->
  validMatrix m.
Proof.
  intros Hlen Hcell. split; [exact Hlen|].
  apply Forall_arr_get. rewrite Hlen. intros c Hc.
  destruct (matrix_cell c ltac:(lia)) as (Hidx & Hy & Hx).
  rewrite Hidx. apply (Hcell (c / 32) (c `mod` 32)); assumption.
Qed.

Lemma validMatrix_cell m y x :
  validMatrix m -> 0 <= y < 32 -> 0 <= x < 32 -> isColourCode (matrix_get m y x) = true.
Proof.
  intros [Hlen Hcodes] Hy Hx. unfold matrix_get, panelWidth.
  apply (arr_get_Forall (fun c => isColourCode c = true)); [exact Hcodes|].
  rewrite Hlen. lia.
Qed.

Lemma drawDigit_valid g digit sx sy :
  validMatrix (gameMatrix g) -> isColourCode (scoreColour g) = true ->
  validMatrix (gameMatrix (drawDigit digit sx sy g)).
Proof.
  intros Hvalid Hcol. pose proof Hvalid as [Hlen _].
  unfold drawDigit. rewrite gameMatrix_set_gameMatrix.
  destruct (glyph_loop_spec 5 (table3 digits digit) (scoreColour g) (chr "X")
              sx sy (gameMatrix g) ltac:(lia) Hlen) as [Hlen' Hcell].
  apply validMatrix_cells; [exact Hlen'|].
  intros y x Hy Hx. etransitivity; [apply f_equal, (Hcell y x Hy Hx)|].
  destruct ((sy <=? y) && (y <? sy + 5) && (sx <=? x) && (x <? sx + 4));
    [|apply validMatrix_cell; assumption].
  destruct (table3 digits digit (y - sy) (x - sx) =? 1); [exact Hcol | reflexivity].
Qed.

Lemma drawCharacter_valid g index0 character sx sy :
  validMatrix (gameMatrix g) ->
  isColourCode (textColour g) = true -> isColourCode (textBackgroundColour g) = true ->
  validMatrix (gameMatrix (drawCharacter index0 character sx sy g)).
Proof.
  intros Hvalid Hfg Hbg. pose proof Hvalid as [Hlen _].
  unfold drawCharacter. rewrite gameMatrix_set_gameMatrix.
  destruct (glyph_loop_spec 6 (table3 displayDigits (glyphSwitch character index0))
              (textColour g) (textBackgroundColour g)
              sx sy (gameMatrix g) ltac:(lia) Hlen) as [Hlen' Hcell].
  apply validMatrix_cells; [exact Hlen'|].
  intros y x Hy Hx. etransitivity; [apply f_equal, (Hcell y x Hy Hx)|].
  destruct ((sy <=? y) && (y <? sy + 6) && (sx <=? x) && (x <? sx + 4));
    [|apply validMatrix_cell; assumption].
  destruct (table3 displayDigits (glyphSwitch character index0) (y - sy) (x - sx) =? 1);
    assumption.
Qed.

Lemma drawBorders_valid g :
  validMatrix (gameMatrix g) -> isColourCode (borderColour g) = true ->
  validMatrix (gameMatrix (drawBorders g)).
Proof.
  intros Hvalid Hcol. pose proof Hvalid as [Hlen _].
  destruct (drawBorders_cells g Hlen) as [Hlen' Hcell].
  apply validMatrix_cells; [exact Hlen'|].
  intros y x Hy Hx. rewrite (Hcell y x Hy Hx).
  destruct ((y =? 0) || (y =? 31)); [exact Hcol | apply validMatrix_cell; assumption].
Qed.

Lemma drawNet_valid g :
  validMatrix (gameMatrix g) -> isColourCode (netColour g) = true ->
  validMatrix (gameMatrix (drawNet g)).
Proof.
  intros Hvalid Hcol. pose proof Hvalid as [Hlen _].
  destruct (drawNet_cells g Hlen) as [Hlen' Hcell].
  apply validMatrix_cells; [exact Hlen'|].
  intros y x Hy Hx. rewrite (Hcell y x Hy Hx).
  destruct ((15 <=? x) && (x <=? 16) && (y `mod` 4 <? 2));
    [exact Hcol | apply validMatrix_cell; assumption].
Qed.

Lemma initGameMatrix_valid g :
  length (gameMatrix g) = 1024%nat -> validMatrix (gameMatrix (initGameMatrix g)).
Proof.
  intros Hlen. rewrite (initGameMatrix_cells g Hlen).
  split; [apply length_replicate|]. apply Forall_replicate. reflexivity.
Qed.

Lemma drawPaddle_valid g paddleX paddleY oldPaddleY paddleColour :
  validMatrix (gameMatrix g) -> isColourCode paddleColour = true ->
  0 <= paddleX < 32 -> 0 <= paddleY <= 28 -> 0 <= oldPaddleY <= 28 ->
  validMatrix (gameMatrix (drawPaddle paddleX paddleY oldPaddleY paddleColour g)).
Proof.
  intros Hvalid Hcol Hpx Hpy Hold. pose proof Hvalid as [Hlen _].
  apply validMatrix_cells.
  - apply (drawPaddle_cells g paddleX paddleY oldPaddleY paddleColour 0 0);
      (assumption || lia).
  - intros y x Hy Hx.
    destruct (drawPaddle_cells g paddleX paddleY oldPaddleY paddleColour y x
                Hlen Hpx Hpy Hold Hy Hx) as [_ Hcell].
    rewrite Hcell.
    destruct ((x =? paddleX) && (paddleY <=? y) && (y <? paddleY + paddleHeight));
      [exact Hcol|].
    destruct ((x =? paddleX) && (oldPaddleY <=? y) && (y <? oldPaddleY + paddleHeight));
      [reflexivity | apply validMatrix_cell; assumption].
Qed.

Lemma displayStart_valid g index0 :
  validMatrix (gameMatrix g) ->
  isColourCode (textColour g) = true -> isColourCode (textBackgroundColour g) = true ->
  validMatrix (gameMatrix (displayStart index0 g)).
Proof.
  intros Hvalid Htext Hback. unfold displayStart. cbv zeta.
  apply drawCharacter_valid; [|exact Htext | exact Hback].
  apply drawCharacter_valid; [|exact Htext | exact Hback].
  apply drawCharacter_valid; [|exact Htext | exact Hback].
  apply drawCharacter_valid; [|exact Htext | exact Hback].
  apply drawCharacter_valid; [exact Hvalid | exact Htext | exact Hback].
Qed.

Lemma matrix_set_valid m y x c :
  validMatrix m -> isColourCode c = true -> validMatrix (matrix_set m y x c).
Proof.
  intros [Hlen Hcodes] Hc. unfold matrix_set, arr_set.
  destruct (0 <=? y * panelWidth + x); [|split; assumption].
  split; [rewrite length_insert; exact Hlen|].
  apply Forall_insert; assumption.
Qed.

Lemma eraseOldPaddles_valid g paddleX oldPaddleY :
  validMatrix (gameMatrix g) ->
  validMatrix (gameMatrix (eraseOldPaddles paddleX oldPaddleY g)).
Proof.
  intros Hvalid. unfold eraseOldPaddles. rewrite gameMatrix_set_gameMatrix.
  apply (for_range_ind (fun _ m => validMatrix m));
    [unfold paddleWidth; lia | exact Hvalid |].
  intros i m _ Hm. cbv zeta.
  apply (for_range_ind (fun _ m => validMatrix m));
    [unfold paddleHeight; lia | exact Hm |].
  intros j m' _ Hm'. apply matrix_set_valid; [exact Hm' | reflexivity].
Qed.

Lemma drawWinBorders_valid g :
  validMatrix (gameMatrix g) -> isColourCode (borderColour g) = true ->
  validMatrix (gameMatrix (drawWinBorders g)).
Proof.
  intros Hvalid Hcol. unfold drawWinBorders. rewrite gameMatrix_set_gameMatrix.
  apply (for_range_ind (fun _ m => validMatrix m));
    [unfold borderWidth; lia | exact Hvalid |].
  intros j m _ Hm.
  apply (for_range_ind (fun _ m => validMatrix m));
    [unfold panelWidth; lia | exact Hm |].
  intros i m' _ Hm'. cbv zeta.
  repeat apply matrix_set_valid; assumption.
Qed.

Lemma displayWinner_valid g index0 winner :
  validMatrix (gameMatrix g) ->
  isColourCode (textColour g) = true -> isColourCode (textBackgroundColour g) = true ->
  isColourCode (borderColour g) = true ->
  validMatrix (gameMatrix (displayWinner index0 winner g)).
Proof.
  intros Hvalid Htext Hback Hborder. unfold displayWinner. cbv zeta.
  apply drawWinBorders_valid; [|destruct (winner =? 0); exact Hborder].
  apply drawCharacter_valid;
    [|destruct (winner =? 0); exact Htext | destruct (winner =? 0); exact Hback].
  apply drawCharacter_valid;
    [|destruct (winner =? 0); exact Htext | destruct (winner =? 0); exact Hback].
  apply drawCharacter_valid;
    [|destruct (winner =? 0); exact Htext | destruct (winner =? 0); exact Hback].
  apply drawCharacter_valid;
    [|destruct (winner =? 0); exact Htext | destruct (winner =? 0); exact Hback].
  destruct (winner =? 0).
  - apply drawCharacter_valid; [|exact Htext | exact Hback].
    apply drawCharacter_valid; assumption.
  - apply drawCharacter_valid; [|exact Htext | exact Hback].
    apply drawCharacter_valid; assumption.
Qed.

(** On a row of colour codes [displayRow] assigns its local before the
    first read, whatever the local held. *)
Lemma displayRow_valid_row {St : Type} (H : PanelHAL St) (m : list Z) (y c0 c1 : Z) (st : St) :
  validMatrix m -> 0 <= y < 32 ->
  displayRow H c0 (matrixRowAt m y) st = displayRow H c1 (matrixRowAt m y) st.
Proof.
  intros [Hlen Hcodes] Hy.
  rewrite (displayRow_calls H c0), (displayRow_calls H c1);
    first [reflexivity
          | apply matrixRowAt_length; [exact Hlen | lia]
          | apply matrixRowAt_Forall, Hcodes].
Qed.

Lemma updateDisplay_valid_matrix {St : Type} (H : PanelHAL St) (m : list Z)
    (uninit uninit' : Z -> Z) (st : St) :
  validMatrix m ->
  updateDisplay H uninit m st = updateDisplay H uninit' m st.
Proof.
  intros Hvalid. unfold updateDisplay. change (Z.quot panelHeight 2) with 16.
  apply for_range_ext; [lia|].
  intros i s Hi. unfold scanRowPair. cbv zeta.
  rewrite (displayRow_valid_row H m i (uninit i) (uninit' i)) by (assumption || lia).
  rewrite (displayRow_valid_row H m (i + 16) (uninit (i + 16)) (uninit' (i + 16)))
    by (assumption || lia).
  reflexivity.
Qed.

(** X19.  Drawing keeps the logical framebuffer scannable.  Let the
    colour globals hold colour codes and [gameMatrix] have 32 by 32 cells.
    Then [initGameMatrix] leaves a matrix of 32 by 32 colour codes,
    whatever the cells held.  And when the matrix is 32 by 32 colour
    codes, it is still so after [drawBorders], [drawWinBorders],
    [drawNet], [drawDigit] and [displayScores] (digits 0..9, any
    position), [drawCharacter] (a character it has a glyph for, any
    position), [displayStart], [displayWinner], [handleWin], and
    [eraseOldPaddles], [drawPaddle] and [drawPaddles] for paddles whose
    four cells lie on the panel.  On such a matrix [displayRow], for each
    of the 32 rows, and [updateDisplay] make the same calls whatever the
    uninitialised local of [displayRow] held. *)
Theorem drawing_keeps_matrix_scannable (g : Game) :
  length (gameMatrix g) = 1024%nat ->
  isColourCode (lPaddleColour g) = true -> isColourCode (rPaddleColour g) = true ->
  isColourCode (netColour g) = true -> isColourCode (borderColour g) = true ->
  isColourCode (scoreColour g) = true ->
  isColourCode (textColour g) = true -> isColourCode (textBackgroundColour g) = true ->
  validMatrix (gameMatrix (initGameMatrix g)) /\
  (validMatrix (gameMatrix g) ->
   validMatrix (gameMatrix (drawBorders g)) /\
   validMatrix (gameMatrix (drawWinBorders g)) /\
   validMatrix (gameMatrix (drawNet g)) /\
   (forall digit sx sy, 0 <= digit <= 9 ->
      validMatrix (gameMatrix (drawDigit digit sx sy g))) /\
   (0 <= lScore g <= 9 -> 0 <= rScore g <= 9 ->
    validMatrix (gameMatrix (displayScores g))) /\
   (forall index0 character sx sy, isGlyphCharacter character = true ->
      validMatrix (gameMatrix (drawCharacter index0 character sx sy g))) /\
   (forall index0, validMatrix (gameMatrix (displayStart index0 g))) /\
   (forall index0 winner, validMatrix (gameMatrix (displayWinner index0 winner g))) /\
   (forall index0, validMatrix (gameMatrix (snd (handleWin index0 g)))) /\
   (forall paddleX oldPaddleY,
      0 <= paddleX < 32 -> 0 <= oldPaddleY <= 28 ->
      validMatrix (gameMatrix (eraseOldPaddles paddleX oldPaddleY g))) /\
   (forall paddleX paddleY oldPaddleY paddleColour,
      isColourCode paddleColour = true ->
      0 <= paddleX < 32 -> 0 <= paddleY <= 28 -> 0 <= oldPaddleY <= 28 ->
      validMatrix (gameMatrix (drawPaddle paddleX paddleY oldPaddleY paddleColour g))) /\
   (0 <= lPaddleX g < 32 -> 0 <= lPaddleY g <= 28 -> 0 <= oldLPaddleY g <= 28 ->
    0 <= rPaddleX g < 32 -> 0 <= rPaddleY g <= 28 -> 0 <= oldRPaddleY g <= 28 ->
    validMatrix (gameMatrix (drawPaddles g))) /\
   (forall (St : Type) (H : PanelHAL St) (y c0 c1 : Z) (st : St),
      0 <= y < 32 ->
      displayRow H c0 (matrixRowAt (gameMatrix g) y) st =
        displayRow H c1 (matrixRowAt (gameMatrix g) y) st) /\
   (forall (St : Type) (H : PanelHAL St) (uninit uninit' : Z -> Z) (st : St),
      updateDisplay H uninit (gameMatrix g) st =
        updateDisplay H uninit' (gameMatrix g) st)).
Proof.
  intros Hlen HlP HrP Hnet Hborder Hscore Htext Hback.
  split; [apply initGameMatrix_valid, Hlen|].
  intros Hvalid.
  split; [apply drawBorders_valid; assumption|].
  split; [apply drawWinBorders_valid; assumption|].
  split; [apply drawNet_valid; assumption|].
  split; [intros; apply drawDigit_valid; assumption|].
  split.
  { intros _ _. unfold displayScores. apply drawDigit_valid; [|exact Hscore].
    apply drawDigit_valid; assumption. }
  split; [intros; apply drawCharacter_valid; assumption|].
  split; [intros; apply displayStart_valid; assumption|].
  split; [intros; apply displayWinner_valid; assumption|].
  split; [intros; unfold handleWin; cbn [snd]; apply displayWinner_valid; assumption|].
  split; [intros; apply eraseOldPaddles_valid; assumption|].
  split; [intros; apply drawPaddle_valid; assumption|].
  split.
  { intros HlX HlY HlO HrX HrY HrO. unfold drawPaddles.
    change (gameMatrix (set_oldPaddles ?a ?b ?h)) with (gameMatrix h).
    apply drawPaddle_valid; try assumption.
    apply drawPaddle_valid; assumption. }
  split; [intros; apply displayRow_valid_row; assumption|].
  intros. apply updateDisplay_valid_matrix. exact Hvalid.
Qed.

Lemma drawing_keeps_matrix_scannable_witness :
  length (gameMatrix exampleGameUncleared) = 1024%nat /\
  isColourCode (lPaddleColour exampleGameUncleared) = true /\
  isColourCode (rPaddleColour exampleGameUncleared) = true /\
  isColourCode (netColour exampleGameUncleared) = true /\
  isColourCode (borderColour exampleGameUncleared) = true /\
  isColourCode (scoreColour exampleGameUncleared) = true /\
  isColourCode (textColour exampleGameUncleared) = true /\
  isColourCode (textBackgroundColour exampleGameUncleared) = true /\
  validMatrix (gameMatrix (initGameMatrix exampleGameUncleared)) /\
  validMatrix (gameMatrix (drawNet (drawPaddles (displayScores
                 (initGameMatrix exampleGameUncleared))))).
Proof.
  assert (H0 : length (gameMatrix exampleGameUncleared) = 1024%nat)
    by (vm_compute; reflexivity).
  assert (H1 : isColourCode (lPaddleColour exampleGameUncleared) = true)
    by (vm_compute; reflexivity).
  assert (H2 : isColourCode (rPaddleColour exampleGameUncleared) = true)
    by (vm_compute; reflexivity).
  assert (H3 : isColourCode (netColour exampleGameUncleared) = true)
    by (vm_compute; reflexivity).
  assert (H4 : isColourCode (borderColour exampleGameUncleared) = true)
    by (vm_compute; reflexivity).
  assert (H5 : isColourCode (scoreColour exampleGameUncleared) = true)
    by (vm_compute; reflexivity).
  assert (H6 : isColourCode (textColour exampleGameUncleared) = true)
    by (vm_compute; reflexivity).
  assert (H7 : isColourCode (textBackgroundColour exampleGameUncleared) = true)
    by (vm_compute; reflexivity).
  repeat (split; [assumption|]).
  destruct (drawing_keeps_matrix_scannable exampleGameUncleared H0 H1 H2 H3 H4 H5 H6 H7)
    as (Hinit & Hrest).
  split; [exact Hinit|]. clear Hrest.
  destruct (drawing_keeps_matrix_scannable (initGameMatrix exampleGameUncleared)
              (proj1 Hinit) H1 H2 H3 H4 H5 H6 H7) as (_ & Hdrawn).
  destruct (Hdrawn Hinit) as (_ & _ & _ & _ & Hscores0 & _).
  assert (Hscores : validMatrix (gameMatrix (displayScores
                                   (initGameMatrix exampleGameUncleared)))).
  { apply Hscores0; vm_compute; split; discriminate. }
  destruct (drawing_keeps_matrix_scannable
              (displayScores (initGameMatrix exampleGameUncleared))
              (proj1 Hscores) H1 H2 H3 H4 H5 H6 H7) as (_ & Hdrawn1).
  destruct (Hdrawn1 Hscores)
    as (_ & _ & _ & _ & _ & _ & _ & _ & _ & _ & _ & Hpaddles & _).
  assert (Hp : validMatrix (gameMatrix (drawPaddles (displayScores
                              (initGameMatrix exampleGameUncleared))))).
  { apply Hpaddles; vm_compute; split; first [discriminate | reflexivity]. }
  destruct (drawing_keeps_matrix_scannable
              (drawPaddles (displayScores (initGameMatrix exampleGameUncleared)))
              (proj1 Hp) H1 H2 H3 H4 H5 H6 H7) as (_ & Hdrawn2).
  destruct (Hdrawn2 Hp) as (_ & _ & Hnet & _).
  exact Hnet.
Defined.

Lemma updateDisplay_pixel uninit m st y x ch :
  wf st -> validMatrix m ->
  0 <= y < 32 -> 0 <= x < 32 -> 0 <= ch < 3 ->
  pixel (latchedFramebufferRgb (updateDisplay emulatorHAL uninit m st)) y x ch =
    colourBit (matrix_get m y x) ch.
Proof.
  intros Hwf [Hlen Hcodes] Hy Hx Hch.
  rewrite updateDisplay_runHAL
    by (first [intros ms s; reflexivity | exact Hlen | exact Hcodes]).
  rewrite run_emulatorHAL. unfold scanCalls.
  destruct (run_scanCallsUpTo m 16 st Hwf ltac:(lia)) as (_ & _ & _ & Hpix).
  rewrite (Hpix y x ch Hy Hx Hch).
  destruct (Z.ltb_spec (y `mod` 16) (Z.of_nat 16)); [reflexivity | modlia].
Qed.

(** X20.  The start screen reaches the panel.  For the frame that
    [startScreen] builds on entry ([initGameMatrix], [drawBorders],
    [displayStart]) from any 32 by 32 matrix, with colour codes in the
    border and text colours, one [updateDisplay] on the emulator leaves in
    every pixel of the latched framebuffer the R, G, B bits of the colour
    code drawn at that place. *)
Theorem start_screen_frame_is_shown
    (g : Game) (index0 : Z) (uninit : Z -> Z) (st : Panel) (y x ch : Z) :
  length (gameMatrix g) = 1024%nat ->
  isColourCode (borderColour g) = true ->
  isColourCode (textColour g) = true ->
  isColourCode (textBackgroundColour g) = true ->
  wf st ->
  0 <= y < 32 -> 0 <= x < 32 -> 0 <= ch < 3 ->
  let m := gameMatrix (displayStart index0 (drawBorders (initGameMatrix g))) in
  pixel (latchedFramebufferRgb (updateDisplay emulatorHAL uninit m st)) y x ch =
    table2 colours (colourSwitch (matrix_get m y x) 0) ch.
Proof.
  intros Hlen Hborder Htext Hback Hwf Hy Hx Hch m.
  apply updateDisplay_pixel; try assumption.
  apply displayStart_valid; [|exact Htext | exact Hback].
  apply drawBorders_valid; [|exact Hborder].
  apply initGameMatrix_valid, Hlen.
Qed.

Lemma start_screen_frame_is_shown_witness :
  length (gameMatrix exampleGame) = 1024%nat /\
  isColourCode (borderColour exampleGame) = true /\
  isColourCode (textColour exampleGame) = true /\
  isColourCode (textBackgroundColour exampleGame) = true /\
  wf examplePanel /\
  0 <= 13 < 32 /\ 0 <= 5 < 32 /\ 0 <= 1 < 3 /\
  let m := gameMatrix (displayStart 0 (drawBorders (initGameMatrix exampleGame))) in
  pixel (latchedFramebufferRgb (updateDisplay emulatorHAL (fun _ => 0) m examplePanel))
        13 5 1 =
    table2 colours (colourSwitch (matrix_get m 13 5) 0) 1.
Proof.
  assert (Hlen : length (gameMatrix exampleGame) = 1024%nat) by (vm_compute; reflexivity).
  assert (H1 : isColourCode (borderColour exampleGame) = true) by (vm_compute; reflexivity).
  assert (H2 : isColourCode (textColour exampleGame) = true) by (vm_compute; reflexivity).
  assert (H3 : isColourCode (textBackgroundColour exampleGame) = true)
    by (vm_compute; reflexivity).
  assert (Hwf : wf examplePanel) by (unfold wf; by_computation).
  assert (Hy : 0 <= 13 < 32) by lia.
  assert (Hx : 0 <= 5 < 32) by lia.
  assert (Hch : 0 <= 1 < 3) by lia.
  split; [exact Hlen|]. split; [exact H1|]. split; [exact H2|]. split; [exact H3|].
  split; [exact Hwf|]. split; [exact Hy|]. split; [exact Hx|]. split; [exact Hch|].
  exact (start_screen_frame_is_shown exampleGame 0 (fun _ => 0) examplePanel 13 5 1
           Hlen H1 H2 H3 Hwf Hy Hx Hch).
Defined.

(** ** Joystick readings on the emulator *)

(** X21.  On the emulator a paddle reading is never negative, whatever
    JavaScript returns: the up channel is used when its reading is
    positive, otherwise the down channel, and a negative reading counts
    as 0 (no signal). *)
Theorem emulator_paddle_reading_never_negative (js_get_adc : Z -> Z) (whichPaddle : Z) :
  let up := if whichPaddle =? 0 then 1 else 6 in
  let down := if whichPaddle =? 0 then 2 else 7 in
  let reading := getRawPaddleInput (getRawInput js_get_adc) whichPaddle in
  0 <= reading /\
  reading = if 0 <? js_get_adc up then js_get_adc up else Z.max 0 (js_get_adc down).
Proof.
  cbv zeta. unfold getRawPaddleInput, getRawInput.
  destruct (whichPaddle =? 0).
  - destruct (Z.ltb_spec (js_get_adc 1) 0), (Z.ltb_spec (js_get_adc 2) 0),
             (Z.ltb_spec 0 (js_get_adc 1)); try lia;
      cbn [negb Z.eqb];
      try (destruct (Z.eqb_spec (js_get_adc 1) 0); cbn [negb]); lia.
  - destruct (Z.ltb_spec (js_get_adc 6) 0), (Z.ltb_spec (js_get_adc 7) 0),
             (Z.ltb_spec 0 (js_get_adc 6)); try lia;
      cbn [negb Z.eqb];
      try (destruct (Z.eqb_spec (js_get_adc 6) 0); cbn [negb]); lia.
Qed.

(** ** Concrete runs of the game code *)

(** The first glyph row of the start screen: S T A R T from column 4, one
    blank column between the letters. *)
Example start_screen_row_13 :
  let m := gameMatrix (displayStart 0 (drawBorders (initGameMatrix exampleGame))) in
  map (fun x => matrix_get m 13 (Z.of_nat x)) (seq 0 32) =
  map chr
    ["X"; "X"; "X"; "X";
     "X"; "W"; "W"; "W"; "X";
     "W"; "W"; "W"; "W"; "X";
     "X"; "W"; "W"; "X"; "X";
     "W"; "W"; "W"; "X"; "X";
     "W"; "W"; "W"; "W";
     "X"; "X"; "X"; "X"]%char.
Proof. vm_compute. reflexivity. Qed.

(** The hardware address lines for the driver's [SelectRow(i + 1)], and the
    emulator's row address for the same calls. *)
Example row_numbering_of_the_two_implementations :
  map (fun i => Hw.address (Hw.SelectRow (i + 1) [])) [0; 1; 14; 15] = [1; 2; 15; 0] /\
  map (fun i => selectedRowPairIndex (SelectRow (i + 1) staticPanel)) [0; 1; 14; 15]
    = [0; 1; 14; 15].
Proof. vm_compute. split; reflexivity. Qed.

(** A red matrix scanned once turns every pixel red. *)
Example red_matrix_is_shown :
  latchedFramebufferRgb (updateDisplay emulatorHAL (fun _ => 0) exampleMatrix examplePanel)
  = concat (replicate 1024 [1; 0; 0]).
Proof. vm_compute. reflexivity. Qed.

(** ** The two implementations side by side *)











